(** * Workflow engine of coze-studio: canvas compiler, schema model and
      draft/version store.

    A shallow embedding of

    - [backend/domain/workflow/internal/schema/workflow_schema.go]
      (module [schema]),
    - the canvas adaptor ([CanvasToWorkflowSchema], [normalizePorts],
      [EdgeToConnection], [PruneIsolatedNodes], [parseBatchMode]; module
      [adaptor]) together with the canvas value objects (module [vo]),
    - [backend/domain/workflow/service/service_impl.go] ([Save],
      [calculateTestRunSuccess], [Publish], [adaptToChatFlow]; module
      [service]).

    Go values are modelled as follows.  A function returning [(T, error)]
    returns an [outcome T]; a run-time panic is the third constructor of
    [outcome], so that [recover] can be modelled.  Go maps are stdpp [gmap]s,
    strings are [string], [int]/[int64] are [Z].  Types and functions that
    live outside the translated files (node adaptors, the repository, the
    JSON codec, dynamically typed [any] values) are the fields of the classes
    [Types] and [Env]; every definition and theorem is parametric in them and
    module [Sample] gives one instance on which the definitions run. *)

From Stdlib Require Import ZArith String Ascii List Bool Lia.
From Stdlib Require Import DecimalString DecimalZ DecimalPos DecimalFacts.
From stdpp Require Import gmap strings list relations sets fin_maps.

#[global] Set Warnings "-register-all,-clear-no-such-hyp".
#[local] Open Scope string_scope.
#[local] Open Scope Z_scope.

(** ** Errors, panics and the result of a Go call *)

(** Go [error] values that the translated code creates or inspects. *)
Inductive error : Type :=
| errorf (msg : string)          (* fmt.Errorf / errors.New, rendered *)
| NewPanicErr (info : error)     (* safego.NewPanicErr(info, stack) *)
| ErrRecordNotFound              (* gorm.ErrRecordNotFound *)
| WrapError (code : string) (e : error) (* vo.WrapError(errno, err) *)
| wrapf (msg : string) (e : error). (* fmt.Errorf(msg + ": %w", e) *)

#[global] Instance error_eq_dec : EqDecision error.
Proof. solve_decision. Defined.

(** The value a Go run time passes to [panic] on a nil dereference. *)
Definition nilDereference : error :=
  errorf "runtime error: invalid memory address or nil pointer dereference".

(** The value passed to [panic] on an out-of-range slice index. *)
Definition indexOutOfRange : error :=
  errorf "runtime error: index out of range".

(** What a call does: return a value, return a non-nil [error], or panic. *)
Inductive outcome (A : Type) : Type :=
| Ok (a : A)
| Err (e : error)
| Panic (p : error).
Arguments Ok {A} a.
Arguments Err {A} e.
Arguments Panic {A} p.

#[global] Instance outcome_ret : MRet outcome := fun A a => Ok a.
#[global] Instance outcome_bind : MBind outcome := fun A B k m =>
  match m with
  | Ok a => k a
  | Err e => Err e
  | Panic p => Panic p
  end.

(** Dereferencing a pointer: [nil] panics. *)
Definition deref {A} (p : option A) : outcome A :=
  match p with
  | Some a => Ok a
  | None => Panic nilDereference
  end.

(** A [for] loop whose body may return early with an error: the state is
    threaded from left to right and the first failure ends the loop. *)
Section foldM.
Context {A S : Type} (body : S -> A -> outcome S).

Fixpoint foldM (l : list A) (s : S) : outcome S :=
  match l with
  | [] => Ok s
  | a :: l' => s' ← body s a; foldM l' s'
  end.

End foldM.

(** [recover()] in a deferred function: a panic becomes the error
    [safego.NewPanicErr]. *)
Definition recover {A} (m : outcome A) : outcome A :=
  match m with
  | Panic p => Err (NewPanicErr p)
  | _ => m
  end.

(** ** The parts of Go's [strconv] and [strings] that the code calls *)

Module strconv.

(** Bounds of [int] on a 64-bit platform. *)
Definition minInt : Z := - 2 ^ 63.
Definition maxInt : Z := 2 ^ 63 - 1.

(** [strconv.Itoa] / [strconv.FormatInt(_, 10)] / [%d]. *)
Definition Itoa (z : Z) : string := NilZero.string_of_int (Z.to_int z).

(** [strconv.Atoi]: an optional sign, then one or more decimal digits; a
    value outside [int] is a range error.  [None] stands for the error. *)
Definition Atoi (s : string) : option Z :=
  let '(neg, digits) :=
    match s with
    | String "+" r => (false, r)
    | String "-" r => (true, r)
    | _ => (false, s)
    end in
  match NilZero.uint_of_string digits with
  | Some d =>
      let z := if neg then - Z.of_uint d else Z.of_uint d in
      if (minInt <=? z) && (z <=? maxInt) then Some z else None
  | None => None
  end.

End strconv.

Module Strings.

(** [strings.TrimPrefix] when [strings.HasPrefix] holds, [None] otherwise. *)
Fixpoint CutPrefix (prefix s : string) : option string :=
  match prefix with
  | EmptyString => Some s
  | String a p' =>
      match s with
      | String b s' => if Ascii.eqb a b then CutPrefix p' s' else None
      | EmptyString => None
      end
  end.

Definition HasPrefix (s prefix : string) : bool :=
  match CutPrefix prefix s with Some _ => true | None => false end.

(** [strings.Split(s, sep)] for a one-character separator. *)
Fixpoint Split (s : string) (sep : ascii) : list string :=
  match s with
  | EmptyString => [EmptyString]
  | String c s' =>
      if Ascii.eqb c sep then EmptyString :: Split s' sep
      else match Split s' sep with
           | [] => [String c EmptyString]
           | part :: parts => String c part :: parts
           end
  end.

End Strings.

(** ** Types declared outside the translated files *)

(** The types below are declared in packages that are not part of the
    translated sources (or are Go's [any]); the code only passes their values
    around, so they are kept abstract. *)
Class Types : Type := {
  (** Go's [any]: a decoded JSON value or a pointer to a value object. *)
  Any : Type;
  (** The nil interface value. *)
  nilAny : Any;
  (** [NodeSchema.Configs], the per-node-type configuration. *)
  Configs : Type;
  (** [map[string]*vo.TypeInfo], the type of [InputTypes] and [OutputTypes]. *)
  TypeInfos : Type;
  (** [*vo.FieldSource] apart from its [Ref]: literal value and extras. *)
  FieldExtra : Type;
  (** [schema.BranchSchema]. *)
  BranchSchema : Type;
  (** [entity.NodeType]. *)
  NodeType : Type;
  NodeType_eq_dec :: EqDecision NodeType;
  (** [vo.LLM], [vo.PluginAPIParam] and the other node-specific structs
      embedded by pointer in [vo.Inputs], which the compiler only copies. *)
  LLM : Type;
  PluginAPIParam : Type;
  OtherInputs : Type;
  (** [[]*vo.NamedTypeInfo]. *)
  NamedTypeInfos : Type;
  (** The set of reference edges computed by [canvasToRefs]. *)
  WorkflowReferences : Type;
}.

(** ** Canvas value objects (package [vo], canvas.go) *)

Module vo.
Section vo.
Context `{Types}.

(** [vo.Edge]. *)
Record Edge : Type := MkEdge {
  SourceNodeID : string;
  TargetNodeID : string;
  SourcePortID : string;
  TargetPortID : string;
}.

(** [vo.NodeMetaFE]. *)
Record NodeMetaFE : Type := MkNodeMetaFE {
  Title : string;
  Description : string;
  Icon : string;
  SubTitle : string;
  MainColor : string;
}.

(** [vo.VariableType] constants. *)
Definition VariableTypeString : string := "string".
Definition VariableTypeInteger : string := "integer".
Definition VariableTypeObject : string := "object".
Definition VariableTypeList : string := "list".

(** [vo.BlockInputValueType] and [vo.RefSourceType] constants. *)
Definition BlockInputValueTypeLiteral : string := "literal".
Definition BlockInputValueTypeRef : string := "ref".
Definition RefSourceTypeBlockOutput : string := "block-output".

(** [vo.Variable] (named [Var] here: [Variable] is reserved). *)
Record Var : Type := MkVar {
  Var_Name : string;
  Var_Type : string;
  Var_Required : bool;
  Var_AssistType : Z;
  Var_Schema : Any;
  Var_Description : string;
  Var_ReadOnly : bool;
  Var_DefaultValue : Any;
}.

(** [vo.BlockInputReference]. *)
Record BlockInputReference : Type := MkBlockInputReference {
  Ref_BlockID : string;
  Ref_Name : string;
  Ref_Path : list string;
  Ref_Source : string;
}.

(** [vo.BlockInputValue]. *)
Record BlockInputValue : Type := MkBlockInputValue {
  Value_Type : string;
  Value_Content : Any;
  Value_RawMeta : Any;
}.

(** [vo.BlockInput]. *)
Record BlockInput : Type := MkBlockInput {
  Input_Type : string;
  Input_AssistType : Z;
  Input_Schema : Any;
  Input_Value : option BlockInputValue;
}.

(** [vo.Param]. *)
Record Param : Type := MkParam {
  Param_Name : string;
  Param_Input : option BlockInput;
  Param_Left : option BlockInput;
  Param_Right : option BlockInput;
  Param_Variables : list BlockInput;
}.

(** [vo.Batch]. *)
Record Batch : Type := MkBatch {
  Batch_BatchSize : option BlockInput;
  Batch_ConcurrentSize : option BlockInput;
}.

(** [vo.NodeBatch]. *)
Record NodeBatch : Type := MkNodeBatch {
  BatchEnable : bool;
  BatchSize : Z;
  ConcurrentSize : Z;
  InputLists : list Param;
}.

(** [vo.SettingOnError]. *)
Record SettingOnError : Type := MkSettingOnError {
  DataOnErr : string;
  Switch : bool;
  ProcessType : option Z;
  RetryTimes : Z;
  TimeoutMs : Z;
  BackupLLMParam : option string;
}.

(** [vo.ErrorProcessType] constants. *)
Definition ErrorProcessTypeThrow : Z := 1.
Definition ErrorProcessTypeReturnDefaultData : Z := 2.
Definition ErrorProcessTypeExceptionBranch : Z := 3.

(** [vo.SubWorkflow]. *)
Record SubWorkflow : Type := MkSubWorkflow {
  WorkflowID : string;
  WorkflowVersion : string;
  TerminationType : Z;
  SubWorkflow_SpaceID : string;
}.

(** [vo.Inputs].  The embedded pointers that the compiler never reads are
    gathered in [Inputs_Other]. *)
Record Inputs : Type := MkInputs {
  InputParameters : list Param;
  Inputs_SettingOnError : option SettingOnError;
  NodeBatchInfo : option NodeBatch;
  LLMParam : Any;
  Inputs_LLM : option LLM;
  Inputs_SubWorkflow : option SubWorkflow;
  Inputs_PluginAPIParam : option PluginAPIParam;
  Inputs_Batch : option Batch;
  Inputs_Other : option OtherInputs;
}.

(** [vo.Data]. *)
Record Data : Type := MkData {
  Data_Meta : option NodeMetaFE;
  Outputs : list Any;
  Data_Inputs : option Inputs;
}.

(** [vo.Node].  The unexported [parent] pointer is not stored: the compiler
    reads it only right after [SetParent], where it is the enclosing node.
    The front-end [Meta] and [Version] fields are never read. *)
Inductive Node : Type := MkNode {
  ID : string;
  Type_ : string;
  Node_Data : option Data;
  Blocks : list Node;
  Node_Edges : list Edge;
}.

(** [vo.Canvas]. *)
Record Canvas : Type := MkCanvas {
  Nodes : list Node;
  Edges : list Edge;
}.

(** Modelled from the spec: the constants [vo.UserInputKey] and
    [vo.ConversationNameKey] are declared outside the translated files; the
    spec (and the chat-flow canvas templates of canvas.go) name the two
    well-known entry fields USER_INPUT and CONVERSATION_NAME. *)
Definition UserInputKey : string := "USER_INPUT".
Definition ConversationNameKey : string := "CONVERSATION_NAME".

(** [vo.GenerateNodeIDForBatchMode]. *)
Definition GenerateNodeIDForBatchMode (key : string) : string :=
  key ++ "_inner".

(** [vo.IsGeneratedNodeForBatchMode]. *)
Definition IsGeneratedNodeForBatchMode (key parentKey : string) : bool :=
  bool_decide (key = GenerateNodeIDForBatchMode parentKey).

(** [vo.DraftInfo] with its embedded [*vo.DraftMeta], which [Save] always
    sets and which is taken to be set on the drafts that the repository
    returns. *)
Record DraftInfo : Type := MkDraftInfo {
  Draft_Canvas : string;
  TestRunSuccess : bool;
  Modified : bool;
  InputParamsStr : string;
  OutputParamsStr : string;
  Draft_CommitID : string;
}.

(** [vo.VersionInfo] with its embedded [*vo.VersionMeta] and [vo.CanvasInfo]. *)
Record VersionInfo : Type := MkVersionInfo {
  Version : string;
  VersionDescription : string;
  VersionCreatorID : Z;
  Version_Canvas : string;
  Version_InputParamsStr : string;
  Version_OutputParamsStr : string;
  Version_CommitID : string;
}.

(** [vo.PublishPolicy]. *)
Record PublishPolicy : Type := MkPublishPolicy {
  Publish_ID : Z;
  Publish_Version : string;
  Publish_VersionDescription : string;
  Publish_CreatorID : Z;
  Publish_CommitID : string;
  Force : bool;
}.

(** The part of [vo.Meta] that [Publish] reads. *)
Record Meta : Type := MkMeta {
  LatestPublishedVersion : option string;
}.

(** [vo.CanvasInfo]. *)
Record CanvasInfo : Type := MkCanvasInfo {
  Canvas_ : string;
  Info_InputParamsStr : string;
  Info_OutputParamsStr : string;
}.

(** [workflowModel.Locator] and [vo.GetPolicy]. *)
Inductive Locator : Type := FromDraft | FromSpecificVersion | FromLatestVersion.

Record GetPolicy : Type := MkGetPolicy {
  Policy_ID : Z;
  QType : Locator;
  Policy_Version : string;
}.

(** [entity.Workflow] (entity/workflow.go): the value objects are embedded
    by pointer. *)
Record Workflow : Type := MkWorkflow {
  Workflow_ID : Z;
  Workflow_CommitID : string;
  Workflow_Meta : option Meta;
  Workflow_CanvasInfo : option CanvasInfo;
}.

End vo.
End vo.

(** A Go slice as [reflect.DeepEqual] sees it: the nil slice differs from an
    empty one; [range] and [len] do not tell them apart. *)
Inductive slice (A : Type) : Type :=
| nilSlice
| Slice (l : list A).
Arguments nilSlice {A}.
Arguments Slice {A} l.

Definition elems {A} (s : slice A) : list A :=
  match s with
  | nilSlice => []
  | Slice l => l
  end.

(** [reflect.DeepEqual] at a given type. *)
Class DeepEqual (A : Type) : Type := deepEqual : A -> A -> bool.

(** ** The compiled schema (package [schema], workflow_schema.go) *)

Module schema.
Section schema_types.
Context `{Types}.

(** [einoCompose.END], the terminal sentinel of the graph library. *)
Definition END : string := "end".

(** [schema.PortDefault] and [schema.PortBranchFormat] ("branch_%d"). *)
Definition PortDefault : string := "default".
Definition PortBranch (n : Z) : string := "branch_" ++ strconv.Itoa n.

(** [schema.Connection]. *)
Record Connection : Type := MkConnection {
  FromNode : string;
  ToNode : string;
  FromPort : option string;
}.

(** [Connection.ID]. *)
Definition ID (c : Connection) : string :=
  match FromPort c with
  | Some port => FromNode c ++ ":" ++ ToNode c ++ ":" ++ port
  | None => FromNode c ++ ":" ++ ToNode c
  end.

(** [vo.Reference], [vo.FieldSource] and [vo.FieldInfo]: an input source is
    a field path together with where its value comes from. *)
Record Reference : Type := MkReference {
  FromNodeKey : string;
  FromPath : list string;
}.

Record FieldSource : Type := MkFieldSource {
  Ref : option Reference;
  Source_Extra : FieldExtra;
}.

Record FieldInfo : Type := MkFieldInfo {
  Path : list string;
  Source : FieldSource;
}.

(** [schema.ExceptionConfig]. *)
Record ExceptionConfig : Type := MkExceptionConfig {
  TimeoutMS : Z;
  MaxRetry : Z;
  Exception_DataOnErr : string;
  Exception_ProcessType : option Z;
}.

(** [schema.StreamConfig]. *)
Record StreamConfig : Type := MkStreamConfig {
  CanGeneratesStream : bool;
  RequireStreamingInput : bool;
}.

(** [entity.WorkflowBasic] (entity/workflow.go). *)
Record WorkflowBasic : Type := MkWorkflowBasic {
  Basic_ID : Z;
  Basic_Version : string;
  Basic_SpaceID : Z;
  Basic_AppID : option Z;
  Basic_CommitID : string;
}.

(** The unexported fields of [WorkflowSchema] that [Init] fills in, guarded
    by [sync.Once].  The caches [nodeMap] and [compositeNodes] are functions
    of [Nodes] and [Hierarchy] and are not stored. *)
Record Runtime : Type := MkRuntime {
  once : bool;
  requireCheckPoint : bool;
  requireStreaming : bool;
  historyRounds : Z;
}.

(** [schema.NodeSchema] and [schema.WorkflowSchema]: a sub-workflow node
    embeds the compiled schema of the workflow it calls. *)
Inductive NodeSchema : Type := MkNodeSchema {
  Key : string;
  Type_ : NodeType;
  Name : string;
  NodeConfigs : Configs;
  InputTypes : TypeInfos;
  InputSources : slice FieldInfo;
  OutputTypes : TypeInfos;
  OutputSources : slice FieldInfo;
  ExceptionConfigs : option ExceptionConfig;
  StreamConfigs : option StreamConfig;
  SubWorkflowBasic : option WorkflowBasic;
  SubWorkflowSchema : option WorkflowSchema;
}
with WorkflowSchema : Type := MkWorkflowSchema {
  Nodes : list NodeSchema;
  Connections : list Connection;
  Hierarchy : gmap string string;
  Branches : gmap string BranchSchema;
  GeneratedNodes : list string;
  runtime : Runtime;
}.

(** The zero value [&schema.WorkflowSchema{}]. *)
Definition emptyRuntime : Runtime :=
  {| once := false; requireCheckPoint := false; requireStreaming := false;
     historyRounds := 0 |}.

Definition emptySchema : WorkflowSchema :=
  {| Nodes := []; Connections := []; Hierarchy := ∅; Branches := ∅;
     GeneratedNodes := []; runtime := emptyRuntime |}.

(** [reflect.DeepEqual] on pointers to structs of scalars compares the
    pointed-to values field by field. *)
#[global] Instance ExceptionConfig_eq_dec : EqDecision ExceptionConfig.
Proof. solve_decision. Defined.
#[global] Instance WorkflowBasic_eq_dec : EqDecision WorkflowBasic.
Proof. solve_decision. Defined.
#[global] Instance deepEqual_ExceptionConfig
  : DeepEqual (option ExceptionConfig) := fun a b => bool_decide (a = b).
#[global] Instance deepEqual_WorkflowBasic
  : DeepEqual (option WorkflowBasic) := fun a b => bool_decide (a = b).

End schema_types.
End schema.

(** ** Functions declared outside the translated files *)

(** [entity.EntryNodeKey] and [entity.ExitNodeKey]: canvas.go documents the
    fixed IDs of the entry and exit nodes as 100001 and 900001. *)
Module entity.
Definition EntryNodeKey : string := "100001".
Definition ExitNodeKey : string := "900001".
End entity.

(** The collaborators of the translated code: [reflect.DeepEqual] at the
    abstract types, the node-type table of package [entity], the node adaptor
    registry of package [nodes], [schema.BuildBranches], the JSON codec and
    the helpers of package [convert].  Each may fail or panic as its Go
    signature allows. *)
Class Env `{Types} : Type := {
  deepEqual_Configs :: DeepEqual Configs;
  deepEqual_TypeInfos :: DeepEqual TypeInfos;
  deepEqual_FieldInfos :: DeepEqual (slice schema.FieldInfo);
  (** [node.Configs.(ChatHistoryAware)]: when the assertion holds, the
      results of [ChatHistoryEnabled()] and [ChatHistoryRounds()]. *)
  asChatHistoryAware : Configs -> option (bool * Z);
  (** [node.Configs.(RequireCheckpoint)] and its [RequireCheckpoint()]. *)
  asRequireCheckpoint : Configs -> option bool;
  (** Node types, their canvas identifiers and default timeouts. *)
  NodeTypeEntry : NodeType;
  NodeTypeSelector : NodeType;
  NodeTypeBatch : NodeType;
  NodeTypeBreak : NodeType;
  NodeTypeContinue : NodeType;
  NodeTypeSubWorkflow : NodeType;
  NodeTypeComment : NodeType;
  IDStr : NodeType -> string;
  IDStrToNodeType : string -> NodeType;
  (** [entity.NodeMetaByNodeType(t)], reduced to its [DefaultTimeoutMS];
      [None] is the nil pointer returned for an unknown type. *)
  NodeMetaByNodeType : NodeType -> option Z;
  (** [vo.ParseVariable]. *)
  ParseVariable : Any -> outcome vo.Var;
  (** Storing a value in an [any]. *)
  anyOfVar : vo.Var -> Any;
  anyOfParam : vo.Param -> Any;
  anyOfString : string -> Any;
  anyOfReference : vo.BlockInputReference -> Any;
  (** [sonic.MarshalString] and [sonic.UnmarshalString] at the types used.
      [UnmarshalCanvas] returns the value left in the target together with
      the error, if any. *)
  MarshalAny : Any -> outcome string;
  UnmarshalVars : string -> outcome (list vo.Var);
  UnmarshalCanvas : string -> vo.Canvas * option error;
  MarshalCanvas : vo.Canvas -> outcome string;
  MarshalNamedTypeInfos : NamedTypeInfos -> outcome string;
  (** [nodes.GetNodeAdaptor(t)] and the adaptor's [Adapt]. *)
  GetNodeAdaptor :
    NodeType -> option (vo.Node -> vo.Canvas -> outcome schema.NodeSchema);
  (** [toSubWorkflowNodeSchema]: loads the referenced workflow from the
      repository and compiles its canvas. *)
  toSubWorkflowNodeSchema : vo.Node -> outcome schema.NodeSchema;
  (** [schema.BuildBranches]. *)
  BuildBranches :
    list schema.Connection -> outcome (gmap string BranchSchema);
  (** [extractInputsAndOutputsNamedInfoList] (it recovers from panics and
      only logs errors, so it always returns). *)
  extractInputsAndOutputsNamedInfoList :
    vo.Canvas -> NamedTypeInfos * NamedTypeInfos;
  (** [canvasToRefs]. *)
  canvasToRefs : Z -> string -> outcome WorkflowReferences;
}.

Module schema_ops.
Import schema.
Section schema_ops.
Context `{Env}.

(** *** [WorkflowSchema.IsEqual] *)

(** [map[string]bool] holding [true] at the ID of every connection. *)
Definition connectionsMap (cs : list Connection) : gmap string bool :=
  foldl (fun m connection => <[ID connection := true]> m) ∅ cs.

(** [map[vo.NodeKey]*NodeSchema]: a later node replaces an earlier one with
    the same key. *)
Definition nodeMapOf (ns : list NodeSchema) : gmap string NodeSchema :=
  foldl (fun m node => <[Key node := node]> m) ∅ ns.

(** [maps.EqualFunc]: same length, and every key of [m1] is in [m2] with
    values related by [eq]. *)
Definition maps_EqualFunc {V1 V2} (m1 : gmap string V1) (m2 : gmap string V2)
    (eq : V1 -> V2 -> bool) : bool :=
  bool_decide (size m1 = size m2) &&
  forallb (fun kv =>
             match m2 !! kv.1 with
             | Some v2 => eq kv.2 v2
             | None => false
             end) (map_to_list m1).

(** [maps.Equal]. *)
Definition maps_Equal (m1 m2 : gmap string bool) : bool :=
  maps_EqualFunc m1 m2 Bool.eqb.

(** The function literal passed to [maps.EqualFunc] in [IsEqual]. *)
Definition nodeEqual (node other : NodeSchema) : bool :=
  if negb (bool_decide (Name node = Name other)) then false
  else if negb (deepEqual (NodeConfigs node) (NodeConfigs other)) then false
  else if negb (deepEqual (InputTypes node) (InputTypes other)) then false
  else if negb (deepEqual (InputSources node) (InputSources other)) then false
  else if negb (deepEqual (OutputTypes node) (OutputTypes other)) then false
  else if negb (deepEqual (OutputSources node) (OutputSources other))
  then false
  else if negb (deepEqual (ExceptionConfigs node) (ExceptionConfigs other))
  then false
  else if negb (deepEqual (SubWorkflowBasic node) (SubWorkflowBasic other))
  then false
  else true.

Definition IsEqual (w other : WorkflowSchema) : bool :=
  let otherConnectionsMap := connectionsMap (Connections other) in
  let connectionsMap := connectionsMap (Connections w) in
  if negb (maps_Equal otherConnectionsMap connectionsMap) then false
  else
    let otherNodeMap := nodeMapOf (Nodes other) in
    let nodeMap := nodeMapOf (Nodes w) in
    if negb (maps_EqualFunc otherNodeMap nodeMap nodeEqual) then false
    else true.

(** [WorkflowSchema.NodeCount] ([int32] conversion left out). *)
Definition NodeCount (w : WorkflowSchema) : Z :=
  Z.of_nat (length (Nodes w)) - Z.of_nat (length (GeneratedNodes w)).

(** *** [WorkflowSchema.doRequireStreaming] *)

Definition isProducer (node : NodeSchema) : bool :=
  match StreamConfigs node with
  | Some sc => CanGeneratesStream sc
  | None => false
  end.

Definition isConsumer (node : NodeSchema) : bool :=
  match StreamConfigs node with
  | Some sc => RequireStreamingInput sc
  | None => false
  end.

(** The first loop: the key sets [producers] and [consumers]. *)
Definition producersOf (nodes : list NodeSchema) : gset string :=
  foldl (fun s node => if isProducer node then {[Key node]} ∪ s else s)
        ∅ nodes.

Definition consumersOf (nodes : list NodeSchema) : gset string :=
  foldl (fun s node => if isConsumer node then {[Key node]} ∪ s else s)
        ∅ nodes.

(** One input source adds the edge [FromNodeKey -> node.Key] when it is a
    reference with a non-empty node key. *)
Definition addSource (key : string) (adj : gmap string (gset string))
    (source : FieldInfo) : gmap string (gset string) :=
  match Ref (Source source) with
  | Some ref =>
      if bool_decide (FromNodeKey ref = "") then adj
      else <[FromNodeKey ref :=
               {[key]} ∪ default ∅ (adj !! FromNodeKey ref)]> adj
  | None => adj
  end.

(** The second loop: the data-flow graph [adj]. *)
Definition buildAdj (nodes : list NodeSchema) : gmap string (gset string) :=
  foldl (fun adj node =>
           foldl (addSource (Key node)) adj (elems (InputSources node)))
        ∅ nodes.

(** The inner [for neighbor := range adj[curr]] of the traversal. *)
Definition visitNeighbors (neighbors : list string)
    (st : gset string * list string) : gset string * list string :=
  foldl (fun st neighbor =>
           if bool_decide (neighbor ∈ st.1) then st
           else ({[neighbor]} ∪ st.1, (st.2 ++ [neighbor])%list))
        st neighbors.

(** The loop [for len(q) > 0]; [fuel] bounds the number of iterations and
    [None] means that it ran out. *)
Fixpoint traverse (fuel : nat) (adj : gmap string (gset string))
    (consumers : gset string) (q : list string) (visited : gset string)
  : option bool :=
  match fuel with
  | O => None
  | S fuel' =>
      match q with
      | [] => Some false
      | curr :: q' =>
          if bool_decide (curr ∈ consumers) then Some true
          else
            let st := visitNeighbors (elements (default ∅ (adj !! curr)))
                                     (visited, q') in
            traverse fuel' adj consumers st.2 st.1
      end
  end.

(** The loop [for p := range producers]. *)
Fixpoint traverseAll (fuel : nat) (adj : gmap string (gset string))
    (consumers : gset string) (ps : list string) : option bool :=
  match ps with
  | [] => Some false
  | p :: ps' =>
      match traverse fuel adj consumers [p] {[p]} with
      | Some true => Some true
      | Some false => traverseAll fuel adj consumers ps'
      | None => None
      end
  end.

(** Every vertex that can enter the queue. *)
Definition vertices (adj : gmap string (gset string)) : gset string :=
  map_fold (fun _ targets acc => targets ∪ acc) ∅ adj.

(** [doRequireStreaming].  Each vertex enters the queue at most once, so the
    traversal from one producer ends within [size (vertices adj) + 2]
    iterations ([doRequireStreaming_fuel] below); the value for exhausted
    fuel is never taken. *)
Definition doRequireStreamingOf (nodes : list NodeSchema) : bool :=
  let producers := producersOf nodes in
  let consumers := consumersOf nodes in
  if bool_decide (size producers = 0%nat) || bool_decide (size consumers = 0%nat)
  then false
  else
    let adj := buildAdj nodes in
    default false
      (traverseAll (size (vertices adj) + 2) adj consumers (elements producers)).

Definition doRequireStreaming (w : WorkflowSchema) : bool :=
  doRequireStreamingOf (Nodes w).

(** *** [WorkflowSchema.Init] and the getters of the derived flags *)

(** The body of [w.once.Do].  The loop over [w.Nodes] initialises the
    schema embedded in each sub-workflow node (a nil one panics), takes the
    maximum of the history rounds and leaves with [break] at the first node
    that requires a checkpoint; [loop] returns the nodes with their embedded
    schemas initialised, the history rounds and whether it left by [break].
    [doGetCompositeNodes] is called for a result that is dropped. *)
Fixpoint Init (w : WorkflowSchema) : outcome WorkflowSchema :=
  match w with
  | MkWorkflowSchema nodes conns hier branches generated rt =>
    if once rt then Ok w
    else
      let fix loop (nodes : list NodeSchema) (rounds : Z)
          : outcome (list NodeSchema * Z * bool) :=
        match nodes with
        | [] => Ok ([], rounds, false)
        | node :: rest =>
          match node with
          | MkNodeSchema key ty name cfg it isrc ot osrc ec sc sb sub =>
            '(node', hr, brk) ←
              (if decide (ty = NodeTypeSubWorkflow) then
                 match sub with
                 | None => Panic nilDereference
                 | Some s =>
                     s' ← Init s;
                     Ok (MkNodeSchema key ty name cfg it isrc ot osrc ec sc sb
                           (Some s'),
                         Z.max rounds (historyRounds (runtime s')),
                         requireCheckPoint (runtime s'))
                 end
               else Ok (node, rounds, false));
            if brk : bool then Ok (node' :: rest, hr, true)
            else
              let hr :=
                match asChatHistoryAware cfg with
                | Some (true, r) => Z.max hr r
                | _ => hr
                end in
              match asRequireCheckpoint cfg with
              | Some true => Ok (node' :: rest, hr, true)
              | _ =>
                  '(rest', hr', brk') ← loop rest hr;
                  Ok (node' :: rest', hr', brk')
              end
          end
        end in
      '(nodes', hr, brk) ← loop nodes 0;
      Ok (MkWorkflowSchema nodes' conns hier branches generated
            {| once := true;
               requireCheckPoint := requireCheckPoint rt || brk;
               requireStreaming := doRequireStreamingOf nodes';
               historyRounds := hr |})
  end.

(** [WorkflowSchema.RequireCheckpoint], [RequireStreaming], [HistoryRounds]. *)
Definition RequireCheckpoint (w : WorkflowSchema) : bool :=
  requireCheckPoint (runtime w).
Definition RequireStreaming (w : WorkflowSchema) : bool :=
  requireStreaming (runtime w).
Definition HistoryRounds (w : WorkflowSchema) : Z :=
  historyRounds (runtime w).

End schema_ops.
End schema_ops.

(** ** The canvas compiler (package [adaptor]) *)

Module adaptor.
Import vo.
Section adaptor.
Context `{Env}.

(** *** [PruneIsolatedNodes] *)

(** [m[k]++] on a [map[string]int]: a missing key counts as zero.  The
    counters are bounded by the number of edges, far below [2^63]. *)
Definition increment (k : string) (m : gmap string Z) : gmap string Z :=
  <[k := default 0 (m !! k) + 1]> m.

Definition isBreakOrContinue (node : Node) : bool :=
  bool_decide (Type_ node = IDStr NodeTypeContinue) ||
  bool_decide (Type_ node = IDStr NodeTypeBreak).

Section prune.
(** The first statement of the loop body, which prunes the blocks of a
    composite node in place; it is the recursive call. *)
Variable pruneBlocks : Node -> outcome Node.

(** The first loop: prune inside composites and initialise the counters. *)
Definition pruneInit (parentNode : option Node)
    (st : list Node * gmap string Z) (node : Node)
  : outcome (list Node * gmap string Z) :=
  node ← pruneBlocks node;
  let count := <[ID node := 0]> st.2 in
  let count :=
    if isBreakOrContinue node then
      match parentNode with
      | Some parent => increment (ID parent) count
      | None => count
      end
    else count in
  Ok ((st.1 ++ [node])%list, count).

(** The second loop: one more dependency for the target of each edge; an
    unknown target panics. *)
Definition pruneCount (count : gmap string Z) (edge : Edge)
  : outcome (gmap string Z) :=
  match count !! TargetNodeID edge with
  | Some _ => Ok (increment (TargetNodeID edge) count)
  | None =>
      Panic (errorf ("node id " ++ TargetNodeID edge ++
                     " not existed, but appears in the edge"))
  end.

Definition pruneLevel (nodes : list Node) (edges : list Edge)
    (parentNode : option Node) : outcome (list Node * list Edge) :=
  let nodeDependencyCount : gmap string Z :=
    match parentNode with
    | Some parent => {[ID parent := 0]}
    | None => ∅
    end in
  '(nodes, nodeDependencyCount) ←
    foldM (pruneInit parentNode) nodes ([], nodeDependencyCount);
  let nodeDependencyCount := <[entity.EntryNodeKey := 1]> nodeDependencyCount in
  let nodeDependencyCount := <[entity.ExitNodeKey := 1]> nodeDependencyCount in
  nodeDependencyCount ← foldM pruneCount edges nodeDependencyCount;
  let isolatedNodeIDs : gset string :=
    dom (filter (fun kv => kv.2 = 0) nodeDependencyCount) in
  let connectedNodes :=
    filter (fun node => ID node ∉ isolatedNodeIDs) nodes in
  let connectedEdges :=
    filter (fun edge => SourceNodeID edge ∉ isolatedNodeIDs) edges in
  Ok (connectedNodes, connectedEdges).

End prune.

Fixpoint pruneBlocks (node : Node) : outcome Node :=
  match node with
  | MkNode id ty data blocks edges =>
      if (0 <? length blocks)%nat && (0 <? length edges)%nat then
        '(blocks, edges) ← pruneLevel pruneBlocks blocks edges (Some node);
        Ok (MkNode id ty data blocks edges)
      else Ok node
  end.

Definition PruneIsolatedNodes (nodes : list Node) (edges : list Edge)
    (parentNode : option Node) : outcome (list Node * list Edge) :=
  pruneLevel pruneBlocks nodes edges parentNode.

(** *** [parseBatchMode] *)

(** The generated batch parent and its inner node, built once the output
    checks have passed.  [v] is the parsed output, [objV] its element type,
    [innerOutput] the fields of that element and [title] is
    [n.Data.Meta.Title]. *)
Definition batchOuterOutput (n : Node) (v objV : Var) : Param :=
  {| Param_Name := Var_Name v;
     Param_Input := Some
       {| Input_Type := VariableTypeList;
          Input_AssistType := 0;
          Input_Schema := anyOfVar objV;
          Input_Value := Some
            {| Value_Type := BlockInputValueTypeRef;
               Value_Content := anyOfReference
                 {| Ref_Source := RefSourceTypeBlockOutput;
                    Ref_BlockID := GenerateNodeIDForBatchMode (ID n);
                    Ref_Name := "";
                    Ref_Path := [] |};
               Value_RawMeta := nilAny |} |};
     Param_Left := None;
     Param_Right := None;
     Param_Variables := [] |}.

Definition integerLiteral (z : Z) : BlockInput :=
  {| Input_Type := VariableTypeInteger;
     Input_AssistType := 0;
     Input_Schema := nilAny;
     Input_Value := Some
       {| Value_Type := BlockInputValueTypeLiteral;
          Value_Content := anyOfString (strconv.Itoa z);
          Value_RawMeta := nilAny |} |}.

Definition titleOnly (title : string) : NodeMetaFE :=
  {| Title := title; Description := ""; Icon := ""; SubTitle := "";
     MainColor := "" |}.

Definition batchInner (n : Node) (inputs : Inputs) (title : string)
    (innerOutput : list Var) : Node :=
  {| ID := ID n ++ "_inner";
     Type_ := Type_ n;
     Node_Data := Some
       {| Data_Meta := Some (titleOnly (title ++ "_inner"));
          Data_Inputs := Some
            {| InputParameters := InputParameters inputs;
               LLMParam := LLMParam inputs;
               Inputs_LLM := Inputs_LLM inputs;
               Inputs_SettingOnError := Inputs_SettingOnError inputs;
               Inputs_SubWorkflow := Inputs_SubWorkflow inputs;
               Inputs_PluginAPIParam := Inputs_PluginAPIParam inputs;
               NodeBatchInfo := None;
               Inputs_Batch := None;
               Inputs_Other := None |};
          Outputs := map anyOfVar innerOutput |};
     Blocks := [];
     Node_Edges := [] |}.

Definition batchParent (n : Node) (batchInfo : NodeBatch) (title : string)
    (outerOutput : list Param) (innerN : Node) : Node :=
  {| ID := ID n;
     Type_ := IDStr NodeTypeBatch;
     Node_Data := Some
       {| Data_Meta := Some (titleOnly title);
          Data_Inputs := Some
            {| InputParameters := InputLists batchInfo;
               Inputs_Batch := Some
                 {| Batch_BatchSize :=
                      Some (integerLiteral (BatchSize batchInfo));
                    Batch_ConcurrentSize :=
                      Some (integerLiteral (ConcurrentSize batchInfo)) |};
               LLMParam := nilAny;
               Inputs_LLM := None;
               Inputs_SettingOnError := None;
               Inputs_SubWorkflow := None;
               Inputs_PluginAPIParam := None;
               NodeBatchInfo := None;
               Inputs_Other := None |};
          Outputs := map anyOfParam outerOutput |};
     Blocks := [innerN];
     Node_Edges :=
       [ {| SourceNodeID := ID n;
            TargetNodeID := ID innerN;
            SourcePortID := "batch-function-inline-output";
            TargetPortID := "" |};
         {| SourceNodeID := ID innerN;
            TargetNodeID := ID n;
            SourcePortID := "";
            TargetPortID := "batch-function-inline-input" |} ] |}.

(** [parseBatchMode] returns [(batchN, enabled, err)]; the first two are
    the pair below. *)
Definition parseBatchMode (n : Node) : outcome (option Node * bool) :=
  match Node_Data n with
  | None => Ok (None, false)
  | Some data =>
    match Data_Inputs data with
    | None => Ok (None, false)
    | Some inputs =>
      match NodeBatchInfo inputs with
      | None => Ok (None, false)
      | Some batchInfo =>
        if negb (BatchEnable batchInfo) then Ok (None, false)
        else
          match Outputs data with
          | [out] =>
              v ← ParseVariable out;
              if negb (bool_decide (Var_Type v = VariableTypeList)) then
                Err (errorf ("node batch mode output should be list, actual type: "
                             ++ Var_Type v))
              else
                match ParseVariable (Var_Schema v) with
                | Panic p => Panic p
                | Err e =>
                    Err (wrapf "node batch mode output schema should be variable, parse err"
                               e)
                | Ok objV =>
                    if negb (bool_decide (Var_Type objV = VariableTypeObject))
                    then
                      Err (errorf ("node batch mode output element should be object, actual type: "
                                   ++ Var_Type objV))
                    else
                      objFieldStr ← MarshalAny (Var_Schema objV);
                      match UnmarshalVars objFieldStr with
                      | Panic p => Panic p
                      | Err e =>
                          Err (wrapf "failed to unmarshal obj schema into variable list"
                                     e)
                      | Ok innerOutput =>
                          let outerOutput := [batchOuterOutput n v objV] in
                          meta ← deref (Data_Meta data);
                          let innerN :=
                            batchInner n inputs (Title meta) innerOutput in
                          let parentN :=
                            batchParent n batchInfo (Title meta) outerOutput
                                        innerN in
                          Ok (Some parentN, true)
                      end
                end
          | outputs =>
              Err (errorf ("node batch mode output should be one list, actual count: "
                           ++ strconv.Itoa (Z.of_nat (length outputs))))
          end
      end
    end
  end.

(** *** [EdgeToConnection] *)

Definition EdgeToConnection (e : Edge) : schema.Connection :=
  let toNode :=
    if (0 <? String.length (SourcePortID e))%nat &&
       (bool_decide (TargetPortID e = "loop-function-inline-input") ||
        bool_decide (TargetPortID e = "batch-function-inline-input"))
    then schema.END
    else TargetNodeID e in
  {| schema.FromNode := SourceNodeID e;
     schema.ToNode := toNode;
     schema.FromPort :=
       if (0 <? String.length (SourceNodeID e))%nat
       then Some (SourcePortID e) else None |}.

(** *** [normalizePorts] *)

(** The port given to a connection that leaves a selector node. *)
Definition selectorPort (port : string) : outcome string :=
  if bool_decide (port = "true") then Ok (schema.PortBranch 0)
  else if bool_decide (port = "false") then Ok schema.PortDefault
  else
    match Strings.CutPrefix "true_" port with
    | Some portN =>
        match strconv.Atoi portN with
        | Some n => Ok (schema.PortBranch n)
        | None => Err (errorf ("invalid port name: " ++ port))
        end
    | None => Ok ""
    end.

(** The body of the loop of [normalizePorts]. *)
Definition normalizePort (nodeMap : gmap string Node)
    (conn : schema.Connection) : outcome schema.Connection :=
  match schema.FromPort conn with
  | None => Ok conn
  | Some port =>
      if (String.length port =? 0)%nat then
        Ok {| schema.FromNode := schema.FromNode conn;
              schema.ToNode := schema.ToNode conn;
              schema.FromPort := None |}
      else if bool_decide (port = "loop-function-inline-output") ||
              bool_decide (port = "loop-output") ||
              bool_decide (port = "batch-function-inline-output") ||
              bool_decide (port = "batch-output") then
        Ok {| schema.FromNode := schema.FromNode conn;
              schema.ToNode := schema.ToNode conn;
              schema.FromPort := None |}
      else
        match nodeMap !! schema.FromNode conn with
        | None =>
            Err (errorf ("node " ++ schema.FromNode conn ++
                         " not found in node map"))
        | Some node =>
            newPort ←
              (if bool_decide (Type_ node = IDStr NodeTypeSelector)
               then selectorPort port
               else Ok port);
            Ok {| schema.FromNode := schema.FromNode conn;
                  schema.ToNode := schema.ToNode conn;
                  schema.FromPort := Some newPort |}
        end
  end.

Definition normalizePorts (connections : list schema.Connection)
    (nodeMap : gmap string Node) : outcome (list schema.Connection) :=
  mapM (normalizePort nodeMap) connections.

(** *** [toExceptionConfig] *)

Definition toExceptionConfig (n : Node) (nType : NodeType)
  : outcome (option schema.ExceptionConfig) :=
  let nodeMeta := NodeMetaByNodeType nType in
  data ← deref (Node_Data n);
  let settingOnErr :=
    match Data_Inputs data with
    | Some inputs => Inputs_SettingOnError inputs
    | None => None
    end in
  defaultTimeoutMS ← deref nodeMeta;
  match settingOnErr with
  | None =>
      if defaultTimeoutMS =? 0 then Ok None
      else Ok (Some {| schema.TimeoutMS := defaultTimeoutMS;
                       schema.MaxRetry := 0;
                       schema.Exception_DataOnErr := "";
                       schema.Exception_ProcessType := None |})
  | Some setting =>
      if bool_decide (ProcessType setting =
                      Some ErrorProcessTypeReturnDefaultData) &&
         (String.length (DataOnErr setting) =? 0)%nat
      then Err (errorf "error process type is returning default value, but dataOnError is not specified")
      else
        let processType :=
          match ProcessType setting with
          | None =>
              if (0 <? String.length (DataOnErr setting))%nat && Switch setting
              then Some ErrorProcessTypeReturnDefaultData
              else None
          | Some t => Some t
          end in
        Ok (Some {| schema.TimeoutMS := TimeoutMs setting;
                    schema.MaxRetry := RetryTimes setting;
                    schema.Exception_DataOnErr := DataOnErr setting;
                    schema.Exception_ProcessType := processType |})
  end.

(** *** [NodeToNodeSchema] *)

(** [ns.ExceptionConfigs = ec]. *)
Definition setExceptionConfigs (ns : schema.NodeSchema)
    (ec : option schema.ExceptionConfig) : schema.NodeSchema :=
  {| schema.Key := schema.Key ns;
     schema.Type_ := schema.Type_ ns;
     schema.Name := schema.Name ns;
     schema.NodeConfigs := schema.NodeConfigs ns;
     schema.InputTypes := schema.InputTypes ns;
     schema.InputSources := schema.InputSources ns;
     schema.OutputTypes := schema.OutputTypes ns;
     schema.OutputSources := schema.OutputSources ns;
     schema.ExceptionConfigs := ec;
     schema.StreamConfigs := schema.StreamConfigs ns;
     schema.SubWorkflowBasic := schema.SubWorkflowBasic ns;
     schema.SubWorkflowSchema := schema.SubWorkflowSchema ns |}.

(** The result is [(nodes, hierarchy)]; a nil hierarchy is the empty map.
    The hierarchy returned for a child is dropped by the caller. *)
Fixpoint NodeToNodeSchema (n : Node) (c : Canvas)
  : outcome (list schema.NodeSchema * gmap string string) :=
  match n with
  | MkNode id ty data blocks edges =>
    let et := IDStrToNodeType ty in
    if decide (et = NodeTypeSubWorkflow) then
      ns ← toSubWorkflowNodeSchema n;
      ec ← toExceptionConfig n (schema.Type_ ns);
      Ok ([setExceptionConfigs ns ec], ∅)
    else
      match GetNodeAdaptor et with
      | Some na =>
          ns ← na n c;
          ec ← toExceptionConfig n (schema.Type_ ns);
          let ns := setExceptionConfigs ns ec in
          if (0 <? length blocks)%nat then
            '(allNS, hierarchy) ←
              (fix children (l : list Node)
                   (acc : list schema.NodeSchema * gmap string string)
                 : outcome (list schema.NodeSchema * gmap string string) :=
                 match l with
                 | [] => Ok acc
                 | childN :: l' =>
                     '(childNS, _) ← NodeToNodeSchema childN c;
                     children l' ((acc.1 ++ childNS)%list,
                                  <[ID childN := id]> acc.2)
                 end) blocks ([], ∅);
            Ok ((allNS ++ [ns])%list, hierarchy)
          else Ok ([ns], ∅)
      | None =>
          if decide (et = NodeTypeComment) then Ok ([], ∅)
          else Err (errorf ("unsupported block type: " ++ ty))
      end
  end.

(** *** [CanvasToWorkflowSchema] *)

(** The compiler's state while it walks the canvas: the schema under
    construction and [nodeMap]. *)
Definition appendConnections (sc : schema.WorkflowSchema)
    (cs : list schema.Connection) : schema.WorkflowSchema :=
  {| schema.Nodes := schema.Nodes sc;
     schema.Connections := (schema.Connections sc ++ cs)%list;
     schema.Hierarchy := schema.Hierarchy sc;
     schema.Branches := schema.Branches sc;
     schema.GeneratedNodes := schema.GeneratedNodes sc;
     schema.runtime := schema.runtime sc |}.

Definition appendGeneratedNode (sc : schema.WorkflowSchema) (key : string)
  : schema.WorkflowSchema :=
  {| schema.Nodes := schema.Nodes sc;
     schema.Connections := schema.Connections sc;
     schema.Hierarchy := schema.Hierarchy sc;
     schema.Branches := schema.Branches sc;
     schema.GeneratedNodes := (schema.GeneratedNodes sc ++ [key])%list;
     schema.runtime := schema.runtime sc |}.

(** [sc.Nodes = append(sc.Nodes, nsList...)] followed by the merge of
    [hierarchy] into [sc.Hierarchy], whose entries it overrides. *)
Definition appendNodes (sc : schema.WorkflowSchema)
    (nsList : list schema.NodeSchema) (hierarchy : gmap string string)
  : schema.WorkflowSchema :=
  {| schema.Nodes := (schema.Nodes sc ++ nsList)%list;
     schema.Connections := schema.Connections sc;
     schema.Hierarchy :=
       if (0 <? size hierarchy)%nat then hierarchy ∪ schema.Hierarchy sc
       else schema.Hierarchy sc;
     schema.Branches := schema.Branches sc;
     schema.GeneratedNodes := schema.GeneratedNodes sc;
     schema.runtime := schema.runtime sc |}.

Definition setConnections (sc : schema.WorkflowSchema)
    (cs : list schema.Connection) : schema.WorkflowSchema :=
  {| schema.Nodes := schema.Nodes sc;
     schema.Connections := cs;
     schema.Hierarchy := schema.Hierarchy sc;
     schema.Branches := schema.Branches sc;
     schema.GeneratedNodes := schema.GeneratedNodes sc;
     schema.runtime := schema.runtime sc |}.

Definition setBranches (sc : schema.WorkflowSchema)
    (branches : gmap string BranchSchema) : schema.WorkflowSchema :=
  {| schema.Nodes := schema.Nodes sc;
     schema.Connections := schema.Connections sc;
     schema.Hierarchy := schema.Hierarchy sc;
     schema.Branches := branches;
     schema.GeneratedNodes := schema.GeneratedNodes sc;
     schema.runtime := schema.runtime sc |}.

(** The loop over [node.Blocks]: [node] is the parent set by [SetParent]. *)
Definition compileBlock (node : Node)
    (st : schema.WorkflowSchema * gmap string Node) (subNode : Node)
  : outcome (schema.WorkflowSchema * gmap string Node) :=
  let nodeMap := <[ID subNode := subNode]> st.2 in
  if (0 <? length (Blocks subNode))%nat then
    Err (errorf "nested inner-workflow is not supported")
  else if (0 <? length (Node_Edges subNode))%nat then
    Err (errorf "nodes in inner-workflow should not have edges info")
  else if bool_decide (Type_ subNode = IDStr NodeTypeBreak) ||
          bool_decide (Type_ subNode = IDStr NodeTypeContinue) then
    Ok (appendConnections st.1
          [ {| schema.FromNode := ID subNode;
               schema.ToNode := ID node;
               schema.FromPort := None |} ],
        nodeMap)
  else Ok (st.1, nodeMap).

(** The body of the loop over [s.Nodes]. *)
Definition compileNode (s : Canvas)
    (st : schema.WorkflowSchema * gmap string Node) (node : Node)
  : outcome (schema.WorkflowSchema * gmap string Node) :=
  let nodeMap := <[ID node := node]> st.2 in
  '(sc, nodeMap) ← foldM (compileBlock node) (Blocks node) (st.1, nodeMap);
  '(newNode, enableBatch) ← parseBatchMode node;
  '(node, sc) ←
    (if enableBatch : bool then
       node ← deref newNode;
       match Blocks node with
       | inner :: _ => Ok (node, appendGeneratedNode sc (ID inner))
       | [] => Panic indexOutOfRange
       end
     else Ok (node, sc));
  '(nsList, hierarchy) ← NodeToNodeSchema node s;
  let sc := appendNodes sc nsList hierarchy in
  let sc := appendConnections sc (map EdgeToConnection (Node_Edges node)) in
  Ok (sc, nodeMap).

(** The function body, in which a panic is still a panic. *)
Definition compile (s : Canvas) : outcome schema.WorkflowSchema :=
  '(connectedNodes, connectedEdges) ←
    PruneIsolatedNodes (Nodes s) (Edges s) None;
  let s := {| Nodes := connectedNodes; Edges := connectedEdges |} in
  '(sc, nodeMap) ← foldM (compileNode s) (Nodes s) (schema.emptySchema, ∅);
  let sc := appendConnections sc (map EdgeToConnection (Edges s)) in
  newConnections ← normalizePorts (schema.Connections sc) nodeMap;
  let sc := setConnections sc newConnections in
  branches ← BuildBranches newConnections;
  let sc := setBranches sc branches in
  schema_ops.Init sc.

(** [CanvasToWorkflowSchema]: the body under the deferred [recover].  The
    callers look at the error only, so an error outcome stands for every
    return with a non-nil [err]. *)
Definition CanvasToWorkflowSchema (s : Canvas)
  : outcome schema.WorkflowSchema :=
  recover (compile s).

End adaptor.
End adaptor.

(** ** The domain service (package [service], service_impl.go) *)

Module service.
Import vo.
Section service.
Context `{Env}.

(** The queries of [workflow.Repository] that the translated methods call.
    [GenID] stands for the one identifier a call of [Save] draws. *)
Record Repository : Type := MkRepository {
  GetMeta : Z -> outcome Meta;
  DraftV2 : Z -> string -> outcome DraftInfo;
  GetEntity : GetPolicy -> outcome Workflow;
  GenID : outcome Z;
}.

(** The receiver [*impl]. *)
Record impl : Type := MkImpl { repo : Repository }.

(** The repository update a method ends with: [Save] returns the result of
    [repo.CreateOrUpdateDraft] and [Publish] that of [repo.CreateVersion].
    A method that yields [Ok u] performs [u] as its last step and returns
    the error of that step, if any; before it, nothing is written. *)
Inductive RepoUpdate : Type :=
| CreateOrUpdateDraft (id : Z) (draft : DraftInfo)
| CreateVersion (id : Z) (info : VersionInfo) (refs : WorkflowReferences).

(** [errors.Is]: the target is the error or is wrapped in it. *)
Fixpoint errorsIs (e target : error) : bool :=
  bool_decide (e = target) ||
  match e with
  | wrapf _ e' => errorsIs e' target
  | WrapError _ e' => errorsIs e' target
  | _ => false
  end.

(** *** [calculateTestRunSuccess] *)

Definition calculateTestRunSuccess (i : impl) (c : Canvas) (wid : Z)
  : outcome bool :=
  match adaptor.CanvasToWorkflowSchema c with
  | Panic p => Panic p
  | Err _ => Ok false
  | Ok sc =>
      match DraftV2 (repo i) wid "" with
      | Panic p => Panic p
      | Err err =>
          if errorsIs err ErrRecordNotFound then Ok false else Err err
      | Ok existedDraft =>
          (* the error of this UnmarshalString is overwritten unread *)
          let existedDraftCanvas :=
            (UnmarshalCanvas (Draft_Canvas existedDraft)).1 in
          match adaptor.CanvasToWorkflowSchema existedDraftCanvas with
          | Panic p => Panic p
          | Ok existedSc =>
              if negb (schema_ops.IsEqual existedSc sc) then Ok false
              else Ok (TestRunSuccess existedDraft)
          | Err _ => Ok false
          end
      end
  end.

(** *** [Save] *)

Definition Save (i : impl) (id : Z) (schema : string) : outcome RepoUpdate :=
  match UnmarshalCanvas schema with
  | (_, Some err) =>
      Err (WrapError "ErrSerializationDeserializationFail" err)
  | (draft, None) =>
      let '(inputs, outputs) := extractInputsAndOutputsNamedInfoList draft in
      match MarshalNamedTypeInfos inputs with
      | Panic p => Panic p
      | Err err => Err (WrapError "ErrSerializationDeserializationFail" err)
      | Ok inputParams =>
          match MarshalNamedTypeInfos outputs with
          | Panic p => Panic p
          | Err err =>
              Err (WrapError "ErrSerializationDeserializationFail" err)
          | Ok outputParams =>
              testRunSuccess ← calculateTestRunSuccess i draft id;
              match GenID (repo i) with
              | Panic p => Panic p
              | Err err => Err (WrapError "ErrIDGenError" err)
              | Ok commitID =>
                  Ok (CreateOrUpdateDraft id
                        {| Draft_Canvas := schema;
                           TestRunSuccess := testRunSuccess;
                           Modified := true;
                           InputParamsStr := inputParams;
                           OutputParamsStr := outputParams;
                           Draft_CommitID := strconv.Itoa commitID |})
              end
          end
      end
  end.

(** *** Version strings *)

(** Modelled from the spec: [parseVersion] and [isIncremental] are called by
    [Publish] but declared outside the translated files.  The spec: "Version
    strings are vA.B.C with non-negative integers.  Ordering is
    lexicographic on (A, B, C).  Increment rule: new must be strictly greater
    than latest_published_version." *)
Record version : Type := MkVersion { vA : N; vB : N; vC : N }.

Definition parseNumber (s : string) : option N :=
  option_map N.of_uint (NilZero.uint_of_string s).

Definition parseVersion (versionString : string) : outcome version :=
  match Strings.CutPrefix "v" versionString with
  | None => Err (errorf ("invalid version string: " ++ versionString))
  | Some rest =>
      match Strings.Split rest "." with
      | [a; b; c] =>
          match parseNumber a, parseNumber b, parseNumber c with
          | Some a, Some b, Some c => Ok {| vA := a; vB := b; vC := c |}
          | _, _, _ =>
              Err (errorf ("invalid version string: " ++ versionString))
          end
      | _ => Err (errorf ("invalid version string: " ++ versionString))
      end
  end.

(** Modelled from the spec: [next] is strictly greater than [prev] in the
    lexicographic order on (A, B, C). *)
Definition isIncremental (prev next : version) : bool :=
  ((vA prev <? vA next) ||
   ((vA prev =? vA next) &&
    ((vB prev <? vB next) ||
     ((vB prev =? vB next) && (vC prev <? vC next)))))%N.

(** *** [Publish] *)

(** The error of the version check. *)
Definition notIncrementalErr (latest current : string) : error :=
  errorf ("the version number is not self-incrementing, old version " ++
          latest ++ ", current version is " ++ current).

(** The error of the test-run gate. *)
Definition testRunRequiredErr (id : Z) : error :=
  errorf ("workflow " ++ strconv.Itoa id ++
          "'s current draft needs to pass the test run before publishing").

Definition Publish (i : impl) (policy : PublishPolicy) : outcome RepoUpdate :=
  meta ← GetMeta (repo i) (Publish_ID policy);
  _ ← match LatestPublishedVersion meta with
      | Some latest =>
          latestVersion ← parseVersion latest;
          currentVersion ← parseVersion (Publish_Version policy);
          if negb (isIncremental latestVersion currentVersion)
          then Err (notIncrementalErr latest (Publish_Version policy))
          else Ok tt
      | None => Ok tt
      end;
  draft ← DraftV2 (repo i) (Publish_ID policy) (Publish_CommitID policy);
  if negb (Force policy) && negb (TestRunSuccess draft) then
    Err (testRunRequiredErr (Publish_ID policy))
  else
    wfRefs ← canvasToRefs (Publish_ID policy) (Draft_Canvas draft);
    let versionInfo :=
      {| Version := Publish_Version policy;
         VersionDescription := Publish_VersionDescription policy;
         VersionCreatorID := Publish_CreatorID policy;
         Version_Canvas := Draft_Canvas draft;
         Version_InputParamsStr := InputParamsStr draft;
         Version_OutputParamsStr := OutputParamsStr draft;
         Version_CommitID := Draft_CommitID draft |} in
    Ok (CreateVersion (Publish_ID policy) versionInfo wfRefs).

(** *** [adaptToChatFlow] *)

(** The variable appended for [USER_INPUT]: the fields that the struct
    literal leaves out have their zero values. *)
Definition userInputVar : Var :=
  {| Var_Name := UserInputKey;
     Var_Type := VariableTypeString;
     Var_Required := false;
     Var_AssistType := 0;
     Var_Schema := nilAny;
     Var_Description := "";
     Var_ReadOnly := false;
     Var_DefaultValue := nilAny |}.

(** The variable appended for [CONVERSATION_NAME]. *)
Definition conversationNameVar : Var :=
  {| Var_Name := ConversationNameKey;
     Var_Type := VariableTypeString;
     Var_Required := false;
     Var_AssistType := 0;
     Var_Schema := nilAny;
     Var_Description := "";
     Var_ReadOnly := false;
     Var_DefaultValue := anyOfString "Default" |}.

(** The names declared by the outputs of the entry node ([vMap]). *)
Definition outputNames (outputs : list Any) : outcome (gset string) :=
  foldM (fun vMap o => v ← ParseVariable o; Ok ({[Var_Name v]} ∪ vMap))
        outputs ∅.

(** The two conditional [append]s. *)
Definition chatFlowOutputs (vMap : gset string) (outputs : list Any)
  : list Any :=
  let outputs :=
    if bool_decide (UserInputKey ∈ vMap) then outputs
    else (outputs ++ [anyOfVar userInputVar])%list in
  if bool_decide (ConversationNameKey ∈ vMap) then outputs
  else (outputs ++ [anyOfVar conversationNameVar])%list.

Definition isEntry (node : Node) : bool :=
  bool_decide (Type_ node = IDStr NodeTypeEntry).

(** [startNode.Data.Outputs = outputs] where [startNode] points to the
    first entry node of the canvas: the canvas sees the assignment. *)
Definition setOutputs (node : Node) (data : Data) (outputs : list Any) : Node :=
  {| ID := ID node;
     Type_ := Type_ node;
     Node_Data := Some {| Data_Meta := Data_Meta data;
                          Outputs := outputs;
                          Data_Inputs := Data_Inputs data |};
     Blocks := Blocks node;
     Node_Edges := Node_Edges node |}.

Fixpoint adaptStartNode (nodes : list Node)
  : outcome (list Node) :=
  match nodes with
  | [] => Err (errorf "can not find start node")
  | node :: rest =>
      if isEntry node then
        data ← deref (Node_Data node);
        vMap ← outputNames (Outputs data);
        Ok (setOutputs node data (chatFlowOutputs vMap (Outputs data))
              :: rest)
      else
        rest ← adaptStartNode rest;
        Ok (node :: rest)
  end.

Definition adaptToChatFlow (i : impl) (wID : Z) : outcome RepoUpdate :=
  wfEntity ← GetEntity (repo i)
    {| Policy_ID := wID; QType := FromDraft; Policy_Version := "" |};
  info ← deref (Workflow_CanvasInfo wfEntity);
  match UnmarshalCanvas (Canvas_ info) with
  | (_, Some err) => Err err
  | (canvas, None) =>
      nodes ← adaptStartNode (Nodes canvas);
      canvasStr ← MarshalCanvas {| Nodes := nodes; Edges := Edges canvas |};
      Save i wID canvasStr
  end.

End service.
End service.

(** ** A sample instance of the collaborators

    One concrete choice of the abstract types and functions, on which the
    definitions above can be run: dynamically typed values are a small tree
    type, node configurations are strings, every registered adaptor builds a
    schema keyed by the node ID, and the JSON codec knows a handful of named
    canvases. *)

Module Sample.
Import vo.

(** Dynamically typed values: the nil interface, a string, a variable
    (possibly with a schema and a default), a list of variables, a
    parameter (by name) and a block reference (by block ID). *)
Inductive dyn : Type :=
| DNil
| DString (s : string)
| DVar (name type_ : string) (required : bool) (schema default : dyn)
| DVars (fields : list dyn)
| DParam (name : string)
| DRef (blockID : string).

#[global] Instance sampleTypes : Types := {|
  Any := dyn;
  nilAny := DNil;
  Configs := string;
  TypeInfos := list string;
  FieldExtra := unit;
  BranchSchema := list string;
  NodeType := string;
  LLM := unit;
  PluginAPIParam := unit;
  OtherInputs := unit;
  NamedTypeInfos := list string;
  WorkflowReferences := list Z;
|}.

#[global] Instance slice_eq_dec {A} `{EqDecision A} : EqDecision (slice A).
Proof. solve_decision. Defined.
#[global] Instance Reference_eq_dec : EqDecision schema.Reference.
Proof. solve_decision. Defined.
#[global] Instance FieldSource_eq_dec : EqDecision schema.FieldSource.
Proof. solve_decision. Defined.
#[global] Instance FieldInfo_eq_dec : EqDecision schema.FieldInfo.
Proof. solve_decision. Defined.

Definition parseVariable (a : dyn) : outcome Var :=
  match a with
  | DVar name type_ required sch default =>
      Ok {| Var_Name := name; Var_Type := type_; Var_Required := required;
            Var_AssistType := 0; Var_Schema := sch; Var_Description := "";
            Var_ReadOnly := false; Var_DefaultValue := default |}
  | _ => Err (errorf "json: cannot unmarshal into Go value of type vo.Variable")
  end.

Definition dynOfVar (v : Var) : dyn :=
  DVar (Var_Name v) (Var_Type v) (Var_Required v) (Var_Schema v)
       (Var_DefaultValue v).

(** The canvas identifiers of the node types (as in the canvas templates of
    canvas.go for entry "1" and exit "2"). *)
Definition nodeTypeTable : list (string * string) :=
  [("Entry", "1"); ("Exit", "2"); ("LLM", "3"); ("Selector", "8");
   ("SubWorkflow", "9"); ("Break", "19"); ("Loop", "21"); ("Batch", "28");
   ("Continue", "29"); ("Comment", "31")].

Definition idStr (t : string) : string :=
  match find (fun p => bool_decide (p.1 = t)) nodeTypeTable with
  | Some p => p.2
  | None => ""
  end.

Definition idStrToNodeType (s : string) : string :=
  match find (fun p => bool_decide (p.2 = s)) nodeTypeTable with
  | Some p => p.1
  | None => ""
  end.

(** The input sources of a node: one per input parameter that refers to a
    block output. *)
Definition sourceOfParam (p : Param) : list schema.FieldInfo :=
  match Param_Input p with
  | Some input =>
      match Input_Value input with
      | Some value =>
          match Value_Content value with
          | DRef blockID =>
              [ {| schema.Path := [Param_Name p];
                   schema.Source :=
                     {| schema.Ref := Some {| schema.FromNodeKey := blockID;
                                              schema.FromPath := [] |};
                        schema.Source_Extra := tt |} |} ]
          | _ => []
          end
      | None => []
      end
  | None => []
  end.

(** A registered adaptor: the schema is keyed by the node ID and named by
    the node title; a node without data panics on the nil dereference. *)
Definition adapt (et : string) (n : Node) (_ : Canvas)
  : outcome schema.NodeSchema :=
  data ← deref (Node_Data n);
  Ok {| schema.Key := ID n;
        schema.Type_ := et;
        schema.Name := match Data_Meta data with
                       | Some meta => Title meta
                       | None => ""
                       end;
        schema.NodeConfigs := et;
        schema.InputTypes := [];
        schema.InputSources :=
          match Data_Inputs data with
          | Some inputs =>
              Slice (concat (map sourceOfParam (InputParameters inputs)))
          | None => nilSlice
          end;
        schema.OutputTypes := [];
        schema.OutputSources := nilSlice;
        schema.ExceptionConfigs := None;
        schema.StreamConfigs := None;
        schema.SubWorkflowBasic := None;
        schema.SubWorkflowSchema := None |}.

Definition getNodeAdaptor (et : string)
  : option (Node -> Canvas -> outcome schema.NodeSchema) :=
  if bool_decide (et ∈ ["Entry"; "Exit"; "LLM"; "Selector"; "Break"; "Loop";
                        "Batch"; "Continue"])
  then Some (adapt et) else None.

(** Modelled from the spec: [schema.BuildBranches] is declared outside the
    translated files.  The spec: "build BranchSchema per
    selector/intent-detector/QA node from outgoing port set".  Here a branch
    schema is the list of the ports that leave the node; connections without
    a port contribute nothing. *)
Definition buildBranches (connections : list schema.Connection)
  : outcome (gmap string (list string)) :=
  Ok (foldl (fun m conn =>
               match schema.FromPort conn with
               | Some port =>
                   <[schema.FromNode conn :=
                       (default [] (m !! schema.FromNode conn) ++ [port])%list]> m
               | None => m
               end) ∅ connections).

(** Named canvases known to the sample codec. *)
Definition entryNode (outputs : list dyn) : Node :=
  {| ID := entity.EntryNodeKey; Type_ := "1";
     Node_Data := Some {| Data_Meta := Some (adaptor.titleOnly "Start");
                          Outputs := outputs; Data_Inputs := None |};
     Blocks := []; Node_Edges := [] |}.

Definition exitNode : Node :=
  {| ID := entity.ExitNodeKey; Type_ := "2";
     Node_Data := Some {| Data_Meta := Some (adaptor.titleOnly "End");
                          Outputs := []; Data_Inputs := None |};
     Blocks := []; Node_Edges := [] |}.

Definition plainEdge (source target : string) : Edge :=
  {| SourceNodeID := source; TargetNodeID := target;
     SourcePortID := ""; TargetPortID := "" |}.

Definition stringVar (name : string) : dyn :=
  DVar name "string" false DNil DNil.

(** Entry and exit joined by one edge. *)
Definition minimalCanvas : Canvas :=
  {| Nodes := [entryNode [stringVar "input"]; exitNode];
     Edges := [plainEdge entity.EntryNodeKey entity.ExitNodeKey] |}.

(** The same canvas once the chat-flow fields are appended to the entry. *)
Definition chatCanvas : Canvas :=
  {| Nodes := [entryNode [stringVar "input";
                          DVar "USER_INPUT" "string" false DNil DNil;
                          DVar "CONVERSATION_NAME" "string" false DNil
                               (DString "Default")];
               exitNode];
     Edges := [plainEdge entity.EntryNodeKey entity.ExitNodeKey] |}.

(** A canvas without nodes whose single edge joins the entry and exit keys. *)
Definition danglingCanvas : Canvas :=
  {| Nodes := [];
     Edges := [plainEdge entity.EntryNodeKey entity.ExitNodeKey] |}.

(** A canvas whose edge points to a node that does not exist. *)
Definition brokenCanvas : Canvas :=
  {| Nodes := [entryNode []; exitNode];
     Edges := [plainEdge entity.EntryNodeKey "missing"] |}.

Definition canvasTable : list (string * Canvas) :=
  [("minimal", minimalCanvas); ("chat", chatCanvas);
   ("dangling", danglingCanvas); ("broken", brokenCanvas)].

Definition emptyCanvas : Canvas := {| Nodes := []; Edges := [] |}.

Definition unmarshalCanvas (s : string) : Canvas * option error :=
  match find (fun p => bool_decide (p.1 = s)) canvasTable with
  | Some p => (p.2, None)
  | None => (emptyCanvas, Some (errorf "invalid canvas json"))
  end.

(** The sample codec prints the canvas by the number of outputs of its
    first node. *)
Definition marshalCanvas (c : Canvas) : outcome string :=
  match Nodes c with
  | node :: _ =>
      match Node_Data node with
      | Some data =>
          if (length (Outputs data) =? 3)%nat then Ok "chat" else Ok "minimal"
      | None => Ok "minimal"
      end
  | [] => Ok "dangling"
  end.

#[global] Instance sampleEnv : @Env sampleTypes := {|
  deepEqual_Configs := (fun a b => bool_decide (a = b)) : DeepEqual string;
  deepEqual_TypeInfos :=
    (fun a b => bool_decide (a = b)) : DeepEqual (list string);
  deepEqual_FieldInfos :=
    (fun a b => bool_decide (a = b)) : DeepEqual (slice schema.FieldInfo);
  asChatHistoryAware := fun _ => None;
  asRequireCheckpoint := fun _ => None;
  NodeTypeEntry := "Entry";
  NodeTypeSelector := "Selector";
  NodeTypeBatch := "Batch";
  NodeTypeBreak := "Break";
  NodeTypeContinue := "Continue";
  NodeTypeSubWorkflow := "SubWorkflow";
  NodeTypeComment := "Comment";
  IDStr := idStr;
  IDStrToNodeType := idStrToNodeType;
  NodeMetaByNodeType := fun _ => Some 0;
  ParseVariable := parseVariable;
  anyOfVar := dynOfVar;
  anyOfParam := fun p => DParam (Param_Name p);
  anyOfString := DString;
  anyOfReference := fun r => DRef (Ref_BlockID r);
  MarshalAny := fun a =>
    match a with
    | DNil => Ok "null"
    | DVars [] => Ok "[]"
    | DString s => Ok s
    | _ => Err (errorf "unsupported value")
    end;
  UnmarshalVars := fun s =>
    if bool_decide (s = "null") || bool_decide (s = "[]") then Ok []
    else Err (errorf "invalid json");
  UnmarshalCanvas := unmarshalCanvas;
  MarshalCanvas := marshalCanvas;
  MarshalNamedTypeInfos := fun _ => Ok "[]";
  GetNodeAdaptor := getNodeAdaptor;
  toSubWorkflowNodeSchema := fun _ => Err (errorf "workflow not found");
  BuildBranches := buildBranches;
  extractInputsAndOutputsNamedInfoList := fun _ => ([], []);
  canvasToRefs := fun _ _ => Ok [];
|}.

(** *** Canvases with a batch-mode node *)

(** A parameter that refers to the output of a block. *)
Definition refParam (name blockID : string) : Param :=
  {| Param_Name := name;
     Param_Input := Some
       {| Input_Type := "string"; Input_AssistType := 0; Input_Schema := DNil;
          Input_Value := Some {| Value_Type := BlockInputValueTypeRef;
                                 Value_Content := DRef blockID;
                                 Value_RawMeta := DNil |} |};
     Param_Left := None; Param_Right := None; Param_Variables := [] |}.

(** One output: a list named [results] of objects without fields. *)
Definition listOfObjects : dyn :=
  DVar "results" "list" false (DVar "item" "object" false DNil DNil) DNil.

Definition batchInfoOf (enable : bool) : NodeBatch :=
  {| BatchEnable := enable; BatchSize := 10; ConcurrentSize := 2;
     InputLists := [refParam "items" entity.EntryNodeKey] |}.

Definition batchInputs : Inputs :=
  {| InputParameters := [refParam "query" entity.EntryNodeKey];
     Inputs_SettingOnError := None;
     NodeBatchInfo := Some (batchInfoOf true);
     LLMParam := DNil;
     Inputs_LLM := None;
     Inputs_SubWorkflow := None;
     Inputs_PluginAPIParam := None;
     Inputs_Batch := None;
     Inputs_Other := None |}.

Definition batchData (outputs : list dyn) : Data :=
  {| Data_Meta := Some (adaptor.titleOnly "Summarise");
     Outputs := outputs;
     Data_Inputs := Some batchInputs |}.

(** One output: a list of objects whose fields are no list of variables. *)
Definition listOfOpaque : dyn :=
  DVar "results" "list" false (DVar "item" "object" false (DString "fields") DNil)
       DNil.

(** The same data without the node metadata. *)
Definition bareData : Data :=
  {| Data_Meta := None;
     Outputs := [listOfObjects];
     Data_Inputs := Some batchInputs |}.

(** An LLM node in batch mode. *)
Definition batchNode (outputs : list dyn) : Node :=
  {| ID := "llm"; Type_ := "3"; Node_Data := Some (batchData outputs);
     Blocks := []; Node_Edges := [] |}.

(** Entry, the batch-mode node and exit in a row. *)
Definition batchCanvas (outputs : list dyn) : Canvas :=
  {| Nodes := [entryNode [stringVar "input"]; batchNode outputs; exitNode];
     Edges := [plainEdge entity.EntryNodeKey "llm";
               plainEdge "llm" entity.ExitNodeKey] |}.

Definition bareCanvas : Canvas :=
  {| Nodes := [entryNode [stringVar "input"];
               {| ID := "llm"; Type_ := "3"; Node_Data := Some bareData;
                  Blocks := []; Node_Edges := [] |};
               exitNode];
     Edges := [plainEdge entity.EntryNodeKey "llm";
               plainEdge "llm" entity.ExitNodeKey] |}.

(** A loop whose body is the batch-mode node. *)
Definition loopNode (outputs : list dyn) : Node :=
  {| ID := "loop"; Type_ := "21";
     Node_Data := Some {| Data_Meta := Some (adaptor.titleOnly "Loop");
                          Outputs := []; Data_Inputs := None |};
     Blocks := [batchNode outputs];
     Node_Edges :=
       [ {| SourceNodeID := "loop"; TargetNodeID := "llm";
            SourcePortID := "loop-function-inline-output";
            TargetPortID := "" |};
         {| SourceNodeID := "llm"; TargetNodeID := "loop";
            SourcePortID := "output";
            TargetPortID := "loop-function-inline-input" |} ] |}.

Definition nestedCanvas (outputs : list dyn) : Canvas :=
  {| Nodes := [entryNode [stringVar "input"]; loopNode outputs; exitNode];
     Edges := [plainEdge entity.EntryNodeKey "loop";
               plainEdge "loop" entity.ExitNodeKey] |}.

(** A selector with three branches, each ending the workflow. *)
Definition selectorNode : Node :=
  {| ID := "if"; Type_ := "8";
     Node_Data := Some {| Data_Meta := Some (adaptor.titleOnly "If");
                          Outputs := []; Data_Inputs := None |};
     Blocks := []; Node_Edges := [] |}.

Definition portEdge (source port target : string) : Edge :=
  {| SourceNodeID := source; TargetNodeID := target;
     SourcePortID := port; TargetPortID := "" |}.

Definition selectorCanvas (second : string) : Canvas :=
  {| Nodes := [entryNode [stringVar "input"]; selectorNode; exitNode];
     Edges := [plainEdge entity.EntryNodeKey "if";
               portEdge "if" "true" entity.ExitNodeKey;
               portEdge "if" second entity.ExitNodeKey;
               portEdge "if" "false" entity.ExitNodeKey] |}.

(** Entry and exit, and a second edge whose source is no node at all. *)
Definition ghostCanvas : Canvas :=
  {| Nodes := [entryNode [stringVar "input"]; exitNode];
     Edges := [plainEdge entity.EntryNodeKey entity.ExitNodeKey;
               plainEdge "ghost" entity.ExitNodeKey] |}.

(** What the statements about the samples read of the result of a
    compilation: the keys and types of the nodes, the connections and the
    generated nodes. *)
Definition summary (r : outcome schema.WorkflowSchema)
  : option (list (string * string) * list schema.Connection * list string) :=
  match r with
  | Ok sc => Some (map (fun ns => (schema.Key ns, schema.Type_ ns))
                       (schema.Nodes sc),
                   schema.Connections sc, schema.GeneratedNodes sc)
  | _ => None
  end.

(** *** Schemas with streaming nodes *)

Definition streamNode (key : string) (producer consumer : bool)
    (from : list string) : schema.NodeSchema :=
  {| schema.Key := key;
     schema.Type_ := "LLM";
     schema.Name := key;
     schema.NodeConfigs := "LLM";
     schema.InputTypes := [];
     schema.InputSources :=
       Slice (map (fun k =>
                     {| schema.Path := ["in"];
                        schema.Source :=
                          {| schema.Ref := Some {| schema.FromNodeKey := k;
                                                   schema.FromPath := [] |};
                             schema.Source_Extra := tt |} |}) from);
     schema.OutputTypes := [];
     schema.OutputSources := nilSlice;
     schema.ExceptionConfigs := None;
     schema.StreamConfigs :=
       Some {| schema.CanGeneratesStream := producer;
               schema.RequireStreamingInput := consumer |};
     schema.SubWorkflowBasic := None;
     schema.SubWorkflowSchema := None |}.

Definition schemaOf (nodes : list schema.NodeSchema) : schema.WorkflowSchema :=
  {| schema.Nodes := nodes;
     schema.Connections := [];
     schema.Hierarchy := ∅;
     schema.Branches := ∅;
     schema.GeneratedNodes := [];
     schema.runtime := schema.runtime schema.emptySchema |}.

(** A producer, a plain node fed by it and a consumer fed by that one. *)
Definition streamingSchema : schema.WorkflowSchema :=
  schemaOf [streamNode "model" true false [];
            streamNode "text" false false ["model"];
            streamNode "answer" false true ["text"]].

(** *** Repositories *)

Definition draftOf (canvas : string) (tested : bool) : DraftInfo :=
  {| Draft_Canvas := canvas; TestRunSuccess := tested; Modified := false;
     InputParamsStr := "[]"; OutputParamsStr := "[]";
     Draft_CommitID := "41" |}.

(** Workflow 7 has the draft [canvas] with the test-run flag [tested] and
    the latest published version [latest]; there is no other workflow. *)
Definition repoOf (canvas : string) (tested : bool) (latest : option string)
  : service.Repository :=
  {| service.GetMeta := fun id =>
       if bool_decide (id = 7) then Ok {| LatestPublishedVersion := latest |}
       else Err ErrRecordNotFound;
     service.DraftV2 := fun id _ =>
       if bool_decide (id = 7) then Ok (draftOf canvas tested)
       else Err ErrRecordNotFound;
     service.GetEntity := fun policy =>
       if bool_decide (Policy_ID policy = 7)
       then Ok {| Workflow_ID := 7; Workflow_CommitID := "41";
                  Workflow_Meta := Some {| LatestPublishedVersion := latest |};
                  Workflow_CanvasInfo :=
                    Some {| Canvas_ := canvas;
                            Info_InputParamsStr := "[]";
                            Info_OutputParamsStr := "[]" |} |}
       else Err ErrRecordNotFound;
     service.GenID := Ok 42 |}.

Definition implOf (canvas : string) (tested : bool) (latest : option string)
  : service.impl :=
  {| service.repo := repoOf canvas tested latest |}.

Definition publishOf (version : string) (force : bool) : PublishPolicy :=
  {| Publish_ID := 7; Publish_Version := version;
     Publish_VersionDescription := ""; Publish_CreatorID := 1;
     Publish_CommitID := "41"; Force := force |}.

End Sample.

(** ** Vocabulary of the statements *)

Module Spec.
Import schema.
Section spec.
Context `{Env}.

(** Two nodes agree on the fields that [IsEqual] compares. *)
Definition agree (node other : NodeSchema) : Prop :=
  Name node = Name other ∧
  deepEqual (NodeConfigs node) (NodeConfigs other) = true ∧
  deepEqual (InputTypes node) (InputTypes other) = true ∧
  deepEqual (InputSources node) (InputSources other) = true ∧
  deepEqual (OutputTypes node) (OutputTypes other) = true ∧
  deepEqual (OutputSources node) (OutputSources other) = true ∧
  deepEqual (ExceptionConfigs node) (ExceptionConfigs other) = true ∧
  deepEqual (SubWorkflowBasic node) (SubWorkflowBasic other) = true.

(** The entries of two node maps at one key agree: both absent, or both
    present and agreeing. *)
Definition agreeAt (a b : option NodeSchema) : Prop :=
  match a, b with
  | Some node, Some other => agree node other
  | None, None => True
  | _, _ => False
  end.

(** The set of connection IDs of a schema, as a predicate. *)
Definition hasConnectionID (w : WorkflowSchema) (id : string) : Prop :=
  ∃ c, c ∈ Connections w ∧ ID c = id.

(** Execution equivalence of the spec. *)
Definition executionEquivalent (w other : WorkflowSchema) : Prop :=
  (∀ id, hasConnectionID w id ↔ hasConnectionID other id) ∧
  (∀ key, agreeAt (schema_ops.nodeMapOf (Nodes other) !! key)
                  (schema_ops.nodeMapOf (Nodes w) !! key)).

(** What [IsEqual] reads of a node and of a schema; two schemas with the
    same reading differ in the other fields only (node type, stream
    configs, embedded sub-workflow schema, hierarchy, branches, generated
    nodes, derived flags, and the ports of connections as far as they do not
    show in the IDs). *)
Definition comparedFields (n : NodeSchema) :=
  (Key n, Name n, NodeConfigs n, InputTypes n, InputSources n,
   OutputTypes n, OutputSources n, ExceptionConfigs n, SubWorkflowBasic n).

Definition sameCompared (w w' : WorkflowSchema) : Prop :=
  map ID (Connections w) = map ID (Connections w') ∧
  map comparedFields (Nodes w) = map comparedFields (Nodes w').

(** The data-flow graph on node keys: an edge runs from the node that an
    input source refers to (by a non-empty key) to the node that holds the
    input source. *)
Definition dataFlow (nodes : list NodeSchema) (a b : string) : Prop :=
  a ≠ "" ∧
  ∃ node source ref,
    node ∈ nodes ∧ Key node = b ∧ source ∈ elems (InputSources node) ∧
    Ref (Source source) = Some ref ∧ FromNodeKey ref = a.

(** The edge relation stored in the adjacency map of the traversal. *)
Definition adjEdge (adj : gmap string (gset string)) (a b : string) : Prop :=
  b ∈ default ∅ (adj !! a).

(** What holds of the queue and of the visited set at the head of the loop
    of the traversal that starts at [p]: queued vertices are visited,
    visited vertices are reachable from [p], and a visited vertex that has
    left the queue is no consumer and has all its successors visited. *)
Definition traverseInv (adj : gmap string (gset string))
    (consumers : gset string) (p : string)
    (q : list string) (visited : gset string) : Prop :=
  (∀ x, x ∈ q → x ∈ visited) ∧
  (∀ x, x ∈ visited → rtc (adjEdge adj) p x) ∧
  (∀ x, x ∈ visited → x ∉ q →
        (x ∉ consumers) ∧ (∀ y, adjEdge adj x y → y ∈ visited)) ∧
  (p ∈ visited).

(** Some consumer is reachable from some producer; the path may be empty. *)
Definition streamPath (w : WorkflowSchema) : Prop :=
  ∃ p c, p ∈ Nodes w ∧ schema_ops.isProducer p = true ∧
         c ∈ Nodes w ∧ schema_ops.isConsumer c = true ∧
         rtc (dataFlow (Nodes w)) (Key p) (Key c).

(** An optionally signed, non-empty string of decimal digits. *)
Definition isDigit (c : ascii) : bool :=
  (48 <=? nat_of_ascii c)%nat && (nat_of_ascii c <=? 57)%nat.

Fixpoint allDigits (s : string) : bool :=
  match s with
  | EmptyString => true
  | String c s' => isDigit c && allDigits s'
  end.

Definition isDecimal (s : string) : bool :=
  let digits :=
    match s with
    | String "+" r => r
    | String "-" r => r
    | _ => s
    end in
  negb (bool_decide (digits = "")) && allDigits digits.

(** The source ports of loop and batch nodes that the engine does not see. *)
Definition inlineOutputPorts : list string :=
  ["loop-function-inline-output"; "loop-output";
   "batch-function-inline-output"; "batch-output"].

(** The target ports of the inline inputs of loop and batch nodes. *)
Definition inlineInputPorts : list string :=
  ["loop-function-inline-input"; "batch-function-inline-input"].

(** The port of a normalised connection that leaves a selector node with
    the port [port]. *)
Definition selectorRule (port : string) (port' : option string) : Prop :=
  (port = "true" → port' = Some "branch_0") ∧
  (port = "false" → port' = Some "default") ∧
  (∀ n, strconv.minInt ≤ n ≤ strconv.maxInt →
        port = "true_" ++ strconv.Itoa n →
        port' = Some ("branch_" ++ strconv.Itoa n)) ∧
  (∀ suffix n, port = "true_" ++ suffix → strconv.Atoi suffix = Some n →
               port' = Some ("branch_" ++ strconv.Itoa n)).

(** [conn'] is [conn] with its port normalised; the end points are kept. *)
Definition portRule (nodeMap : gmap string vo.Node)
    (conn conn' : Connection) : Prop :=
  FromNode conn' = FromNode conn ∧
  ToNode conn' = ToNode conn ∧
  match FromPort conn with
  | None => FromPort conn' = None
  | Some port =>
      if bool_decide (port = "") then FromPort conn' = None
      else if bool_decide (port ∈ inlineOutputPorts) then FromPort conn' = None
      else ∃ node, nodeMap !! FromNode conn = Some node ∧
             if bool_decide (vo.Type_ node = IDStr NodeTypeSelector)
             then selectorRule port (FromPort conn')
             else FromPort conn' = Some port
  end.

(** The single output of a batch-mode node is a list of objects: [v] is
    the parsed output and [objV] its element type. *)
Definition oneListOfObject (data : vo.Data) (v objV : vo.Var) : Prop :=
  ∃ out, vo.Outputs data = [out] ∧
         ParseVariable out = Ok v ∧
         vo.Var_Type v = vo.VariableTypeList ∧
         ParseVariable (vo.Var_Schema v) = Ok objV ∧
         vo.Var_Type objV = vo.VariableTypeObject.

(** The fields of the element type decode as a list of variables. *)
Definition objectFields (objV : vo.Var) (innerOutput : list vo.Var) : Prop :=
  ∃ objFieldStr, MarshalAny (vo.Var_Schema objV) = Ok objFieldStr ∧
                 UnmarshalVars objFieldStr = Ok innerOutput.

(** Batch mode is switched on for the node. *)
Definition batchEnabled (n : vo.Node) (data : vo.Data) (inputs : vo.Inputs)
    (batchInfo : vo.NodeBatch) : Prop :=
  vo.Node_Data n = Some data ∧
  vo.Data_Inputs data = Some inputs ∧
  vo.NodeBatchInfo inputs = Some batchInfo ∧
  vo.BatchEnable batchInfo = true.

(** The two edges that batch-mode expansion puts between the parent [id]
    and its inner node. *)
Definition batchEdges (id : string) : list vo.Edge :=
  [ {| vo.SourceNodeID := id;
       vo.TargetNodeID := id ++ "_inner";
       vo.SourcePortID := "batch-function-inline-output";
       vo.TargetPortID := "" |};
    {| vo.SourceNodeID := id ++ "_inner";
       vo.TargetNodeID := id;
       vo.SourcePortID := "";
       vo.TargetPortID := "batch-function-inline-input" |} ].

(** The input parameters and the batch settings that a canvas node holds. *)
Definition inputParametersOf (n : vo.Node) : list vo.Param :=
  match vo.Node_Data n with
  | Some data =>
      match vo.Data_Inputs data with
      | Some inputs => vo.InputParameters inputs
      | None => []
      end
  | None => []
  end.

Definition batchSettingsOf (n : vo.Node) : option vo.Batch :=
  match vo.Node_Data n with
  | Some data =>
      match vo.Data_Inputs data with
      | Some inputs => vo.Inputs_Batch inputs
      | None => None
      end
  | None => None
  end.

(** A canvas node that is not composite. *)
Definition flat (n : vo.Node) : Prop :=
  vo.Blocks n = [] ∨ vo.Node_Edges n = [].

(** The target of the edge is neither a top-level node nor the entry or
    exit key. *)
Definition danglingTarget (s : vo.Canvas) (e : vo.Edge) : Prop :=
  (vo.TargetNodeID e ∉ map vo.ID (vo.Nodes s)) ∧
  vo.TargetNodeID e ≠ entity.EntryNodeKey ∧
  vo.TargetNodeID e ≠ entity.ExitNodeKey.

(** Where the connection built from a canvas-level edge may point. *)
Definition knownTarget (s : vo.Canvas) (c : Connection) : Prop :=
  ToNode c = END ∨
  ToNode c = entity.EntryNodeKey ∨
  ToNode c = entity.ExitNodeKey ∨
  ToNode c ∈ map vo.ID (vo.Nodes s).

(** The connection [c] is built from the edge [e]. *)
Definition connectionOf (e : vo.Edge) (c : Connection) : Prop :=
  FromNode c = vo.SourceNodeID e ∧
  (ToNode c = END ∨ ToNode c = vo.TargetNodeID e).

(** A connection without a port. *)
Definition plainConnection (from to : string) : Connection :=
  {| FromNode := from; ToNode := to; FromPort := None |}.

(** The canvas that [Save] and [calculateTestRunSuccess] compile for a
    stored canvas string: the value that [UnmarshalString] leaves behind. *)
Definition decoded (canvas : string) : vo.Canvas := (UnmarshalCanvas canvas).1.

(** The workflow has a previous draft. *)
Definition previousDraft (i : service.impl) (id : Z) (prev : vo.DraftInfo)
  : Prop :=
  service.DraftV2 (service.repo i) id "" = Ok prev.

(** The previous draft compiles to [existedSc]. *)
Definition previousCompiles (i : service.impl) (id : Z)
    (prev : vo.DraftInfo) (existedSc : WorkflowSchema) : Prop :=
  previousDraft i id prev ∧
  adaptor.CanvasToWorkflowSchema (decoded (vo.Draft_Canvas prev)) =
    Ok existedSc.

(** The new canvas compiles, a previous draft exists and compiles, and the
    two schemas are execution-equivalent. *)
Definition inherits (i : service.impl) (id : Z) (canvas : string)
    (prev : vo.DraftInfo) : Prop :=
  ∃ sc existedSc,
    adaptor.CanvasToWorkflowSchema (decoded canvas) = Ok sc ∧
    previousCompiles i id prev existedSc ∧
    executionEquivalent existedSc sc.

(** The previous draft compiles, and the new canvas has no compiled schema
    that is execution-equivalent to its schema. *)
Definition schemasDiffer (i : service.impl) (id : Z) (canvas : string)
  : Prop :=
  ∃ prev existedSc,
    previousCompiles i id prev existedSc ∧
    ∀ sc, adaptor.CanvasToWorkflowSchema (decoded canvas) = Ok sc →
          ¬ executionEquivalent existedSc sc.

(** Strictly greater in the lexicographic order on (A, B, C). *)
Definition versionLt (old new : service.version) : Prop :=
  (service.vA old < service.vA new ∨
   (service.vA old = service.vA new ∧
    (service.vB old < service.vB new ∨
     (service.vB old = service.vB new ∧
      service.vC old < service.vC new))))%N.

(** The steps of [Publish] after the version check all pass: the draft is
    found, it passed its test run or the publication is forced, and the
    references of its canvas are computed. *)
Definition publishable (i : service.impl) (policy : vo.PublishPolicy) : Prop :=
  ∃ draft refs,
    service.DraftV2 (service.repo i) (vo.Publish_ID policy)
                    (vo.Publish_CommitID policy) = Ok draft ∧
    (vo.Force policy = true ∨ vo.TestRunSuccess draft = true) ∧
    canvasToRefs (vo.Publish_ID policy) (vo.Draft_Canvas draft) = Ok refs.

(** [Publish] ends by creating the version. *)
Definition publishes (i : service.impl) (policy : vo.PublishPolicy) : Prop :=
  ∃ info refs,
    service.Publish i policy =
    Ok (service.CreateVersion (vo.Publish_ID policy) info refs).

(** The node schema with [sub] as its embedded sub-workflow schema. *)
Definition withSubWorkflowSchema (ns : NodeSchema) (sub : WorkflowSchema)
  : NodeSchema :=
  match ns with
  | MkNodeSchema key ty name cfg it isrc ot osrc ec sc sb _ =>
      MkNodeSchema key ty name cfg it isrc ot osrc ec sc sb (Some sub)
  end.

(** [ns'] is [ns] as the final [Init] of the compiler leaves it: the node
    itself, or a sub-workflow node whose embedded schema [Init] has
    initialised. *)
Definition initialisedFrom (ns ns' : NodeSchema) : Prop :=
  ns' = ns ∨
  (Type_ ns = NodeTypeSubWorkflow ∧
   ∃ sub sub', SubWorkflowSchema ns = Some sub ∧
               schema_ops.Init sub = Ok sub' ∧
               ns' = withSubWorkflowSchema ns sub').

(** Some output of the list declares a variable of the given name. *)
Definition declares (outputs : list Any) (name : string) : Prop :=
  ∃ o v, o ∈ outputs ∧ ParseVariable o = Ok v ∧ vo.Var_Name v = name.

End spec.
End Spec.

(** ** Further operations of the schema and of the service *)

Module schema_more.
Import schema.
Section schema_more.
Context `{Env}.

(** *** Queries on the hierarchy

    The first argument is a [map[vo.NodeKey]vo.NodeKey] from a child to its
    parent; [None] is the nil map. *)

(** [IsInSameWorkflow]. *)
Definition IsInSameWorkflow (n : option (gmap string string))
    (nodeKey otherNodeKey : string) : bool :=
  match n with
  | None => true
  | Some n =>
      match n !! nodeKey, n !! otherNodeKey with
      | None, None => true
      | Some myParents, Some theirParents =>
          bool_decide (myParents = theirParents)
      | _, _ => false
      end
  end.

(** [IsBelowOneLevel]. *)
Definition IsBelowOneLevel (n : option (gmap string string))
    (nodeKey otherNodeKey : string) : bool :=
  match n with
  | None => false
  | Some n =>
      let myParentExists := bool_decide (is_Some (n !! nodeKey)) in
      let theirParentExists := bool_decide (is_Some (n !! otherNodeKey)) in
      myParentExists && negb theirParentExists
  end.

(** [IsParentOf]. *)
Definition IsParentOf (n : option (gmap string string))
    (nodeKey otherNodeKey : string) : bool :=
  match n with
  | None => false
  | Some n =>
      match n !! otherNodeKey with
      | Some theirParent => bool_decide (theirParent = nodeKey)
      | None => false
      end
  end.

(** *** [WorkflowSchema.GetNode]

    The unexported [nodeMap] is nil until [Init] has run; from then on it
    maps the key of every node of [Nodes] to the node. *)
Definition GetNode (w : WorkflowSchema) (key : string) : option NodeSchema :=
  if once (runtime w) then schema_ops.nodeMapOf (Nodes w) !! key else None.

(** *** The loop of [Init], on its own

    [initSub] is the first statement of the loop body, for a sub-workflow
    node; [initNodes] is the loop.  They return the node as the loop leaves
    it, the history rounds so far and whether the loop ends here. *)
Definition initSub (node : NodeSchema) (rounds : Z)
  : outcome (NodeSchema * Z * bool) :=
  match node with
  | MkNodeSchema key ty name cfg it isrc ot osrc ec sc sb sub =>
      if decide (ty = NodeTypeSubWorkflow) then
        match sub with
        | None => Panic nilDereference
        | Some s =>
            s' ← schema_ops.Init s;
            Ok (MkNodeSchema key ty name cfg it isrc ot osrc ec sc sb
                  (Some s'),
                Z.max rounds (historyRounds (runtime s')),
                requireCheckPoint (runtime s'))
        end
      else Ok (node, rounds, false)
  end.

Fixpoint initNodes (nodes : list NodeSchema) (rounds : Z)
  : outcome (list NodeSchema * Z * bool) :=
  match nodes with
  | [] => Ok ([], rounds, false)
  | node :: rest =>
      '(node', hr, brk) ← initSub node rounds;
      if brk : bool then Ok (node' :: rest, hr, true)
      else
        let hr :=
          match asChatHistoryAware (NodeConfigs node) with
          | Some (true, r) => Z.max hr r
          | _ => hr
          end in
        match asRequireCheckpoint (NodeConfigs node) with
        | Some true => Ok (node' :: rest, hr, true)
        | _ =>
            '(rest', hr', brk') ← initNodes rest hr;
            Ok (node' :: rest', hr', brk')
        end
  end.

End schema_more.
End schema_more.

Module adaptor_more.
Import vo.
Section adaptor_more.
Context `{Env}.

(** The loop of [NodeToNodeSchema] over the blocks of a composite node, on
    its own: [id] is the ID of the composite node and [acc] holds the
    schemas and the hierarchy gathered so far. *)
Fixpoint childSchemas (c : Canvas) (id : string) (l : list Node)
    (acc : list schema.NodeSchema * gmap string string)
  : outcome (list schema.NodeSchema * gmap string string) :=
  match l with
  | [] => Ok acc
  | childN :: l' =>
      '(childNS, _) ← adaptor.NodeToNodeSchema childN c;
      childSchemas c id l' ((acc.1 ++ childNS)%list, <[ID childN := id]> acc.2)
  end.

End adaptor_more.
End adaptor_more.

Module service_more.
Import vo.
Section service_more.
Context `{Env}.

(** *** [getAllSubWorkflowIdentities] *)

(** [workflowIdentity]. *)
Record workflowIdentity : Type := MkWorkflowIdentity {
  Identity_ID : string;
  Identity_Version : string;
}.

(** The body of the loop of [collectSubWorkFlowEntities] for one node:
    [workflowEntities] is threaded through; the selectors
    [n.Data.Inputs.WorkflowID] and [n.Data.Inputs.WorkflowVersion] go
    through the embedded [*SubWorkflow]. *)
Fixpoint collectNode (n : Node) (workflowEntities : list workflowIdentity)
  : outcome (list workflowIdentity) :=
  match n with
  | MkNode id ty data blocks edges =>
      workflowEntities ←
        (if bool_decide (ty = IDStr NodeTypeSubWorkflow) then
           data ← deref data;
           inputs ← deref (Data_Inputs data);
           sub ← deref (Inputs_SubWorkflow inputs);
           Ok (workflowEntities ++
               [ {| Identity_ID := WorkflowID sub;
                    Identity_Version := WorkflowVersion sub |} ])%list
         else Ok workflowEntities);
      if (0 <? length blocks)%nat then
        foldM (fun acc b => collectNode b acc) blocks workflowEntities
      else Ok workflowEntities
  end.

Definition collectSubWorkFlowEntities (nodes : list Node)
    (workflowEntities : list workflowIdentity)
  : outcome (list workflowIdentity) :=
  foldM (fun acc n => collectNode n acc) nodes workflowEntities.

Definition getAllSubWorkflowIdentities (c : Canvas)
  : outcome (list workflowIdentity) :=
  collectSubWorkFlowEntities (Nodes c) [].

End service_more.
End service_more.

(** ** Vocabulary of the further statements *)

Module SpecMore.
Section spec_more.
Context `{Env}.

(** No colon occurs in the string. *)
Fixpoint colonFree (s : string) : bool :=
  match s with
  | EmptyString => true
  | String c s' => negb (Ascii.eqb c ":") && colonFree s'
  end.

(** Some edge of the list points to [id]. *)
Definition targeted (edges : list vo.Edge) (id : string) : Prop :=
  ∃ e, e ∈ edges ∧ vo.TargetNodeID e = id.

(** The number of edges that point to [id]. *)
Definition hits (edges : list vo.Edge) (id : string) : Z :=
  Z.of_nat (length (filter (fun e => vo.TargetNodeID e = id) edges)).

(** What pruning keeps at the top level: the entry and exit keys and the
    targets of edges. *)
Definition connected (edges : list vo.Edge) (id : string) : Prop :=
  id = entity.EntryNodeKey ∨ id = entity.ExitNodeKey ∨ targeted edges id.

(** The source of the edge is no node that pruning drops. *)
Definition liveSource (nodes : list vo.Node) (edges : list vo.Edge)
    (e : vo.Edge) : Prop :=
  vo.SourceNodeID e ∈ map vo.ID nodes → connected edges (vo.SourceNodeID e).

(** Every target is a node of the level or the entry or exit key. *)
Definition targetsKnown (nodes : list vo.Node) (edges : list vo.Edge) : Prop :=
  ∀ e, e ∈ edges →
       vo.TargetNodeID e ∈ map vo.ID nodes ∨
       vo.TargetNodeID e = entity.EntryNodeKey ∨
       vo.TargetNodeID e = entity.ExitNodeKey.

(** The node makes the loop of [Init] stop with the checkpoint flag set. *)
Definition requiresCheckpoint (node : schema.NodeSchema) : Prop :=
  (schema.Type_ node = NodeTypeSubWorkflow ∧
   ∃ s, schema.SubWorkflowSchema node = Some s ∧
        schema.requireCheckPoint (schema.runtime s) = true) ∨
  asRequireCheckpoint (schema.NodeConfigs node) = Some true.

(** The history rounds that a node asks for. *)
Definition roundsOf (node : schema.NodeSchema) (r : Z) : Prop :=
  (schema.Type_ node = NodeTypeSubWorkflow ∧
   ∃ s, schema.SubWorkflowSchema node = Some s ∧
        schema.historyRounds (schema.runtime s) = r) ∨
  asChatHistoryAware (schema.NodeConfigs node) = Some (true, r).

(** The nodes of a canvas with the nodes of their blocks, each parent before
    its blocks. *)
Fixpoint preorder (n : vo.Node) : list vo.Node :=
  match n with
  | vo.MkNode _ _ _ blocks _ => n :: flat_map preorder blocks
  end.

Definition isSubWorkflowNode (n : vo.Node) : bool :=
  bool_decide (vo.Type_ n = IDStr NodeTypeSubWorkflow).

(** The identity that a sub-workflow node names, if its inputs are there. *)
Definition identityOf (n : vo.Node) : option service_more.workflowIdentity :=
  data ← vo.Node_Data n;
  inputs ← vo.Data_Inputs data;
  sub ← vo.Inputs_SubWorkflow inputs;
  Some {| service_more.Identity_ID := vo.WorkflowID sub;
          service_more.Identity_Version := vo.WorkflowVersion sub |}.

(** The sub-workflow nodes of a list of nodes, at any depth. *)
Definition subWorkflowNodes (nodes : list vo.Node) : list vo.Node :=
  filter (fun n => isSubWorkflowNode n = true) (flat_map preorder nodes).

End spec_more.
End SpecMore.

(** ** More sample values *)

Module SampleMore.
Import vo Sample.

(** An initialised schema as a sub-workflow node embeds it: it asks for
    three rounds of history and requires a checkpoint or not. *)
Definition embedded (checkpoint : bool) : schema.WorkflowSchema :=
  {| schema.Nodes := [];
     schema.Connections := [];
     schema.Hierarchy := ∅;
     schema.Branches := ∅;
     schema.GeneratedNodes := [];
     schema.runtime := {| schema.once := true;
                          schema.requireCheckPoint := checkpoint;
                          schema.requireStreaming := false;
                          schema.historyRounds := 3 |} |}.

Definition subWorkflowNode (checkpoint : bool) : schema.NodeSchema :=
  {| schema.Key := "sub";
     schema.Type_ := "SubWorkflow";
     schema.Name := "sub";
     schema.NodeConfigs := "SubWorkflow";
     schema.InputTypes := [];
     schema.InputSources := nilSlice;
     schema.OutputTypes := [];
     schema.OutputSources := nilSlice;
     schema.ExceptionConfigs := None;
     schema.StreamConfigs := None;
     schema.SubWorkflowBasic := None;
     schema.SubWorkflowSchema := Some (embedded checkpoint) |}.

(** A schema that calls the embedded one after a plain node. *)
Definition callerSchema (checkpoint : bool) : schema.WorkflowSchema :=
  schemaOf [streamNode "model" true false []; subWorkflowNode checkpoint].

Definition plainNode (id type_ : string) : Node :=
  {| ID := id; Type_ := type_;
     Node_Data := Some {| Data_Meta := Some (adaptor.titleOnly id);
                          Outputs := []; Data_Inputs := None |};
     Blocks := []; Node_Edges := [] |}.

(** Node [a] has no incoming edge; its edge to [b] is the only edge that
    points to [b]. *)
Definition isolatedCanvas : Canvas :=
  {| Nodes := [entryNode []; plainNode "a" "3"; plainNode "b" "3"; exitNode];
     Edges := [plainEdge "a" "b";
               plainEdge entity.EntryNodeKey entity.ExitNodeKey;
               plainEdge "b" entity.ExitNodeKey] |}.

(** A loop whose only block is a break. *)
Definition breakLoop : Node :=
  {| ID := "loop"; Type_ := "21";
     Node_Data := Some {| Data_Meta := Some (adaptor.titleOnly "Loop");
                          Outputs := []; Data_Inputs := None |};
     Blocks := [plainNode "stop" "19"]; Node_Edges := [] |}.

Definition breakCanvas : Canvas :=
  {| Nodes := [entryNode []; breakLoop; exitNode];
     Edges := [plainEdge entity.EntryNodeKey "loop";
               plainEdge "loop" entity.ExitNodeKey] |}.

(** A loop whose block is a loop again. *)
Definition outerLoop : Node :=
  {| ID := "outer"; Type_ := "21";
     Node_Data := Some {| Data_Meta := Some (adaptor.titleOnly "Outer");
                          Outputs := []; Data_Inputs := None |};
     Blocks := [breakLoop]; Node_Edges := [] |}.

Definition nestedLoopCanvas : Canvas :=
  {| Nodes := [entryNode []; outerLoop; exitNode];
     Edges := [plainEdge entity.EntryNodeKey "outer";
               plainEdge "outer" entity.ExitNodeKey] |}.

(** A node with error settings: default data, switched on, no process
    type. *)
Definition guardedNode : Node :=
  {| ID := "llm"; Type_ := "3";
     Node_Data := Some
       {| Data_Meta := Some (adaptor.titleOnly "Guarded");
          Outputs := [];
          Data_Inputs := Some
            {| InputParameters := [];
               Inputs_SettingOnError := Some
                 {| DataOnErr := "{}"; Switch := true; ProcessType := None;
                    RetryTimes := 2; TimeoutMs := 500;
                    BackupLLMParam := None |};
               NodeBatchInfo := None;
               LLMParam := DNil;
               Inputs_LLM := None;
               Inputs_SubWorkflow := None;
               Inputs_PluginAPIParam := None;
               Inputs_Batch := None;
               Inputs_Other := None |} |};
     Blocks := []; Node_Edges := [] |}.

(** A repository whose drafts cannot be read. *)
Definition failingRepo : service.Repository :=
  {| service.GetMeta := fun _ => Err (errorf "connection refused");
     service.DraftV2 := fun _ _ => Err (errorf "connection refused");
     service.GetEntity := fun _ => Err (errorf "connection refused");
     service.GenID := Ok 42 |}.

(** A sub-workflow node of a canvas, naming workflow 12 at version v1. *)
Definition callNode : Node :=
  {| ID := "call"; Type_ := "9";
     Node_Data := Some
       {| Data_Meta := Some (adaptor.titleOnly "Call");
          Outputs := [];
          Data_Inputs := Some
            {| InputParameters := [];
               Inputs_SettingOnError := None;
               NodeBatchInfo := None;
               LLMParam := DNil;
               Inputs_LLM := None;
               Inputs_SubWorkflow := Some
                 {| WorkflowID := "12"; WorkflowVersion := "v1";
                    TerminationType := 0; SubWorkflow_SpaceID := "" |};
               Inputs_PluginAPIParam := None;
               Inputs_Batch := None;
               Inputs_Other := None |} |};
     Blocks := []; Node_Edges := [] |}.

End SampleMore.

(** * Properties *)

(** ** Schema equality *)

Section IsEqual_facts.
Import schema schema_ops Spec.
Context `{Env}.

(** [maps.EqualFunc] holds exactly when the two maps have the same keys and
    related values at each key. *)
Lemma maps_EqualFunc_spec {V1 V2} (m1 : gmap string V1) (m2 : gmap string V2)
    (eq : V1 -> V2 -> bool) :
  maps_EqualFunc m1 m2 eq = true ↔
  ∀ k, match m1 !! k, m2 !! k with
       | Some a, Some b => eq a b = true
       | None, None => True
       | _, _ => False
       end.
Proof.
  unfold maps_EqualFunc. rewrite andb_true_iff, bool_decide_eq_true, forallb_forall.
  split.
  - intros [Hsize Hall].
    assert (Hin : ∀ k a, m1 !! k = Some a →
                         ∃ b, m2 !! k = Some b ∧ eq a b = true).
    { intros k a Hk. specialize (Hall (k, a)). simpl in Hall.
      destruct (m2 !! k) as [b|].
      - exists b. split; [done|]. apply Hall.
        apply list_elem_of_In, elem_of_map_to_list. done.
      - exfalso. assert (false = true) as Hf; [|discriminate Hf]. apply Hall.
        apply list_elem_of_In, elem_of_map_to_list. done. }
    assert (Hdom : dom m1 = dom m2).
    { apply set_subseteq_size_eq.
      - intros k [a Hk]%elem_of_dom. destruct (Hin k a Hk) as (b & Hb & _).
        apply elem_of_dom. eauto.
      - rewrite !size_dom. lia. }
    intros k. destruct (m1 !! k) as [a|] eqn:Hk1.
    + destruct (Hin k a Hk1) as (b & -> & Hab). done.
    + destruct (m2 !! k) as [b|] eqn:Hk2; [|done].
      assert (k ∈ dom m1) as [a Ha]%elem_of_dom; [|congruence].
      rewrite Hdom. apply elem_of_dom. eauto.
  - intros Hpt. split.
    + rewrite <- !(size_dom (D := gset string)). f_equal. apply set_eq. intros k.
      rewrite !elem_of_dom. specialize (Hpt k).
      destruct (m1 !! k), (m2 !! k); try done;
        split; intros [? ?]; try done; eauto.
    + intros [k a] Hka%list_elem_of_In%elem_of_map_to_list. simpl.
      specialize (Hpt k). rewrite Hka in Hpt. destruct (m2 !! k); done.
Qed.

Lemma connectionsMap_fold (cs : list Connection) (m : gmap string bool) k :
  foldl (fun m c => <[ID c := true]> m) m cs !! k =
  if bool_decide (k ∈ map ID cs) then Some true else m !! k.
Proof.
  revert m. induction cs as [|c cs IH]; intros m.
  - case_bool_decide as Hin; [|done]. by apply elem_of_nil in Hin.
  - cbn [foldl map]. rewrite IH.
    case_bool_decide as Hin; case_bool_decide as Hin'; try done.
    + exfalso. apply Hin'. by right.
    + apply elem_of_cons in Hin' as [->|?]; [|done].
      by rewrite lookup_insert_eq.
    + rewrite lookup_insert_ne; [done|]. intros <-. apply Hin'. by left.
Qed.

(** The connections map holds [true] exactly at the IDs of the connections. *)
Lemma connectionsMap_lookup (cs : list Connection) k :
  connectionsMap cs !! k =
  if bool_decide (k ∈ map ID cs) then Some true else None.
Proof. unfold connectionsMap. rewrite connectionsMap_fold. by rewrite lookup_empty. Qed.

Lemma maps_Equal_connectionsMap (cs1 cs2 : list Connection) :
  maps_Equal (connectionsMap cs1) (connectionsMap cs2) = true ↔
  ∀ id, id ∈ map ID cs1 ↔ id ∈ map ID cs2.
Proof.
  unfold maps_Equal. rewrite maps_EqualFunc_spec.
  split; intros Hk k; specialize (Hk k); rewrite !connectionsMap_lookup in *;
    repeat case_bool_decide; simpl in *; tauto.
Qed.

Lemma elem_of_map_ID (cs : list Connection) id :
  id ∈ map ID cs ↔ ∃ c, c ∈ cs ∧ ID c = id.
Proof.
  rewrite list_elem_of_fmap. split; intros (c & ? & ?); exists c; done.
Qed.

(** The function literal of [IsEqual] decides [agree]. *)
Lemma nodeEqual_agree (node other : NodeSchema) :
  nodeEqual node other = true ↔ agree node other.
Proof.
  unfold nodeEqual, agree.
  destruct (decide (Name node = Name other)) as [Hn|Hn].
  2:{ rewrite bool_decide_eq_false_2 by done. simpl. split; [done|tauto]. }
  rewrite bool_decide_eq_true_2 by done. simpl.
  repeat match goal with
  | |- context [negb (deepEqual ?a ?b)] => destruct (deepEqual a b); simpl
  end; split; try done; intros; repeat split; try done; tauto.
Qed.

(** [IsEqual] decides execution equivalence. *)
Lemma IsEqual_iff (w other : WorkflowSchema) :
  IsEqual w other = true ↔ executionEquivalent w other.
Proof.
  unfold IsEqual, executionEquivalent.
  destruct (maps_Equal (connectionsMap (Connections other))
                       (connectionsMap (Connections w))) eqn:Hc; simpl.
  - rewrite maps_Equal_connectionsMap in Hc.
    destruct (maps_EqualFunc (nodeMapOf (Nodes other)) (nodeMapOf (Nodes w))
                             nodeEqual) eqn:Hn; simpl.
    + rewrite maps_EqualFunc_spec in Hn. split; [intros _|done]. split.
      * intros id. unfold hasConnectionID. rewrite <- !elem_of_map_ID.
        symmetry. apply Hc.
      * intros key. specialize (Hn key). unfold agreeAt.
        destruct (nodeMapOf (Nodes other) !! key),
                 (nodeMapOf (Nodes w) !! key); try done.
        by apply nodeEqual_agree.
    + split; [done|]. intros [_ Hnodes].
      assert (maps_EqualFunc (nodeMapOf (Nodes other)) (nodeMapOf (Nodes w))
                             nodeEqual = true) as Ht; [|congruence].
      rewrite maps_EqualFunc_spec. intros key. specialize (Hnodes key).
      unfold agreeAt in Hnodes.
      destruct (nodeMapOf (Nodes other) !! key),
               (nodeMapOf (Nodes w) !! key); try done.
      by apply nodeEqual_agree.
  - split; [done|]. intros [Hids _].
    assert (maps_Equal (connectionsMap (Connections other))
                       (connectionsMap (Connections w)) = true) as Ht;
      [|congruence].
    rewrite maps_Equal_connectionsMap. intros id. rewrite !elem_of_map_ID.
    symmetry. apply Hids.
Qed.

(** The node map keeps, for each key, the last node of the list with it. *)
Lemma nodeMapOf_fold (ns : list NodeSchema) (m : gmap string NodeSchema) k :
  foldl (fun m node => <[Key node := node]> m) m ns !! k =
  match last (filter (fun n => Key n = k) ns) with
  | Some n => Some n
  | None => m !! k
  end.
Proof.
  revert m. induction ns as [|n ns IH]; intros m; [reflexivity|].
  cbn [foldl]. rewrite IH. rewrite filter_cons.
  destruct (decide (Key n = k)) as [Hk|Hk].
  - rewrite last_cons.
    destruct (last (filter (fun n => Key n = k) ns)); [done|].
    subst k. apply lookup_insert_eq.
  - destruct (last (filter (fun n => Key n = k) ns)); [done|].
    by rewrite lookup_insert_ne.
Qed.

Lemma nodeMapOf_lookup (ns : list NodeSchema) k :
  nodeMapOf ns !! k = last (filter (fun n => Key n = k) ns).
Proof.
  unfold nodeMapOf. rewrite nodeMapOf_fold, lookup_empty.
  by destruct (last _).
Qed.

Lemma agree_comparedFields (a a' b b' : NodeSchema) :
  comparedFields a = comparedFields a' →
  comparedFields b = comparedFields b' →
  agree a b ↔ agree a' b'.
Proof.
  unfold comparedFields, agree. intros [= _ -> -> -> -> -> -> -> ->]
    [= _ -> -> -> -> -> -> -> ->]. done.
Qed.

Lemma last_filter_comparedFields (ns ns' : list NodeSchema) k :
  map comparedFields ns = map comparedFields ns' →
  option_Forall2 (fun a b => comparedFields a = comparedFields b)
    (last (filter (fun n => Key n = k) ns))
    (last (filter (fun n => Key n = k) ns')).
Proof.
  revert ns'. induction ns as [|n ns IH]; intros [|n' ns'] Heq;
    try discriminate Heq; [constructor|].
  cbn [map] in Heq. apply (inj2 cons) in Heq as [Hn Hns].
  specialize (IH _ Hns).
  assert (Key n = Key n') as Hkey by (unfold comparedFields in Hn; congruence).
  rewrite !filter_cons. rewrite <- Hkey.
  destruct (decide (Key n = k)); [|done].
  rewrite !last_cons. destruct IH; by constructor.
Qed.

(** The fields that [IsEqual] does not read have no effect on it. *)
Lemma IsEqual_other_fields (w w' other other' : WorkflowSchema) :
  sameCompared w w' → sameCompared other other' →
  IsEqual w' other' = IsEqual w other.
Proof.
  intros [Hc Hn] [Hc' Hn'].
  apply eq_true_iff_eq. rewrite !IsEqual_iff. unfold executionEquivalent.
  assert (Hids : ∀ id, (hasConnectionID w' id ↔ hasConnectionID other' id) ↔
                       (hasConnectionID w id ↔ hasConnectionID other id)).
  { intros id. unfold hasConnectionID. rewrite <- !elem_of_map_ID.
    by rewrite Hc, Hc'. }
  assert (Hkeys : ∀ key,
             agreeAt (nodeMapOf (Nodes other') !! key)
                     (nodeMapOf (Nodes w') !! key) ↔
             agreeAt (nodeMapOf (Nodes other) !! key)
                     (nodeMapOf (Nodes w) !! key)).
  { intros key. rewrite !nodeMapOf_lookup.
    pose proof (last_filter_comparedFields _ _ key Hn) as H1.
    pose proof (last_filter_comparedFields _ _ key Hn') as H2.
    destruct H1 as [a a' Ha|], H2 as [b b' Hb|]; simpl; try done.
    symmetry. by apply agree_comparedFields. }
  split; intros [Ha Hb]; split; intros x; first [by apply Hids | by apply Hkeys].
Qed.

End IsEqual_facts.

(** ** Streaming *)

Section streaming_facts.
Import schema schema_ops Spec.
Context `{Env}.

Lemma producersOf_fold (nodes : list NodeSchema) (s : gset string) k :
  k ∈ foldl (fun s node => if isProducer node then {[Key node]} ∪ s else s)
            s nodes ↔
  k ∈ s ∨ ∃ n, n ∈ nodes ∧ isProducer n = true ∧ Key n = k.
Proof.
  revert s. induction nodes as [|n nodes IH]; intros s; cbn [foldl].
  - split; [by left|]. intros [?|(n & Hn & _)]; [done|]. by apply elem_of_nil in Hn.
  - rewrite IH. split.
    + intros [Hk|(n' & Hn' & Hp & Hkey)].
      * destruct (isProducer n) eqn:Hp; [|by left].
        apply elem_of_union in Hk as [->%elem_of_singleton|Hk]; [|by left].
        right. exists n. split; [by left|done].
      * right. exists n'. split; [by right|done].
    + intros [Hk|(n' & Hn' & Hp & Hkey)].
      * left. destruct (isProducer n); [|done]. set_solver.
      * apply elem_of_cons in Hn' as [->|Hn'].
        -- left. rewrite Hp. set_solver.
        -- right. eauto.
Qed.

Lemma producersOf_spec (nodes : list NodeSchema) k :
  k ∈ producersOf nodes ↔ ∃ n, n ∈ nodes ∧ isProducer n = true ∧ Key n = k.
Proof. unfold producersOf. rewrite producersOf_fold. set_solver. Qed.

Lemma consumersOf_fold (nodes : list NodeSchema) (s : gset string) k :
  k ∈ foldl (fun s node => if isConsumer node then {[Key node]} ∪ s else s)
            s nodes ↔
  k ∈ s ∨ ∃ n, n ∈ nodes ∧ isConsumer n = true ∧ Key n = k.
Proof.
  revert s. induction nodes as [|n nodes IH]; intros s; cbn [foldl].
  - split; [by left|]. intros [?|(n & Hn & _)]; [done|]. by apply elem_of_nil in Hn.
  - rewrite IH. split.
    + intros [Hk|(n' & Hn' & Hp & Hkey)].
      * destruct (isConsumer n) eqn:Hp; [|by left].
        apply elem_of_union in Hk as [->%elem_of_singleton|Hk]; [|by left].
        right. exists n. split; [by left|done].
      * right. exists n'. split; [by right|done].
    + intros [Hk|(n' & Hn' & Hp & Hkey)].
      * left. destruct (isConsumer n); [|done]. set_solver.
      * apply elem_of_cons in Hn' as [->|Hn'].
        -- left. rewrite Hp. set_solver.
        -- right. eauto.
Qed.

Lemma consumersOf_spec (nodes : list NodeSchema) k :
  k ∈ consumersOf nodes ↔ ∃ n, n ∈ nodes ∧ isConsumer n = true ∧ Key n = k.
Proof. unfold consumersOf. rewrite consumersOf_fold. set_solver. Qed.

Lemma addSource_edge key adj source a b :
  adjEdge (addSource key adj source) a b ↔
  adjEdge adj a b ∨
  (b = key ∧ a ≠ "" ∧
   ∃ ref, Ref (Source source) = Some ref ∧ FromNodeKey ref = a).
Proof.
  unfold addSource, adjEdge. destruct (Ref (Source source)) as [ref|].
  2:{ split; [by left|]. intros [?|(_ & _ & ? & ? & _)]; done. }
  case_bool_decide as Hempty.
  { split; [by left|]. intros [?|(_ & Hne & ? & [= <-] & <-)]; done. }
  destruct (decide (FromNodeKey ref = a)) as [<-|Hne].
  - rewrite lookup_insert_eq. simpl. rewrite elem_of_union, elem_of_singleton.
    split.
    + intros [->|?]; [right|by left]. eauto.
    + intros [?|(-> & _)]; [by right|by left].
  - rewrite lookup_insert_ne by done. split; [by left|].
    intros [?|(_ & _ & ? & [= <-] & ?)]; done.
Qed.

Lemma addSources_edge key sources adj a b :
  adjEdge (foldl (addSource key) adj sources) a b ↔
  adjEdge adj a b ∨
  (b = key ∧ a ≠ "" ∧
   ∃ source ref, source ∈ sources ∧ Ref (Source source) = Some ref ∧
                 FromNodeKey ref = a).
Proof.
  revert adj. induction sources as [|s sources IH]; intros adj; cbn [foldl].
  - split; [by left|]. intros [?|(_ & _ & ? & ? & Hs & _)]; [done|].
    by apply elem_of_nil in Hs.
  - rewrite IH, addSource_edge. split.
    + intros [[?|(? & ? & ref & ? & ?)]|(? & ? & s' & ref & ? & ? & ?)].
      * by left.
      * right. repeat split; try done. exists s, ref. split; [by left|done].
      * right. repeat split; try done. exists s', ref. split; [by right|done].
    + intros [?|(? & ? & s' & ref & [->|?]%elem_of_cons & ? & ?)].
      * by left; left.
      * left; right. eauto.
      * right. repeat split; try done. eauto.
Qed.

Lemma buildAdj_fold nodes adj a b :
  adjEdge (foldl (fun adj node =>
                    foldl (addSource (Key node)) adj
                          (elems (InputSources node))) adj nodes) a b ↔
  adjEdge adj a b ∨ dataFlow nodes a b.
Proof.
  revert adj. induction nodes as [|n nodes IH]; intros adj; cbn [foldl].
  - split; [by left|]. intros [?|(_ & ? & ? & ? & Hn & _)]; [done|].
    by apply elem_of_nil in Hn.
  - rewrite IH, addSources_edge. unfold dataFlow. split.
    + intros [[?|(-> & ? & s & ref & ? & ? & ?)]|(? & n' & s & ref & ? & ?)].
      * by left.
      * right. split; [done|]. exists n, s, ref. split; [by left|done].
      * right. split; [done|]. exists n', s, ref. split; [by right|done].
    + intros [?|(? & n' & s & ref & [->|?]%elem_of_cons & ? & ? & ? & ?)].
      * by left; left.
      * left; right. split; [done|]. split; [done|]. eauto.
      * right. split; [done|]. exists n', s, ref. done.
Qed.

(** [adj] holds exactly the edges of the data-flow graph. *)
Lemma buildAdj_spec nodes a b :
  adjEdge (buildAdj nodes) a b ↔ dataFlow nodes a b.
Proof.
  unfold buildAdj. rewrite buildAdj_fold. unfold adjEdge at 1.
  rewrite lookup_empty. simpl. set_solver.
Qed.

Lemma vertices_spec (adj : gmap string (gset string)) b :
  b ∈ vertices adj ↔ ∃ a, adjEdge adj a b.
Proof.
  unfold vertices, adjEdge.
  apply (map_fold_weak_ind
           (fun (r : gset string) (m : gmap string (gset string)) =>
              b ∈ r ↔ ∃ a, b ∈ default ∅ (m !! a))).
  - split; [set_solver|]. intros [a Ha]. by rewrite lookup_empty in Ha.
  - intros i x m r Hi IH. rewrite elem_of_union, IH. split.
    + intros [Hb|[a Ha]].
      * exists i. by rewrite lookup_insert_eq.
      * exists a. rewrite lookup_insert_ne; [done|]. intros <-.
        by rewrite Hi in Ha.
    + intros [a Ha]. destruct (decide (i = a)) as [<-|Hne].
      * left. by rewrite lookup_insert_eq in Ha.
      * right. exists a. by rewrite lookup_insert_ne in Ha.
Qed.

(** The inner loop marks the unvisited neighbours and queues them. *)
Lemma visitNeighbors_spec (U : gset string) neighbors visited q :
  (∀ x, x ∈ neighbors → x ∈ U) →
  let st := visitNeighbors neighbors (visited, q) in
  (∀ x, x ∈ st.1 ↔ x ∈ visited ∨ x ∈ neighbors) ∧
  (∀ x, x ∈ st.2 ↔ x ∈ q ∨ (x ∈ neighbors ∧ x ∉ visited)) ∧
  (length st.2 + size (U ∖ st.1) = length q + size (U ∖ visited))%nat.
Proof.
  unfold visitNeighbors. revert visited q.
  induction neighbors as [|n neighbors IH]; intros visited q HU; cbn [foldl].
  - simpl. split; [|split; [|done]]; intros x; split; try tauto.
    + intros [?|Hx]; [done|]. by apply elem_of_nil in Hx.
    + intros [?|[Hx _]]; [done|]. by apply elem_of_nil in Hx.
  - cbn [fst snd]. case_bool_decide as Hn.
    + destruct (IH visited q) as (Hv & Hq & Hm).
      { intros x Hx. apply HU. by right. }
      split; [|split; [|done]]; intros x.
      * rewrite Hv, elem_of_cons. split; [tauto|]. intros [?|[->|?]]; tauto.
      * rewrite Hq, elem_of_cons. split; [tauto|].
        intros [?|[[->|?] ?]]; tauto.
    + destruct (IH ({[n]} ∪ visited) (q ++ [n])%list) as (Hv & Hq & Hm).
      { intros x Hx. apply HU. by right. }
      split; [|split]; try intros x.
      * rewrite Hv, elem_of_union, elem_of_singleton, elem_of_cons. tauto.
      * rewrite Hq, elem_of_app, list_elem_of_singleton, elem_of_union,
          elem_of_singleton, elem_of_cons.
        split; [|destruct (decide (x = n)) as [->|?]; tauto].
        intros [[? | ->] | [? Hx]]; [tauto|tauto|].
        right. split; [by right|]. tauto.
      * rewrite Hm, length_app. simpl.
        assert (n ∈ U) by (apply HU; by left).
        assert (size (U ∖ visited) =
                S (size (U ∖ ({[n]} ∪ visited)))) as ->; [|lia].
        assert (U ∖ visited = {[n]} ∪ U ∖ ({[n]} ∪ visited)) as ->.
        { apply set_eq. intros x. rewrite !elem_of_union, !elem_of_difference,
            elem_of_union, elem_of_singleton.
          destruct (decide (x = n)) as [->|?]; tauto. }
        rewrite size_union by set_solver. by rewrite size_singleton.
Qed.

Section traverse.
Variables (adj : gmap string (gset string)) (consumers : gset string).
Variable p : string.

Lemma traverse_spec fuel q visited :
  traverseInv adj consumers p q visited →
  (length q + size (({[p]} ∪ vertices adj) ∖ visited) < fuel)%nat →
  ∃ b, traverse fuel adj consumers q visited = Some b ∧
       (b = true ↔ ∃ c, c ∈ consumers ∧ rtc (adjEdge adj) p c).
Proof.
  revert q visited. induction fuel as [|fuel IH]; intros q visited Hinv Hfuel;
    [lia|].
  destruct Hinv as (Hq & Hreach & Hclosed & Hp).
  destruct q as [|curr q]; cbn [traverse].
  - exists false. split; [done|]. split; [done|]. intros (c & Hc & Hpc).
    exfalso.
    assert (∀ x z, rtc (adjEdge adj) x z → x ∈ visited → z ∈ visited)
      as Hclosure.
    { clear c Hc Hpc. intros x z Hxz.
      induction Hxz as [|x y z Hxy _ IHrtc]; [done|].
      intros Hx. apply IHrtc. apply (Hclosed x Hx); [|done].
      apply not_elem_of_nil. }
    pose proof (Hclosure p c Hpc Hp) as Hcv.
    destruct (Hclosed c Hcv) as [Hnc _]; [apply not_elem_of_nil|done].
  - case_bool_decide as Hcons.
    + exists true. split; [done|]. split; [|done]. intros _. exists curr.
      split; [done|]. apply Hreach, Hq. by left.
    + pose proof (visitNeighbors_spec ({[p]} ∪ vertices adj)
                    (elements (default ∅ (adj !! curr))) visited q) as Hvn.
      destruct Hvn as (Hv & Hq' & Hm).
      { intros x Hx%elem_of_elements. apply elem_of_union. right.
        apply vertices_spec. by exists curr. }
      apply IH.
      * split; [|split; [|split]].
        -- intros x [Hx|[Hx Hnv]]%Hq'; apply Hv; [left|by right].
           apply Hq. by right.
        -- intros x [Hx|Hx%elem_of_elements]%Hv; [by apply Hreach|].
           eapply rtc_r; [|exact Hx]. apply Hreach, Hq. by left.
        -- intros x Hx Hnq. rewrite Hq' in Hnq.
           apply Hv in Hx. destruct (decide (x ∈ visited)) as [Hxv|?]; [|tauto].
           clear Hx. rename Hxv into Hx.
           destruct (decide (x ∈ curr :: q)) as [Hin|Hnin].
           ++ apply elem_of_cons in Hin as [->|?]; [|tauto].
              split; [done|]. intros y Hy. apply Hv. right.
              by apply elem_of_elements.
           ++ destruct (Hclosed x Hx Hnin) as [Hnc Hsucc]. split; [done|].
              intros y Hy. apply Hv. left. by apply Hsucc.
        -- apply Hv. by left.
      * rewrite Hm. simpl in Hfuel. lia.
Qed.

End traverse.

Lemma traverseAll_spec fuel (adj : gmap string (gset string))
    (consumers : gset string) (ps : list string) :
  (size (vertices adj) + 1 < fuel)%nat →
  ∃ b, traverseAll fuel adj consumers ps = Some b ∧
       (b = true ↔
        ∃ p c, p ∈ ps ∧ c ∈ consumers ∧ rtc (adjEdge adj) p c).
Proof.
  intros Hfuel. induction ps as [|p ps IH]; cbn [traverseAll].
  - exists false. split; [done|]. split; [done|].
    intros (p & _ & Hp & _). by apply elem_of_nil in Hp.
  - destruct (traverse_spec adj consumers p fuel [p] {[p]}) as (b & -> & Hb).
    { split; [|split; [|split]].
      - intros x ->%list_elem_of_singleton. set_solver.
      - intros x ->%elem_of_singleton. apply rtc_refl.
      - intros x ->%elem_of_singleton Hx. exfalso. apply Hx. by left.
      - set_solver. }
    { simpl. assert (size (({[p]} ∪ vertices adj) ∖ {[p]}) ≤
                     size (vertices adj))%nat; [|lia].
      apply subseteq_size. set_solver. }
    destruct b.
    + exists true. split; [done|]. split; [|done]. intros _.
      destruct (proj1 Hb eq_refl) as (c & Hc & Hpc).
      exists p, c. split; [by left|done].
    + destruct IH as (b & -> & Hb'). exists b. split; [done|]. rewrite Hb'.
      split.
      * intros (p' & c & ? & ? & ?). exists p', c. split; [by right|done].
      * intros (p' & c & [->|?]%elem_of_cons & Hc & Hpc).
        -- assert (false = true) as Hf; [|discriminate Hf]. apply Hb. eauto.
        -- eauto.
Qed.

(** The fuel given by [doRequireStreamingOf] is never exhausted. *)
Lemma doRequireStreaming_fuel (nodes : list NodeSchema) :
  is_Some (traverseAll (size (vertices (buildAdj nodes)) + 2) (buildAdj nodes)
             (consumersOf nodes) (elements (producersOf nodes))).
Proof.
  destruct (traverseAll_spec (size (vertices (buildAdj nodes)) + 2)
              (buildAdj nodes) (consumersOf nodes)
              (elements (producersOf nodes))) as (b & -> & _); [lia|done].
Qed.

Lemma rtc_adjEdge_dataFlow nodes a b :
  rtc (adjEdge (buildAdj nodes)) a b ↔ rtc (dataFlow nodes) a b.
Proof.
  split; apply rtc_subrel; intros x y; apply buildAdj_spec.
Qed.

(** [doRequireStreaming] finds a path from a producer to a consumer exactly
    when there is one. *)
Lemma doRequireStreaming_spec (w : WorkflowSchema) :
  doRequireStreaming w = true ↔ streamPath w.
Proof.
  unfold doRequireStreaming, doRequireStreamingOf, streamPath.
  destruct (traverseAll_spec (size (vertices (buildAdj (Nodes w))) + 2)
              (buildAdj (Nodes w)) (consumersOf (Nodes w))
              (elements (producersOf (Nodes w)))) as (b & Hb & Hiff); [lia|].
  rewrite Hb. simpl.
  assert (Hpath : (∃ p c, p ∈ elements (producersOf (Nodes w)) ∧
                          c ∈ consumersOf (Nodes w) ∧
                          rtc (adjEdge (buildAdj (Nodes w))) p c) ↔
                  ∃ p c, p ∈ Nodes w ∧ isProducer p = true ∧ c ∈ Nodes w ∧
                         isConsumer c = true ∧
                         rtc (dataFlow (Nodes w)) (Key p) (Key c)).
  { split.
    - intros (kp & kc & Hp%elem_of_elements%producersOf_spec &
              Hc%consumersOf_spec & Hr%rtc_adjEdge_dataFlow).
      destruct Hp as (p & ? & ? & <-), Hc as (c & ? & ? & <-).
      exists p, c. done.
    - intros (p & c & ? & ? & ? & ? & Hr%rtc_adjEdge_dataFlow).
      exists (Key p), (Key c). split; [|split; [|done]].
      + apply elem_of_elements, producersOf_spec. eauto.
      + apply consumersOf_spec. eauto. }
  rewrite <- Hpath, <- Hiff.
  case_bool_decide as Hnp; simpl.
  { split; [done|]. intros ->. destruct (proj1 Hiff eq_refl) as (p & _ & Hp & _).
    apply size_empty_inv in Hnp. apply elem_of_elements in Hp.
    exfalso. by eapply (not_elem_of_empty (C := gset string)), Hnp. }
  case_bool_decide as Hnc; simpl; [|done].
  split; [done|]. intros ->. destruct (proj1 Hiff eq_refl) as (_ & c & _ & Hc & _).
  apply size_empty_inv in Hnc.
  exfalso. by eapply (not_elem_of_empty (C := gset string)), Hnc.
Qed.

End streaming_facts.

Section Init_facts.
Import schema schema_ops Spec.
Context `{Env}.

(** [Init] stores the result of [doRequireStreaming] on the schema it
    returns. *)
Lemma Init_requireStreaming (w w' : WorkflowSchema) :
  once (runtime w) = false → Init w = Ok w' →
  once (runtime w') = true ∧ RequireStreaming w' = doRequireStreaming w'.
Proof.
  intros Honce HInit. destruct w as [nodes conns hier branches generated rt].
  simpl in Honce. cbn [Init] in HInit. rewrite Honce in HInit.
  match type of HInit with
  | mbind _ ?m = _ => destruct m as [[[nodes' hr] brk]|e|p]
  end; try discriminate HInit.
  cbn in HInit. injection HInit as <-. done.
Qed.

(** An initialised schema is left as it is ([sync.Once]). *)
Lemma Init_once (w : WorkflowSchema) :
  once (runtime w) = true → Init w = Ok w.
Proof.
  intros Honce. destruct w as [nodes conns hier branches generated rt].
  simpl in Honce. cbn [Init]. by rewrite Honce.
Qed.

End Init_facts.

(** ** Decimal conversions *)

Section strconv_facts.
Import strconv.

Lemma string_of_uint_digit (d : Decimal.uint) :
  d ≠ Decimal.Nil →
  ∃ c r, NilZero.string_of_uint d = String c r ∧ c ≠ "+"%char ∧ c ≠ "-"%char.
Proof.
  destruct d; intros Hd; [by destruct Hd|..]; simpl;
    do 2 eexists; (split; [reflexivity|split; discriminate]).
Qed.

Lemma Atoi_unsigned (s : string) (d : Decimal.uint) c r :
  s = String c r → c ≠ "+"%char → c ≠ "-"%char →
  NilZero.uint_of_string s = Some d →
  minInt ≤ Z.of_uint d ≤ maxInt →
  Atoi s = Some (Z.of_uint d).
Proof.
  intros -> Hp Hm Hs Hr. unfold Atoi.
  destruct c as [[] [] [] [] [] [] [] []]; try (exfalso; first [by apply Hp | by apply Hm]);
    rewrite Hs;
    (assert ((minInt <=? Z.of_uint d) && (Z.of_uint d <=? maxInt) = true)
       as -> by (apply andb_true_intro; split; apply Z.leb_le; lia));
    reflexivity.
Qed.

(** Printing an [int] and parsing it back gives the same number. *)
Lemma Atoi_Itoa (z : Z) :
  minInt ≤ z ≤ maxInt → Atoi (Itoa z) = Some z.
Proof.
  intros Hz. destruct z as [|p|p].
  - reflexivity.
  - unfold Itoa. cbn [Z.to_int NilZero.string_of_int].
    pose proof (Unsigned.to_uint_nonnil p) as Hnil.
    destruct (string_of_uint_digit _ Hnil) as (c & r & Hs & Hp & Hm).
    assert (Z.of_uint (Pos.to_uint p) = Z.pos p) as Hof.
    { unfold Z.of_uint. by rewrite Unsigned.of_to. }
    rewrite <- Hof. eapply Atoi_unsigned; try done.
    + by apply NilZero.usu.
    + by rewrite Hof.
  - unfold Itoa. cbn [Z.to_int NilZero.string_of_int]. unfold Atoi.
    rewrite NilZero.usu by apply Unsigned.to_uint_nonnil.
    assert (Z.of_uint (Pos.to_uint p) = Z.pos p) as ->.
    { unfold Z.of_uint. by rewrite Unsigned.of_to. }
    change (- Z.pos p) with (Z.neg p).
    assert ((minInt <=? Z.neg p) && (Z.neg p <=? maxInt) = true)
      as -> by (apply andb_true_intro; split; apply Z.leb_le; lia).
    reflexivity.
Qed.

Lemma uint_of_string_allDigits (s : string) (d : Decimal.uint) :
  NilEmpty.uint_of_string s = Some d → Spec.allDigits s = true.
Proof.
  revert d. induction s as [|c s IH]; intros d; [done|].
  cbn [NilEmpty.uint_of_string Spec.allDigits].
  destruct (NilEmpty.uint_of_string s) as [d'|]; [|done].
  intros Hc. rewrite (IH d' eq_refl), andb_true_r.
  apply uint_of_char_spec in Hc.
  destruct Hc as [[-> _]|[[-> _]|[[-> _]|[[-> _]|[[-> _]|[[-> _]|[[-> _]|
                 [[-> _]|[[-> _]|[-> _]]]]]]]]]]; reflexivity.
Qed.

Lemma uint_of_string_not_digits (digits : string) :
  negb (bool_decide (digits = "")) && Spec.allDigits digits = false →
  NilZero.uint_of_string digits = None.
Proof.
  intros Hnd. destruct (NilZero.uint_of_string digits) as [d|] eqn:Hd; [|done].
  exfalso. destruct digits as [|c r]; [done|].
  unfold NilZero.uint_of_string in Hd. apply uint_of_string_allDigits in Hd.
  rewrite Hd in Hnd. done.
Qed.

(** [Atoi] rejects what is not an optionally signed string of digits. *)
Lemma Atoi_not_decimal (s : string) :
  Spec.isDecimal s = false → Atoi s = None.
Proof.
  unfold Spec.isDecimal, Atoi. destruct s as [|c r]; [done|].
  destruct c as [[] [] [] [] [] [] [] []]; cbv beta iota zeta;
    intros Hnd; apply uint_of_string_not_digits in Hnd; rewrite Hnd; done.
Qed.

Lemma CutPrefix_app (prefix s : string) :
  Strings.CutPrefix prefix (prefix ++ s) = Some s.
Proof.
  induction prefix as [|c p IH]; [done|].
  simpl. rewrite Ascii.eqb_refl. apply IH.
Qed.

End strconv_facts.

(** ** Loops with early exit *)

Section outcome_facts.
Context {A B : Type}.

Lemma bind_Ok {C D} (m : outcome C) (k : C → outcome D) d :
  (x ← m; k x) = Ok d → ∃ c, m = Ok c ∧ k c = Ok d.
Proof. destruct m; try discriminate. eauto. Qed.

Lemma mapM_cons (f : A → outcome B) a l :
  mapM f (a :: l) = (b ← f a; bs ← mapM f l; Ok (b :: bs)).
Proof. reflexivity. Qed.

Lemma mapM_Ok_Forall2 (f : A → outcome B) l out :
  mapM f l = Ok out → Forall2 (fun a b => f a = Ok b) l out.
Proof.
  revert out. induction l as [|a l IH]; intros out.
  - intros [= <-]. constructor.
  - rewrite mapM_cons. intros (b & Hb & (bs & Hbs & [= <-])%bind_Ok)%bind_Ok.
    constructor; [done|]. by apply IH.
Qed.

Lemma mapM_Ok_app (f : A → outcome B) l1 l2 out :
  mapM f (l1 ++ l2)%list = Ok out →
  ∃ o1 o2, out = (o1 ++ o2)%list ∧ mapM f l1 = Ok o1 ∧ mapM f l2 = Ok o2.
Proof.
  revert out. induction l1 as [|a l1 IH]; intros out.
  - intros Hout. exists [], out. done.
  - cbn [app]. rewrite !mapM_cons.
    intros (b & Hb & (bs & Hbs & [= <-])%bind_Ok)%bind_Ok.
    destruct (IH _ Hbs) as (o1 & o2 & -> & Ho1 & Ho2).
    exists (b :: o1), o2. rewrite Hb, Ho1. done.
Qed.

Lemma mapM_no_panic (f : A → outcome B) l :
  (∀ a p, f a ≠ Panic p) → ∀ p, mapM f l ≠ Panic p.
Proof.
  intros Hf. induction l as [|a l IH]; intros p; [done|].
  rewrite mapM_cons. destruct (f a) as [b|e|q] eqn:Ha.
  - destruct (mapM f l) as [bs|e|q] eqn:Hl; [done|done|].
    intros Hq. apply (IH q). rewrite <- Hl. reflexivity.
  - done.
  - by apply Hf in Ha.
Qed.

Lemma mapM_not_Ok (f : A → outcome B) l a :
  a ∈ l → (∀ b, f a ≠ Ok b) → ∀ out, mapM f l ≠ Ok out.
Proof.
  intros Ha Hf out Hout. apply mapM_Ok_Forall2 in Hout.
  apply list_elem_of_lookup in Ha as [i Hi].
  destruct (Forall2_lookup_l _ _ _ _ _ Hout Hi) as (b & _ & Hb).
  by apply Hf in Hb.
Qed.

Lemma foldM_cons {S} (body : S → A → outcome S) a l s :
  foldM body (a :: l) s = (s' ← body s a; foldM body l s').
Proof. reflexivity. Qed.

Lemma foldM_Ok_app {S} (body : S → A → outcome S) l1 l2 s s' :
  foldM body (l1 ++ l2)%list s = Ok s' ↔
  ∃ s1, foldM body l1 s = Ok s1 ∧ foldM body l2 s1 = Ok s'.
Proof.
  revert s. induction l1 as [|a l1 IH]; intros s; cbn [app foldM].
  - split; [eauto|]. by intros (s1 & [= <-] & ?).
  - destruct (body s a) as [s0| |]; cbn.
    + apply IH.
    + split; [done|]. by intros (? & ? & _).
    + split; [done|]. by intros (? & ? & _).
Qed.

Lemma foldM_not_Ok {S} (body : S → A → outcome S) l a :
  a ∈ l → (∀ s s', body s a ≠ Ok s') → ∀ s s', foldM body l s ≠ Ok s'.
Proof.
  intros Ha Hbody. induction l as [|x l IH]; [by apply elem_of_nil in Ha|].
  intros s s'. cbn [foldM].
  destruct (body s x) as [s0| |] eqn:Hx; cbn; try done.
  apply elem_of_cons in Ha as [->|Ha]; [by apply Hbody in Hx|by apply IH].
Qed.

(** A property that every successful step keeps holds at the end. *)
Lemma foldM_invariant {S} (body : S → A → outcome S) (P : S → Prop) l s s' :
  (∀ s a s', body s a = Ok s' → P s → P s') →
  P s → foldM body l s = Ok s' → P s'.
Proof.
  intros Hstep. revert s. induction l as [|a l IH]; intros s Hs.
  - by intros [= <-].
  - rewrite foldM_cons. intros (s1 & Hs1 & Hrest)%bind_Ok.
    apply (IH s1); [by eapply Hstep|done].
Qed.

End outcome_facts.

(** ** Port normalisation *)

Section ports_facts.
Import vo schema adaptor Spec.
Context `{Env}.

Lemma PortBranch_0 : PortBranch 0 = "branch_0".
Proof. reflexivity. Qed.

Lemma selectorPort_rule (port newPort : string) :
  selectorPort port = Ok newPort → selectorRule port (Some newPort).
Proof.
  unfold selectorPort, selectorRule. intros Hsel.
  case_bool_decide as Ht.
  { injection Hsel as <-. subst port.
    repeat split; intros; first [done | discriminate]. }
  case_bool_decide as Hf.
  { injection Hsel as <-. subst port.
    repeat split; intros; first [done | discriminate]. }
  split; [done|]. split; [done|].
  assert (∀ suffix n, port = "true_" ++ suffix →
                      strconv.Atoi suffix = Some n →
                      newPort = PortBranch n) as Hgen.
  { intros suffix n -> Hn. rewrite CutPrefix_app, Hn in Hsel. congruence. }
  split.
  - intros n Hn Hp. f_equal. apply (Hgen (strconv.Itoa n) n Hp).
    by apply Atoi_Itoa.
  - intros suffix n Hp Hn. f_equal. by apply (Hgen suffix).
Qed.

Lemma normalizePort_rule (nodeMap : gmap string Node) (conn conn' : Connection) :
  normalizePort nodeMap conn = Ok conn' → portRule nodeMap conn conn'.
Proof.
  unfold normalizePort, portRule. destruct (FromPort conn) as [port|] eqn:Hport.
  2:{ intros [= <-]. by rewrite Hport. }
  destruct (String.length port =? 0)%nat eqn:Hlen.
  { intros [= <-]. simpl. rewrite bool_decide_eq_true_2; [done|].
    destruct port; [done|discriminate Hlen]. }
  rewrite (bool_decide_eq_false_2 (port = "")) by (intros ->; by simpl in Hlen).
  destruct (bool_decide (port = "loop-function-inline-output") ||
            bool_decide (port = "loop-output") ||
            bool_decide (port = "batch-function-inline-output") ||
            bool_decide (port = "batch-output")) eqn:Hinline.
  { intros [= <-]. simpl. rewrite bool_decide_eq_true_2; [done|].
    unfold inlineOutputPorts.
    repeat (apply orb_true_iff in Hinline as [Hinline|Hinline]);
      apply bool_decide_eq_true in Hinline; subst port; set_solver. }
  rewrite (bool_decide_eq_false_2 (port ∈ inlineOutputPorts)).
  2:{ unfold inlineOutputPorts. intros Hin.
      repeat (apply orb_false_iff in Hinline as [Hinline ?]).
      repeat match goal with
             | Hb : bool_decide _ = false |- _ =>
                 apply bool_decide_eq_false in Hb
             end.
      set_solver. }
  destruct (nodeMap !! FromNode conn) as [node|]; [|done].
  intros (newPort & Hnew & [= <-])%bind_Ok. simpl.
  split; [done|]. split; [done|]. exists node. split; [done|].
  case_bool_decide; [by apply selectorPort_rule|congruence].
Qed.

Lemma normalizePort_no_panic (nodeMap : gmap string Node) (conn : Connection) p :
  normalizePort nodeMap conn ≠ Panic p.
Proof.
  unfold normalizePort, selectorPort.
  repeat first [ case_match | case_bool_decide ]; cbn; done.
Qed.

(** A selector port [true_] followed by something that is no number is
    rejected. *)
Lemma normalizePort_invalid (nodeMap : gmap string Node) (conn : Connection)
    (node : Node) (suffix : string) :
  nodeMap !! FromNode conn = Some node →
  vo.Type_ node = IDStr NodeTypeSelector →
  FromPort conn = Some ("true_" ++ suffix) →
  isDecimal suffix = false →
  normalizePort nodeMap conn =
  Err (errorf ("invalid port name: " ++ "true_" ++ suffix)).
Proof.
  intros Hnode Hty Hport Hsuffix. unfold normalizePort.
  rewrite Hport, Hnode.
  change ("true_" ++ suffix)
    with (String "t" (String "r" (String "u" (String "e" (String "_" suffix))))).
  cbn [String.length Nat.eqb].
  rewrite !(bool_decide_eq_false_2 (String "t" _ = _)) by discriminate.
  cbn [orb]. rewrite bool_decide_eq_true_2 by done.
  unfold selectorPort.
  rewrite !(bool_decide_eq_false_2 (String "t" _ = _)) by discriminate.
  cbn [Strings.CutPrefix Ascii.eqb Bool.eqb].
  by rewrite (Atoi_not_decimal _ Hsuffix).
Qed.

Lemma normalizePorts_ends (connections normalized : list Connection)
    (nodeMap : gmap string Node) :
  normalizePorts connections nodeMap = Ok normalized →
  map FromNode normalized = map FromNode connections ∧
  map ToNode normalized = map ToNode connections.
Proof.
  intros Hn%mapM_Ok_Forall2.
  induction Hn as [|c c' cs cs' Hc _ [IH1 IH2]]; [done|].
  apply normalizePort_rule in Hc as (Hf & Ht & _).
  cbn [map]. by rewrite Hf, Ht, IH1, IH2.
Qed.

End ports_facts.

(** ** Edges and batch mode *)

Section edge_facts.
Import vo adaptor Spec.
Context `{Env}.

Lemma EdgeToConnection_FromNode (e : Edge) :
  schema.FromNode (EdgeToConnection e) = SourceNodeID e.
Proof. reflexivity. Qed.

Lemma length_pos_ne (s : string) :
  (0 <? String.length s)%nat = negb (bool_decide (s = "")).
Proof.
  destruct s; [reflexivity|]. by rewrite bool_decide_eq_false_2.
Qed.

(** An edge with a source port into an inline input goes to [END]. *)
Lemma EdgeToConnection_END (e : Edge) :
  SourcePortID e ≠ "" → TargetPortID e ∈ inlineInputPorts →
  schema.ToNode (EdgeToConnection e) = schema.END.
Proof.
  intros Hs Ht. unfold EdgeToConnection. cbn [schema.ToNode].
  rewrite length_pos_ne, bool_decide_eq_false_2 by done. cbn [negb andb].
  unfold inlineInputPorts in Ht.
  apply elem_of_cons in Ht as [->|Ht]; [done|].
  apply list_elem_of_singleton in Ht as ->. done.
Qed.

(** Any other edge keeps its target. *)
Lemma EdgeToConnection_keep (e : Edge) :
  SourcePortID e = "" ∨ TargetPortID e ∉ inlineInputPorts →
  schema.ToNode (EdgeToConnection e) = TargetNodeID e.
Proof.
  intros Hcase. unfold EdgeToConnection. cbn [schema.ToNode].
  rewrite length_pos_ne. destruct Hcase as [->|Ht]; [done|].
  assert (TargetPortID e ≠ "loop-function-inline-input" ∧
          TargetPortID e ≠ "batch-function-inline-input") as [H1 H2].
  { split; intros Heq; apply Ht; rewrite Heq; unfold inlineInputPorts;
      set_solver. }
  rewrite (bool_decide_eq_false_2 _ H1), (bool_decide_eq_false_2 _ H2).
  by rewrite andb_false_r.
Qed.

Lemma batchParent_edges (n : Node) batchInfo title outerOutput inputs innerOutput :
  Node_Edges (batchParent n batchInfo title outerOutput
                (batchInner n inputs title innerOutput)) = batchEdges (ID n).
Proof. reflexivity. Qed.

(** The connections of the two generated edges, before normalisation: the
    second one, which has no source port, still points to the parent. *)
Lemma batchEdges_connections (id : string) :
  map EdgeToConnection (batchEdges id) =
  [ {| schema.FromNode := id;
       schema.ToNode := id ++ "_inner";
       schema.FromPort := if bool_decide (id = "") then None
                          else Some "batch-function-inline-output" |};
    {| schema.FromNode := id ++ "_inner";
       schema.ToNode := id;
       schema.FromPort := Some "" |} ].
Proof.
  destruct id as [|c id]; [reflexivity|].
  rewrite bool_decide_eq_false_2 by discriminate. reflexivity.
Qed.

(** After normalisation neither of them has a port. *)
Lemma batchEdges_normalized (id : string) (nodeMap : gmap string Node) :
  normalizePorts (map EdgeToConnection (batchEdges id)) nodeMap =
  Ok [plainConnection id (id ++ "_inner");
      plainConnection (id ++ "_inner") id].
Proof.
  rewrite batchEdges_connections. unfold normalizePorts, plainConnection.
  rewrite !mapM_cons. unfold normalizePort at 1 2. cbn [schema.FromPort].
  destruct (bool_decide (id = "")); reflexivity.
Qed.

(** With batch mode on, one list-of-object output, decodable fields and
    node metadata, [parseBatchMode] builds the parent and the inner node. *)
Lemma parseBatchMode_expand (n : Node) data inputs batchInfo meta v objV
    innerOutput :
  batchEnabled n data inputs batchInfo →
  Data_Meta data = Some meta →
  oneListOfObject data v objV →
  objectFields objV innerOutput →
  parseBatchMode n =
  Ok (Some (batchParent n batchInfo (Title meta) [batchOuterOutput n v objV]
              (batchInner n inputs (Title meta) innerOutput)), true).
Proof.
  intros (Hd & Hi & Hb & He) Hm (out & Hout & Hv & Hvt & Hobj & Hot)
         (str & Hstr & Hinner).
  unfold parseBatchMode. rewrite Hd, Hi, Hb, He, Hout. cbn [negb].
  rewrite Hv. cbn. rewrite Hvt, bool_decide_eq_true_2 by done. cbn [negb].
  rewrite Hobj, Hot, bool_decide_eq_true_2 by done. cbn [negb].
  rewrite Hstr. cbn. rewrite Hinner, Hm. reflexivity.
Qed.

(** Without node metadata the same node makes [parseBatchMode] panic. *)
Lemma parseBatchMode_nil_meta (n : Node) data inputs batchInfo v objV
    innerOutput :
  batchEnabled n data inputs batchInfo →
  Data_Meta data = None →
  oneListOfObject data v objV →
  objectFields objV innerOutput →
  parseBatchMode n = Panic nilDereference.
Proof.
  intros (Hd & Hi & Hb & He) Hm (out & Hout & Hv & Hvt & Hobj & Hot)
         (str & Hstr & Hinner).
  unfold parseBatchMode. rewrite Hd, Hi, Hb, He, Hout. cbn [negb].
  rewrite Hv. cbn. rewrite Hvt, bool_decide_eq_true_2 by done. cbn [negb].
  rewrite Hobj, Hot, bool_decide_eq_true_2 by done. cbn [negb].
  rewrite Hstr. cbn. rewrite Hinner, Hm. reflexivity.
Qed.

(** With batch mode on, an output list that is not one list of objects is
    rejected. *)
Lemma parseBatchMode_reject (n : Node) data inputs batchInfo :
  batchEnabled n data inputs batchInfo →
  (∀ v objV, ¬ oneListOfObject data v objV) →
  ∀ r, parseBatchMode n ≠ Ok r.
Proof.
  intros (Hd & Hi & Hb & He) Hnot r. unfold parseBatchMode.
  rewrite Hd, Hi, Hb, He. cbn [negb].
  destruct (Outputs data) as [|out [|out' outs]] eqn:Hout; [done| |done].
  destruct (ParseVariable out) as [v| |] eqn:Hv; cbn; [|done|done].
  case_bool_decide as Hvt; cbn [negb]; [|done].
  destruct (ParseVariable (Var_Schema v)) as [objV| |] eqn:Hobj; [|done|done].
  case_bool_decide as Hot; cbn [negb]; [|done].
  exfalso. apply (Hnot v objV). exists out. done.
Qed.

(** What [parseBatchMode] can return. *)
Lemma parseBatchMode_result (n : Node) batchN enabled :
  parseBatchMode n = Ok (batchN, enabled) →
  (batchN = None ∧ enabled = false) ∨
  ∃ parentN inner, batchN = Some parentN ∧ enabled = true ∧
                   Blocks parentN = [inner] ∧
                   ID parentN = ID n ∧ ID inner = ID n ++ "_inner" ∧
                   Node_Edges parentN = batchEdges (ID n).
Proof.
  unfold parseBatchMode. intros Hp.
  repeat match type of Hp with
  | match ?x with _ => _ end = _ => destruct x eqn:?; try discriminate Hp
  | (if ?b then _ else _) = _ => destruct b eqn:?; try discriminate Hp
  | mbind _ ?m = _ => destruct m eqn:?; try discriminate Hp; cbn in Hp
  end;
  injection Hp as <- <-; first [by left | right; do 2 eexists; done].
Qed.

End edge_facts.

(** ** Isolation pruning *)

Section prune_facts.
Import vo adaptor Spec.
Context `{Env}.

Lemma pruneBlocks_ID (n n' : Node) : pruneBlocks n = Ok n' → ID n' = ID n.
Proof.
  destruct n as [id ty data blocks edges]. cbn [pruneBlocks].
  destruct ((0 <? length blocks)%nat && (0 <? length edges)%nat).
  - intros ([b e] & _ & [= <-])%bind_Ok. reflexivity.
  - by intros [= <-].
Qed.

(** A node without blocks or without inner edges is left as it is. *)
Lemma pruneBlocks_flat (n : Node) :
  Blocks n = [] ∨ Node_Edges n = [] → pruneBlocks n = Ok n.
Proof.
  destruct n as [id ty data blocks edges]. cbn [Blocks Node_Edges pruneBlocks].
  intros [-> | ->]; [done|]. by rewrite andb_false_r.
Qed.

Lemma dom_increment (k : string) (m : gmap string Z) :
  dom (increment k m) = {[k]} ∪ dom m.
Proof. unfold increment. apply dom_insert_L. Qed.

(** The first loop keeps the IDs of the nodes and gives each a counter. *)
Lemma pruneInit_fold parentNode nodes acc count nodes' count' :
  foldM (pruneInit pruneBlocks parentNode) nodes (acc, count) =
    Ok (nodes', count') →
  ∃ pruned, nodes' = (acc ++ pruned)%list ∧
            map ID pruned = map ID nodes ∧
            dom count ∪ list_to_set (map ID nodes) ⊆ dom count' ∧
            dom count' ⊆ dom count ∪ list_to_set (map ID nodes) ∪
                         from_option (fun p => {[ID p]}) ∅ parentNode.
Proof.
  revert acc count. induction nodes as [|n nodes IH]; intros acc count.
  - intros [= <- <-]. exists []. rewrite app_nil_r. set_solver.
  - rewrite foldM_cons.
    intros ([acc1 count1] & Hstep & Hrest)%bind_Ok.
    unfold pruneInit in Hstep.
    apply bind_Ok in Hstep as (n1 & Hn1 & [= <- <-]).
    apply pruneBlocks_ID in Hn1 as Hid.
    apply IH in Hrest as (pruned & -> & Hids & Hsub & Hsup).
    exists (n1 :: pruned). split; [by rewrite <- app_assoc|].
    split; [cbn [map]; by rewrite Hid, Hids|].
    cbn [fst snd] in *. rewrite Hid in *. cbn [map list_to_set].
    destruct (isBreakOrContinue n1), parentNode as [parent|]; cbn in *;
      rewrite ?dom_increment, ?dom_insert_L in *; set_solver.
Qed.

(** The second loop succeeds only when every edge points to a counted
    node, and it counts no new node. *)
Lemma pruneCount_fold (edges : list Edge) (count count' : gmap string Z) :
  foldM pruneCount edges count = Ok count' →
  dom count' = dom count ∧ ∀ e, e ∈ edges → TargetNodeID e ∈ dom count.
Proof.
  revert count. induction edges as [|e edges IH]; intros count.
  - intros [= <-]. split; [done|]. intros e He. by apply elem_of_nil in He.
  - rewrite foldM_cons. intros (count1 & Hstep & Hrest)%bind_Ok.
    unfold pruneCount in Hstep.
    destruct (count !! TargetNodeID e) as [c|] eqn:Hc; [|done].
    injection Hstep as <-. apply IH in Hrest as [Hdom Hin].
    assert (dom (increment (TargetNodeID e) count) = dom count) as Hd.
    { rewrite dom_increment. apply elem_of_dom_2 in Hc. set_solver. }
    rewrite Hd in *. split; [done|].
    intros e' [->|He']%elem_of_cons; [|by apply Hin].
    by apply elem_of_dom_2 in Hc.
Qed.

Lemma pruneCount_Some (count : gmap string Z) (e : Edge) c :
  count !! TargetNodeID e = Some c →
  pruneCount count e = Ok (increment (TargetNodeID e) count).
Proof. unfold pruneCount. by intros ->. Qed.

Lemma pruneCount_None (count : gmap string Z) (e : Edge) :
  count !! TargetNodeID e = None →
  pruneCount count e =
  Panic (errorf ("node id " ++ TargetNodeID e ++
                 " not existed, but appears in the edge")).
Proof. unfold pruneCount. by intros ->. Qed.

Lemma pruneInit_flat (n : Node) acc count :
  Blocks n = [] ∨ Node_Edges n = [] →
  ∃ count', pruneInit pruneBlocks None (acc, count) n =
              Ok ((acc ++ [n])%list, count') ∧
            dom count' = {[ID n]} ∪ dom count.
Proof.
  intros Hn. unfold pruneInit. rewrite (pruneBlocks_flat n Hn). cbn.
  destruct (isBreakOrContinue n); eexists; (split; [reflexivity|]);
    apply dom_insert_L.
Qed.

Lemma pruneInit_flat_fold (nodes : list Node) :
  Forall (fun n => Blocks n = [] ∨ Node_Edges n = []) nodes →
  ∀ acc count, ∃ count',
    foldM (pruneInit pruneBlocks None) nodes (acc, count) =
      Ok ((acc ++ nodes)%list, count') ∧
    dom count' = dom count ∪ list_to_set (map ID nodes).
Proof.
  induction 1 as [|n nodes Hn _ IH]; intros acc count.
  - exists count. rewrite app_nil_r. split; [done|]. set_solver.
  - rewrite foldM_cons.
    destruct (pruneInit_flat n acc count Hn) as (count1 & -> & Hdom1).
    cbn. destruct (IH (acc ++ [n])%list count1) as (count' & -> & Hdom).
    exists count'. rewrite <- app_assoc. split; [done|].
    rewrite Hdom, Hdom1. set_solver.
Qed.

(** It panics at the first edge that points to an unknown node. *)
Lemma pruneCount_panic (edges : list Edge) (count : gmap string Z) :
  (∃ e, e ∈ edges ∧ (TargetNodeID e ∉ dom count)) →
  ∃ e, e ∈ edges ∧ (TargetNodeID e ∉ dom count) ∧
       foldM pruneCount edges count =
       Panic (errorf ("node id " ++ TargetNodeID e ++
                      " not existed, but appears in the edge")).
Proof.
  revert count. induction edges as [|e edges IH]; intros count (e0 & He0 & Hn).
  { by apply elem_of_nil in He0. }
  rewrite foldM_cons.
  destruct (count !! TargetNodeID e) as [c|] eqn:Hc.
  - rewrite (pruneCount_Some _ _ _ Hc).
    assert (dom (increment (TargetNodeID e) count) = dom count) as Hd.
    { rewrite dom_increment. apply elem_of_dom_2 in Hc. set_solver. }
    apply elem_of_cons in He0 as [->|He0].
    { exfalso. apply Hn. by apply elem_of_dom_2 in Hc. }
    destruct (IH (increment (TargetNodeID e) count)) as (e1 & He1 & Hn1 & Hp).
    { exists e0. by rewrite Hd. }
    exists e1. rewrite Hd in Hn1. split; [by right|]. split; [done|].
    cbn. exact Hp.
  - rewrite (pruneCount_None _ _ Hc).
    exists e. split; [by left|]. split; [|done].
    by apply not_elem_of_dom.
Qed.

(** When pruning at one level succeeds, the kept edges are a sublist of the
    edges and every edge points to a node of the level, to the parent or to
    the entry or exit key. *)
Lemma pruneLevel_Ok nodes edges parentNode connectedNodes connectedEdges :
  pruneLevel pruneBlocks nodes edges parentNode =
    Ok (connectedNodes, connectedEdges) →
  connectedEdges `sublist_of` edges ∧
  ∀ e, e ∈ edges →
       TargetNodeID e = entity.EntryNodeKey ∨
       TargetNodeID e = entity.ExitNodeKey ∨
       TargetNodeID e ∈ map ID nodes ∨
       Some (TargetNodeID e) = ID <$> parentNode.
Proof.
  unfold pruneLevel.
  intros ([nodes1 count1] & Hinit & Hrest)%bind_Ok.
  apply bind_Ok in Hrest as (count2 & Hcount & [= <- <-]).
  split; [apply sublist_filter|].
  apply pruneInit_fold in Hinit as (pruned & _ & _ & _ & Hsup).
  apply pruneCount_fold in Hcount as [_ Hin].
  intros e He. specialize (Hin e He).
  rewrite !dom_insert_L in Hin.
  destruct parentNode as [parent|]; cbn in *.
  - rewrite dom_singleton_L in Hsup.
    assert (TargetNodeID e ∈ ({[entity.ExitNodeKey]} : gset string) ∪
              {[entity.EntryNodeKey]} ∪ {[ID parent]} ∪
              list_to_set (map ID nodes)) as Hcases by set_solver.
    rewrite !elem_of_union, !elem_of_singleton, elem_of_list_to_set in Hcases.
    destruct Hcases as [[[->| ->]| ->]|?]; auto.
  - rewrite dom_empty_L in Hsup.
    assert (TargetNodeID e ∈ ({[entity.ExitNodeKey]} : gset string) ∪
              {[entity.EntryNodeKey]} ∪
              list_to_set (map ID nodes)) as Hcases by set_solver.
    rewrite !elem_of_union, !elem_of_singleton, elem_of_list_to_set in Hcases.
    destruct Hcases as [[->| ->]|?]; auto.
Qed.

(** On a canvas whose nodes are not composite, an edge to an unknown node
    makes pruning panic. *)
Lemma PruneIsolatedNodes_panic (nodes : list Node) (edges : list Edge) :
  Forall (fun n => Blocks n = [] ∨ Node_Edges n = []) nodes →
  (∃ e, e ∈ edges ∧ (TargetNodeID e ∉ map ID nodes) ∧
        TargetNodeID e ≠ entity.EntryNodeKey ∧
        TargetNodeID e ≠ entity.ExitNodeKey) →
  ∃ e, e ∈ edges ∧ (TargetNodeID e ∉ map ID nodes) ∧
       PruneIsolatedNodes nodes edges None =
       Panic (errorf ("node id " ++ TargetNodeID e ++
                      " not existed, but appears in the edge")).
Proof.
  intros Hflat (e0 & He0 & Hn0 & Hentry & Hexit).
  unfold PruneIsolatedNodes, pruneLevel.
  pose proof (pruneInit_flat_fold nodes Hflat) as Hinit.
  destruct (Hinit [] ∅) as (count1 & -> & Hdom). cbn.
  destruct (pruneCount_panic edges
              (<[entity.ExitNodeKey:=1]> (<[entity.EntryNodeKey:=1]> count1)))
    as (e & He & Hne & ->).
  { exists e0. split; [done|]. rewrite !dom_insert_L, Hdom, dom_empty_L.
    rewrite !elem_of_union, !elem_of_singleton, elem_of_list_to_set.
    intros [?|[?|[Hem|?]]]; [done|done| |done].
    by apply (not_elem_of_empty (C := gset string)) in Hem. }
  exists e. split; [done|]. split; [|done].
  intros Hin. apply Hne. rewrite !dom_insert_L, Hdom.
  rewrite !elem_of_union, elem_of_list_to_set. auto.
Qed.

End prune_facts.

(** ** The compiler as a whole *)

Section compile_facts.
Import vo adaptor Spec.
Context `{Env}.

(** [Init] leaves the serialised fields other than the nodes untouched. *)
Lemma Init_fields (w w' : schema.WorkflowSchema) :
  schema_ops.Init w = Ok w' →
  schema.Connections w' = schema.Connections w ∧
  schema.GeneratedNodes w' = schema.GeneratedNodes w ∧
  schema.Hierarchy w' = schema.Hierarchy w ∧
  schema.Branches w' = schema.Branches w.
Proof.
  destruct w as [nodes conns hier branches generated rt].
  cbn [schema_ops.Init]. destruct (schema.once rt); [by intros [= <-]|].
  intros ([[nodes' hr] brk] & _ & [= <-])%bind_Ok. done.
Qed.

Lemma recover_Ok {A} (m : outcome A) (a : A) : recover m = Ok a → m = Ok a.
Proof. by destruct m. Qed.

Lemma recover_no_panic {A} (m : outcome A) p : recover m ≠ Panic p.
Proof. by destruct m. Qed.

Lemma recover_not_Ok {A} (m : outcome A) :
  (∀ a, m ≠ Ok a) → ∃ err, recover m = Err err.
Proof.
  destruct m as [a|e|p]; intros Hm; [by destruct (Hm a)|by exists e|].
  by exists (NewPanicErr p).
Qed.

(** The steps that a successful compilation went through. *)
Lemma compile_Ok (s : Canvas) (sc : schema.WorkflowSchema) :
  CanvasToWorkflowSchema s = Ok sc →
  ∃ nodes edges sc0 nodeMap,
    PruneIsolatedNodes (Nodes s) (Edges s) None = Ok (nodes, edges) ∧
    foldM (compileNode {| Nodes := nodes; Edges := edges |}) nodes
          (schema.emptySchema, ∅) = Ok (sc0, nodeMap) ∧
    normalizePorts (schema.Connections sc0 ++ map EdgeToConnection edges)
                   nodeMap = Ok (schema.Connections sc) ∧
    schema.GeneratedNodes sc = schema.GeneratedNodes sc0.
Proof.
  intros Hc%recover_Ok. unfold compile in Hc.
  apply bind_Ok in Hc as ([nodes edges] & Hprune & Hc).
  apply bind_Ok in Hc as ([sc0 nodeMap] & Hfold & Hc).
  apply bind_Ok in Hc as (newConnections & Hnorm & Hc).
  apply bind_Ok in Hc as (branches & _ & Hc).
  apply Init_fields in Hc as (Hconn & Hgen & _).
  exists nodes, edges, sc0, nodeMap. cbn in *.
  rewrite Hconn, Hgen. done.
Qed.

(** Compilation fails when the loop over the nodes fails. *)
Lemma compile_not_Ok (s : Canvas) nodes edges :
  PruneIsolatedNodes (Nodes s) (Edges s) None = Ok (nodes, edges) →
  (∀ st, foldM (compileNode {| Nodes := nodes; Edges := edges |}) nodes
               (schema.emptySchema, ∅) ≠ Ok st) →
  ∃ err, CanvasToWorkflowSchema s = Err err.
Proof.
  intros Hprune Hfold. apply recover_not_Ok. intros sc Hc.
  unfold compile in Hc. rewrite Hprune in Hc. cbn in Hc.
  apply bind_Ok in Hc as (st & Hst & _). by apply Hfold in Hst.
Qed.

(** The loop over the blocks of a node only appends connections. *)
Lemma compileBlock_fold node blocks st st' :
  foldM (compileBlock node) blocks st = Ok st' →
  schema.GeneratedNodes st'.1 = schema.GeneratedNodes st.1 ∧
  schema.Nodes st'.1 = schema.Nodes st.1 ∧
  ∃ cs, schema.Connections st'.1 = (schema.Connections st.1 ++ cs)%list.
Proof.
  revert st. induction blocks as [|b blocks IH]; intros st.
  - intros [= <-]. split; [done|]. split; [done|]. exists [].
    by rewrite app_nil_r.
  - rewrite foldM_cons. intros (st1 & Hstep & Hrest)%bind_Ok.
    apply IH in Hrest as (Hg & Hn & cs & Hcs). rewrite Hg, Hn, Hcs.
    unfold compileBlock in Hstep.
    repeat match type of Hstep with
    | (if ?b then _ else _) = _ => destruct b; try discriminate Hstep
    end; injection Hstep as <-; cbn; (split; [done|]); (split; [done|]).
    + eexists. by rewrite <- app_assoc.
    + by exists cs.
Qed.

(** One step of the loop over the nodes, for a node in batch mode. *)
Lemma compileNode_batch (s : Canvas) st node parentN inner rest st' :
  parseBatchMode node = Ok (Some parentN, true) →
  Blocks parentN = inner :: rest →
  compileNode s st node = Ok st' →
  ∃ sc0 nsList hierarchy,
    foldM (compileBlock node) (Blocks node)
          (st.1, <[ID node := node]> st.2) = Ok (sc0, st'.2) ∧
    NodeToNodeSchema parentN s = Ok (nsList, hierarchy) ∧
    schema.GeneratedNodes st'.1 =
      (schema.GeneratedNodes sc0 ++ [ID inner])%list ∧
    schema.Nodes st'.1 = (schema.Nodes sc0 ++ nsList)%list ∧
    schema.Connections st'.1 =
      (schema.Connections sc0 ++
       map EdgeToConnection (Node_Edges parentN))%list.
Proof.
  intros Hbatch Hblocks. unfold compileNode.
  intros ([sc0 nodeMap] & Hfold & Hrest)%bind_Ok.
  rewrite Hbatch in Hrest. cbn in Hrest. rewrite Hblocks in Hrest.
  cbn in Hrest.
  apply bind_Ok in Hrest as ([nsList hierarchy] & Hns & [= <-]).
  exists sc0, nsList, hierarchy. done.
Qed.

(** One step of the loop over the nodes appends to the connections and to
    the generated nodes. *)
Lemma compileNode_appends (s : Canvas) st node st' :
  compileNode s st node = Ok st' →
  (∃ gs, schema.GeneratedNodes st'.1 =
         (schema.GeneratedNodes st.1 ++ gs)%list) ∧
  (∃ cs, schema.Connections st'.1 = (schema.Connections st.1 ++ cs)%list).
Proof.
  unfold compileNode. intros ([sc0 nodeMap] & Hfold & Hrest)%bind_Ok.
  apply compileBlock_fold in Hfold as (Hg & _ & cs0 & Hcs0). cbn in Hg, Hcs0.
  apply bind_Ok in Hrest as ([newNode enableBatch] & _ & Hrest).
  apply bind_Ok in Hrest as ([node1 sc1] & Hsc1 & Hrest).
  apply bind_Ok in Hrest as ([nsList hierarchy] & _ & [= <-]). cbn.
  destruct enableBatch.
  - apply bind_Ok in Hsc1 as (node2 & _ & Hsc1).
    destruct (Blocks node2) as [|inner ?]; [done|].
    injection Hsc1 as <- <-. cbn. rewrite Hg, Hcs0. split.
    + by eexists.
    + eexists. by rewrite <- app_assoc.
  - injection Hsc1 as <- <-. rewrite Hg, Hcs0. split.
    + exists []. by rewrite app_nil_r.
    + eexists. by rewrite <- app_assoc.
Qed.

Lemma compileNode_fold_appends (s : Canvas) nodes st st' :
  foldM (compileNode s) nodes st = Ok st' →
  (∃ gs, schema.GeneratedNodes st'.1 =
         (schema.GeneratedNodes st.1 ++ gs)%list) ∧
  (∃ cs, schema.Connections st'.1 = (schema.Connections st.1 ++ cs)%list).
Proof.
  revert st. induction nodes as [|n nodes IH]; intros st.
  - intros [= <-]. split; exists []; by rewrite app_nil_r.
  - rewrite foldM_cons. intros (st1 & Hstep & Hrest)%bind_Ok.
    apply compileNode_appends in Hstep as [[gs1 Hg1] [cs1 Hc1]].
    apply IH in Hrest as [[gs2 Hg2] [cs2 Hc2]].
    rewrite Hg2, Hg1, Hc2, Hc1, <- !app_assoc. split; by eexists.
Qed.

(** The loop over the nodes leaves the unexported fields as they are. *)
Lemma compileNode_runtime (s : Canvas) st node st' :
  compileNode s st node = Ok st' →
  schema.runtime st'.1 = schema.runtime st.1.
Proof.
  unfold compileNode. intros ([sc0 nodeMap] & Hfold & Hrest)%bind_Ok.
  assert (schema.runtime sc0 = schema.runtime st.1) as <-.
  { change sc0 with (sc0, nodeMap).1.
    apply (foldM_invariant (compileBlock node)
             (fun x => schema.runtime x.1 = schema.runtime st.1)
             (Blocks node) (st.1, <[ID node := node]> st.2)); [|done|done].
    intros x b x' Hb Hx. rewrite <- Hx. unfold compileBlock in Hb.
    repeat match type of Hb with
    | (if ?c then _ else _) = _ => destruct c; try discriminate Hb
    end; by injection Hb as <-. }
  apply bind_Ok in Hrest as ([newNode enableBatch] & _ & Hrest).
  apply bind_Ok in Hrest as ([node1 sc1] & Hsc1 & Hrest).
  apply bind_Ok in Hrest as ([nsList hierarchy] & _ & [= <-]). cbn.
  destruct enableBatch.
  - apply bind_Ok in Hsc1 as (node2 & _ & Hsc1).
    destruct (Blocks node2) as [|inner ?]; [done|]. by injection Hsc1 as <- <-.
  - by injection Hsc1 as <- <-.
Qed.

(** A compiled schema is a schema that [Init] has initialised, once. *)
Lemma CanvasToWorkflowSchema_Init (s : Canvas) (sc : schema.WorkflowSchema) :
  CanvasToWorkflowSchema s = Ok sc →
  ∃ w, schema.once (schema.runtime w) = false ∧ schema_ops.Init w = Ok sc.
Proof.
  intros Hc%recover_Ok. unfold compile in Hc.
  apply bind_Ok in Hc as ([nodes edges] & _ & Hc).
  apply bind_Ok in Hc as ([sc0 nodeMap] & Hfold & Hc).
  apply bind_Ok in Hc as (newConnections & _ & Hc).
  apply bind_Ok in Hc as (branches & _ & Hc).
  eexists. split; [|exact Hc]. cbn.
  change sc0 with (sc0, nodeMap).1.
  apply (foldM_invariant (compileNode {| Nodes := nodes; Edges := edges |})
           (fun x => schema.once (schema.runtime x.1) = false)
           nodes (schema.emptySchema, ∅)); [|done|done].
  intros x n x' Hn Hx. by rewrite (compileNode_runtime _ _ _ _ Hn).
Qed.

End compile_facts.

Section compile_claims.
Import vo adaptor Spec.
Context `{Env}.

(** A panic of the body comes back as an error. *)
Lemma CanvasToWorkflowSchema_panic (s : Canvas) p :
  compile s = Panic p → CanvasToWorkflowSchema s = Err (NewPanicErr p).
Proof. unfold CanvasToWorkflowSchema. by intros ->. Qed.

Lemma CanvasToWorkflowSchema_dangling (s : Canvas) :
  Forall flat (Nodes s) →
  (∃ e, e ∈ Edges s ∧ danglingTarget s e) →
  ∃ e, e ∈ Edges s ∧ (TargetNodeID e ∉ map ID (Nodes s)) ∧
       CanvasToWorkflowSchema s =
       Err (NewPanicErr (errorf ("node id " ++ TargetNodeID e ++
                                 " not existed, but appears in the edge"))).
Proof.
  intros Hflat (e0 & He0 & Hd).
  destruct (PruneIsolatedNodes_panic (Nodes s) (Edges s) Hflat)
    as (e & He & Hne & Hp); [by exists e0|].
  exists e. split; [done|]. split; [done|].
  apply CanvasToWorkflowSchema_panic. unfold compile. by rewrite Hp.
Qed.

(** In the loop over the nodes, a batch-mode node whose outputs are not one
    list of objects stops the compilation. *)
Lemma compileNode_reject (s : Canvas) node data inputs batchInfo :
  batchEnabled node data inputs batchInfo →
  (∀ v objV, ¬ oneListOfObject data v objV) →
  ∀ st st', compileNode s st node ≠ Ok st'.
Proof.
  intros Hb Hnot st st' Hc. unfold compileNode in Hc.
  apply bind_Ok in Hc as ([sc0 nodeMap] & _ & Hc).
  apply bind_Ok in Hc as (r & Hr & _).
  by eapply parseBatchMode_reject in Hr.
Qed.

Lemma batch_reject (s : Canvas) node data inputs batchInfo nodes edges :
  batchEnabled node data inputs batchInfo →
  (∀ v objV, ¬ oneListOfObject data v objV) →
  PruneIsolatedNodes (Nodes s) (Edges s) None = Ok (nodes, edges) →
  node ∈ nodes →
  ∃ err, CanvasToWorkflowSchema s = Err err.
Proof.
  intros Hb Hnot Hprune Hin. eapply compile_not_Ok; [done|].
  intros st. eapply foldM_not_Ok; [done|].
  by eapply compileNode_reject.
Qed.

(** The schema of a canvas with a batch-mode node lists the inner node as
    generated and joins parent and inner node in both directions. *)
Lemma batch_in_schema (s : Canvas) sc nodes edges node data inputs batchInfo
    meta v objV innerOutput :
  batchEnabled node data inputs batchInfo →
  Data_Meta data = Some meta →
  oneListOfObject data v objV →
  objectFields objV innerOutput →
  CanvasToWorkflowSchema s = Ok sc →
  PruneIsolatedNodes (Nodes s) (Edges s) None = Ok (nodes, edges) →
  node ∈ nodes →
  (∃ nsList hierarchy,
     NodeToNodeSchema
       (batchParent node batchInfo (Title meta) [batchOuterOutput node v objV]
          (batchInner node inputs (Title meta) innerOutput))
       {| Nodes := nodes; Edges := edges |} = Ok (nsList, hierarchy)) ∧
  ID node ++ "_inner" ∈ schema.GeneratedNodes sc ∧
  plainConnection (ID node) (ID node ++ "_inner") ∈ schema.Connections sc ∧
  plainConnection (ID node ++ "_inner") (ID node) ∈ schema.Connections sc.
Proof.
  intros Hb Hm Hout Hfields Hc Hprune Hin.
  pose proof (parseBatchMode_expand _ _ _ _ _ _ _ _ Hb Hm Hout Hfields)
    as Hparse.
  apply compile_Ok in Hc
    as (nodes' & edges' & sc0 & nodeMap & Hprune' & Hfold & Hnorm & Hgen).
  rewrite Hprune in Hprune'. injection Hprune' as <- <-.
  apply list_elem_of_split in Hin as (l1 & l2 & Hsplit).
  rewrite Hsplit in Hfold at 2.
  apply foldM_Ok_app in Hfold as (st1 & _ & Hfold).
  rewrite foldM_cons in Hfold. apply bind_Ok in Hfold as (st2 & Hstep & Hrest).
  eapply compileNode_batch in Hstep
    as (sc1 & nsList & hier & _ & Hns & Hg2 & _ & Hc2); [|done|reflexivity].
  apply compileNode_fold_appends in Hrest as [[gs Hgs] [cs Hcs]].
  cbn [fst] in Hgs, Hcs. rewrite Hg2 in Hgs. rewrite Hc2 in Hcs.
  split; [by exists nsList, hier|].
  split.
  { rewrite Hgen, Hgs. cbn [batchInner ID]. set_solver. }
  rewrite Hcs in Hnorm. rewrite batchParent_edges in Hnorm.
  apply mapM_Ok_app in Hnorm as (o1 & o2 & -> & Ho1 & _).
  apply mapM_Ok_app in Ho1 as (o3 & o4 & -> & Ho3 & _).
  apply mapM_Ok_app in Ho3 as (o5 & o6 & -> & _ & Ho6).
  pose proof (batchEdges_normalized (ID node) nodeMap) as Hbn.
  unfold normalizePorts in Hbn. rewrite Hbn in Ho6. injection Ho6 as <-.
  set_solver.
Qed.

(** On a compiled schema the streaming flag says whether a consumer is
    reachable from a producer. *)
Lemma compiled_RequireStreaming (s : Canvas) (sc : schema.WorkflowSchema) :
  CanvasToWorkflowSchema s = Ok sc →
  schema_ops.RequireStreaming sc = true ↔ streamPath sc.
Proof.
  intros (w & Honce & HInit)%CanvasToWorkflowSchema_Init.
  destruct (Init_requireStreaming w sc Honce HInit) as [_ ->].
  apply doRequireStreaming_spec.
Qed.

End compile_claims.

(** ** The domain service *)

Section service_facts.
Import vo service Spec.
Context `{Env}.

(** The flag computed for a save: inherited or reset. *)
Lemma calculateTestRunSuccess_spec (i : impl) (c : Canvas) (wid : Z)
    (flag : bool) :
  calculateTestRunSuccess i c wid = Ok flag →
  (∀ prev sc existedSc,
     adaptor.CanvasToWorkflowSchema c = Ok sc →
     previousCompiles i wid prev existedSc →
     schema_ops.IsEqual existedSc sc = true →
     flag = TestRunSuccess prev) ∧
  ((¬ ∃ prev sc existedSc,
        adaptor.CanvasToWorkflowSchema c = Ok sc ∧
        previousCompiles i wid prev existedSc ∧
        schema_ops.IsEqual existedSc sc = true) →
   flag = false).
Proof.
  unfold calculateTestRunSuccess, previousCompiles, previousDraft, decoded.
  intros Hcalc.
  destruct (adaptor.CanvasToWorkflowSchema c) as [sc|e|p] eqn:Hnew;
    [|injection Hcalc as <-|done].
  2:{ split; [intros ? ? ? [=]|done]. }
  destruct (DraftV2 (repo i) wid "") as [prev|err|p] eqn:Hprev; [| |done].
  2:{ destruct (errorsIs err ErrRecordNotFound); [|done].
      injection Hcalc as <-. split; [|done]. by intros ? ? ? _ [[=] _]. }
  destruct (adaptor.CanvasToWorkflowSchema
              (UnmarshalCanvas (Draft_Canvas prev)).1)
    as [existedSc|e|p] eqn:Hold; [|injection Hcalc as <-|done].
  2:{ split; [|done]. intros ? ? ? _ [[= <-] Hc]. congruence. }
  destruct (schema_ops.IsEqual existedSc sc) eqn:Heq; cbn in Hcalc;
    injection Hcalc as <-.
  - split; [|intros Hno; exfalso; apply Hno; eauto 10].
    intros prev' sc' existedSc' [= <-] [[= <-] Hc] _. done.
  - split; [|done].
    intros prev' sc' existedSc' [= <-] [[= <-] Hc] Heq'. congruence.
Qed.

(** What [Save] passes to the repository. *)
Lemma Save_draft (i : impl) (id id' : Z) (schema : string) (draft : DraftInfo) :
  Save i id schema = Ok (CreateOrUpdateDraft id' draft) →
  id' = id ∧ Draft_Canvas draft = schema ∧ Modified draft = true ∧
  calculateTestRunSuccess i (decoded schema) id = Ok (TestRunSuccess draft).
Proof.
  unfold Save, decoded.
  destruct (UnmarshalCanvas schema) as [canvas [err|]]; [done|].
  destruct (extractInputsAndOutputsNamedInfoList canvas) as [inputs outputs].
  destruct (MarshalNamedTypeInfos inputs); [|done|done].
  destruct (MarshalNamedTypeInfos outputs); [|done|done].
  intros (flag & Hflag & Hrest)%bind_Ok.
  destruct (GenID (repo i)); [|done|done].
  injection Hrest as <- <-. done.
Qed.

Lemma isIncremental_versionLt (old new : version) :
  isIncremental old new = true ↔ versionLt old new.
Proof.
  unfold isIncremental, versionLt.
  rewrite !orb_true_iff, !andb_true_iff, !orb_true_iff, !andb_true_iff,
    !N.ltb_lt, !N.eqb_eq. done.
Qed.

Lemma isIncremental_irrefl (v : version) : isIncremental v v = false.
Proof.
  apply not_true_iff_false. rewrite isIncremental_versionLt.
  unfold versionLt. lia.
Qed.

(** A version that is not strictly greater is rejected at once. *)
Lemma Publish_not_incremental (i : impl) (policy : PublishPolicy) meta latest
    old new :
  GetMeta (repo i) (Publish_ID policy) = Ok meta →
  LatestPublishedVersion meta = Some latest →
  parseVersion latest = Ok old →
  parseVersion (Publish_Version policy) = Ok new →
  isIncremental old new = false →
  Publish i policy = Err (notIncrementalErr latest (Publish_Version policy)).
Proof.
  intros Hmeta Hlatest Hold Hnew Hinc. unfold Publish.
  rewrite Hmeta. cbn. rewrite Hlatest, Hold. cbn. rewrite Hnew. cbn.
  by rewrite Hinc.
Qed.

(** The rest of [Publish], once the version check has passed. *)
Lemma Publish_after_check (i : impl) (policy : PublishPolicy) :
  (∃ meta, GetMeta (repo i) (Publish_ID policy) = Ok meta ∧
           match LatestPublishedVersion meta with
           | None => True
           | Some latest =>
               ∃ old new, parseVersion latest = Ok old ∧
                          parseVersion (Publish_Version policy) = Ok new ∧
                          isIncremental old new = true
           end) →
  (publishes i policy ↔ publishable i policy) ∧
  (Force policy = false →
   (∃ draft, DraftV2 (repo i) (Publish_ID policy) (Publish_CommitID policy) =
               Ok draft ∧ TestRunSuccess draft = false) →
   Publish i policy = Err (testRunRequiredErr (Publish_ID policy))).
Proof.
  intros (meta & Hmeta & Hcheck). unfold publishes, publishable, Publish.
  rewrite Hmeta. cbn.
  assert (match LatestPublishedVersion meta with
          | Some latest =>
              latestVersion ← parseVersion latest;
              currentVersion ← parseVersion (Publish_Version policy);
              if negb (isIncremental latestVersion currentVersion)
              then Err (notIncrementalErr latest (Publish_Version policy))
              else Ok ()
          | None => Ok ()
          end = Ok ()) as ->.
  { destruct (LatestPublishedVersion meta) as [latest|]; [|done].
    destruct Hcheck as (old & new & -> & Hnew & Hinc). cbn.
    rewrite Hnew. cbn. by rewrite Hinc. }
  cbn.
  destruct (DraftV2 (repo i) (Publish_ID policy) (Publish_CommitID policy))
    as [draft|e|p]; cbn.
  2,3: split; [split; [by intros (? & ? & ?)|by intros (? & ? & ? & _)]|];
       by intros _ (? & ? & _).
  split.
  - destruct (Force policy) eqn:Hforce, (TestRunSuccess draft) eqn:Htest; cbn.
    4:{ split; [by intros (? & ? & ?)|].
        intros (? & ? & [= <-] & [?|?] & _); congruence. }
    all: destruct (canvasToRefs (Publish_ID policy) (Draft_Canvas draft))
           as [refs|e|p] eqn:Hrefs; cbn.
    all: split; [intros (? & ? & Hp); try done
                |intros (? & ? & [= <-] & _ & Hr); try congruence].
    all: first [by exists draft, refs; auto | by eauto].
  - intros -> (? & [= <-] & ->). done.
Qed.

(** The names recorded in [vMap] are those of the declared outputs. *)
Lemma outputNames_fold (outputs : list Any) (acc vMap : gset string) :
  foldM (fun vMap o => v ← ParseVariable o; Ok ({[Var_Name v]} ∪ vMap))
        outputs acc = Ok vMap →
  ∀ name, name ∈ vMap ↔ name ∈ acc ∨ declares outputs name.
Proof.
  revert acc. induction outputs as [|o outputs IH]; intros acc.
  - intros [= <-] name. split; [by left|].
    intros [?|(? & ? & Ho & _)]; [done|]. by apply elem_of_nil in Ho.
  - rewrite foldM_cons. intros (acc1 & Hstep & Hrest)%bind_Ok.
    apply bind_Ok in Hstep as (v & Hv & [= <-]).
    intros name. rewrite (IH _ Hrest name), elem_of_union, elem_of_singleton.
    unfold declares. split.
    + intros [[->|?]|(o' & v' & ? & ? & ?)].
      * right. exists o, v. split; [by left|done].
      * by left.
      * right. exists o', v'. split; [by right|done].
    + intros [?|(o' & v' & [->|?]%elem_of_cons & Hv' & Hname)].
      * by left; right.
      * left; left. congruence.
      * right. exists o', v'. done.
Qed.

Lemma outputNames_spec (outputs : list Any) (vMap : gset string) :
  outputNames outputs = Ok vMap →
  ∀ name, name ∈ vMap ↔ declares outputs name.
Proof.
  intros Hnames name. rewrite (outputNames_fold _ _ _ Hnames). set_solver.
Qed.

(** The conditional appends: what is there stays, what is missing is put
    at the end. *)
Lemma chatFlowOutputs_spec (vMap : gset string) (outputs : list Any) :
  chatFlowOutputs vMap outputs =
  (outputs ++
   (if bool_decide (UserInputKey ∈ vMap) then [] else [anyOfVar userInputVar])
   ++ (if bool_decide (ConversationNameKey ∈ vMap) then []
       else [anyOfVar conversationNameVar]))%list.
Proof.
  unfold chatFlowOutputs.
  destruct (bool_decide (UserInputKey ∈ vMap)),
           (bool_decide (ConversationNameKey ∈ vMap)); cbn;
    by rewrite ?app_nil_r, <- ?app_assoc.
Qed.

(** The adapter rewrites the outputs of the first entry node only. *)
Lemma adaptStartNode_spec (nodes nodes' : list Node) :
  adaptStartNode nodes = Ok nodes' →
  ∃ before start rest data vMap,
    nodes = (before ++ start :: rest)%list ∧
    Forall (fun n => isEntry n = false) before ∧
    isEntry start = true ∧
    Node_Data start = Some data ∧
    outputNames (Outputs data) = Ok vMap ∧
    nodes' = (before ++
              setOutputs start data (chatFlowOutputs vMap (Outputs data))
              :: rest)%list.
Proof.
  revert nodes'. induction nodes as [|n nodes IH]; intros nodes'; [done|].
  cbn [adaptStartNode]. destruct (isEntry n) eqn:Hentry.
  - intros (data & Hdata & (vMap & HvMap & [= <-])%bind_Ok)%bind_Ok.
    exists [], n, nodes, data, vMap. destruct (Node_Data n); [|done].
    injection Hdata as ->. done.
  - intros (rest' & Hrest & [= <-])%bind_Ok.
    destruct (IH _ Hrest) as (before & start & rest & data & vMap & -> & Hb
                              & Hs & Hd & Hv & ->).
    exists (n :: before), start, rest, data, vMap.
    repeat split; try done. by constructor.
Qed.

(** The adapter ends with [Save] of the rewritten canvas. *)
Lemma adaptToChatFlow_Save (i : impl) (wID : Z) wfEntity info canvas nodes
    canvasStr :
  GetEntity (repo i)
    {| Policy_ID := wID; QType := FromDraft; Policy_Version := "" |} =
    Ok wfEntity →
  Workflow_CanvasInfo wfEntity = Some info →
  UnmarshalCanvas (Canvas_ info) = (canvas, None) →
  adaptStartNode (Nodes canvas) = Ok nodes →
  MarshalCanvas {| Nodes := nodes; Edges := Edges canvas |} = Ok canvasStr →
  adaptToChatFlow i wID = Save i wID canvasStr.
Proof.
  intros Hentity Hinfo Hcanvas Hnodes Hstr. unfold adaptToChatFlow.
  rewrite Hentity. cbn. rewrite Hinfo. cbn. rewrite Hcanvas, Hnodes. cbn.
  by rewrite Hstr.
Qed.

End service_facts.

(** ** The claims about schemas and about the service *)

Section schema_claims.
Import schema schema_ops Spec.
Context `{Env}.

(** Claim C1: [IsEqual] returns true exactly when the two schemas have the
    same set of connection IDs and their node maps, keyed by node key, agree
    node by node on the name and, deeply, on the configs, input types, input
    sources, output types, output sources, exception configs and sub-workflow
    basic; two schemas that differ from the given ones in other fields only
    get the same result. *)
Theorem IsEqual_execution_equivalence (w other : WorkflowSchema) :
  (IsEqual w other = true ↔ executionEquivalent w other) ∧
  (∀ w' other', sameCompared w w' → sameCompared other other' →
                IsEqual w' other' = IsEqual w other).
Proof.
  split; [apply IsEqual_iff|].
  intros w' other'. apply IsEqual_other_fields.
Qed.

(** Claim C4: on a schema that [Init] has initialised, [RequireStreaming]
    is true exactly when some consumer is reachable from some producer in the
    data-flow graph, whose edges run from the node that an input source
    refers to to the node that holds the input source; the empty path
    counts, and without producers or without consumers the result is
    false. *)
Theorem RequireStreaming_reachability (w w' : WorkflowSchema) :
  once (runtime w) = false →
  Init w = Ok w' →
  (RequireStreaming w' = true ↔ streamPath w') ∧
  (∀ node, node ∈ Nodes w' → isProducer node = true →
           isConsumer node = true → RequireStreaming w' = true) ∧
  ((∀ node, node ∈ Nodes w' → isProducer node = false) ∨
   (∀ node, node ∈ Nodes w' → isConsumer node = false) →
   RequireStreaming w' = false).
Proof.
  intros Honce HInit.
  destruct (Init_requireStreaming w w' Honce HInit) as [_ ->].
  split; [apply doRequireStreaming_spec|]. split.
  - intros node Hin Hp Hc. apply doRequireStreaming_spec.
    exists node, node. done.
  - intros Hnone. apply not_true_iff_false.
    rewrite doRequireStreaming_spec.
    intros (p & c & Hp & Hprod & Hc & Hcons & _).
    destruct Hnone as [Hnone|Hnone].
    + apply Hnone in Hp. congruence.
    + apply Hnone in Hc. congruence.
Qed.

End schema_claims.

Section service_claims.
Import vo service Spec.
Context `{Env}.

(** Claim C2: the draft that [Save] stores carries the canvas that was
    saved; its test-run flag is the flag of the previous draft when the new
    canvas compiles, a previous draft exists and compiles, and the two
    schemas are execution-equivalent, and it is false in every other case.
    So for every save, the previous draft did not compile, or the schemas
    differ, or the new flag is the previous one. *)
Theorem Save_test_run_success (i : impl) (id id' : Z) (canvas : string)
    (draft : DraftInfo) :
  Save i id canvas = Ok (CreateOrUpdateDraft id' draft) →
  id' = id ∧ Draft_Canvas draft = canvas ∧
  (∀ prev, inherits i id canvas prev →
           TestRunSuccess draft = TestRunSuccess prev) ∧
  ((∀ prev, ¬ inherits i id canvas prev) → TestRunSuccess draft = false) ∧
  ((∀ prev existedSc, ¬ previousCompiles i id prev existedSc) ∨
   schemasDiffer i id canvas ∨
   ∃ prev, previousDraft i id prev ∧
           TestRunSuccess draft = TestRunSuccess prev).
Proof.
  intros (-> & Hcanvas & _ & Hflag)%Save_draft.
  split; [done|]. split; [done|].
  apply calculateTestRunSuccess_spec in Hflag as [Hinherit Hreset].
  assert (Hin : ∀ prev, inherits i id canvas prev →
                        TestRunSuccess draft = TestRunSuccess prev).
  { intros prev (sc & existedSc & Hnew & Hprev & Heq).
    apply (Hinherit prev sc existedSc); [done|done|].
    by apply IsEqual_iff. }
  assert (Hout : (∀ prev, ¬ inherits i id canvas prev) →
                 TestRunSuccess draft = false).
  { intros Hno. apply Hreset.
    intros (prev & sc & existedSc & Hnew & Hprev & Heq). apply (Hno prev).
    exists sc, existedSc. split; [done|]. split; [done|].
    by apply IsEqual_iff. }
  split; [done|]. split; [done|].
  unfold schemasDiffer, previousCompiles, previousDraft in *.
  destruct (DraftV2 (repo i) id "") as [prev|e|p] eqn:Hprev.
  2,3: by left; intros ? ? [[=] _].
  destruct (adaptor.CanvasToWorkflowSchema (decoded (Draft_Canvas prev)))
    as [existedSc|e|p] eqn:Hold.
  2,3: left; intros ? ? [[= <-] Hc]; congruence.
  destruct (adaptor.CanvasToWorkflowSchema (decoded canvas))
    as [sc|e|p] eqn:Hnew.
  2,3: by right; left; exists prev, existedSc.
  destruct (schema_ops.IsEqual existedSc sc) eqn:Heq.
  - right; right. exists prev. split; [done|]. apply Hin.
    exists sc, existedSc. unfold previousCompiles, previousDraft.
    rewrite Hprev, Hold. split; [done|]. split; [done|]. by apply IsEqual_iff.
  - right; left. exists prev, existedSc. split; [done|].
    intros sc' [= <-] Hequiv%IsEqual_iff. congruence.
Qed.

(** Claim C3, as amended: when a version has been published and both
    version strings parse, a new version that is not strictly greater in the
    lexicographic order on (A, B, C) makes [Publish] return the error of
    the version check; no version is greater than itself.  When the new
    version is strictly greater, and also when nothing has been published
    yet, [Publish] goes on: it creates the version exactly when the draft is
    found, the draft passed its test run or the publication is forced, and
    the references of the canvas are computed, and it returns the error of
    the test-run gate for an unforced publication of a draft that has not
    passed its test run. *)
Theorem Publish_version_check (i : impl) (policy : PublishPolicy)
    (meta : Meta) :
  GetMeta (repo i) (Publish_ID policy) = Ok meta →
  (∀ latest old new,
     LatestPublishedVersion meta = Some latest →
     parseVersion latest = Ok old →
     parseVersion (Publish_Version policy) = Ok new →
     (isIncremental old new = true ↔ versionLt old new) ∧
     (¬ versionLt old new →
      Publish i policy =
      Err (notIncrementalErr latest (Publish_Version policy))) ∧
     (versionLt old new →
      (publishes i policy ↔ publishable i policy) ∧
      (Force policy = false →
       (∃ draft, DraftV2 (repo i) (Publish_ID policy)
                         (Publish_CommitID policy) = Ok draft ∧
                 TestRunSuccess draft = false) →
       Publish i policy = Err (testRunRequiredErr (Publish_ID policy))))) ∧
  (LatestPublishedVersion meta = None →
   (publishes i policy ↔ publishable i policy) ∧
   (Force policy = false →
    (∃ draft, DraftV2 (repo i) (Publish_ID policy)
                      (Publish_CommitID policy) = Ok draft ∧
              TestRunSuccess draft = false) →
    Publish i policy = Err (testRunRequiredErr (Publish_ID policy)))) ∧
  (∀ v, ¬ versionLt v v).
Proof.
  intros Hmeta. split; [|split].
  - intros latest old new Hlatest Hold Hnew.
    split; [apply isIncremental_versionLt|]. split.
    + intros Hnot. eapply Publish_not_incremental; try done.
      apply not_true_iff_false. by rewrite isIncremental_versionLt.
    + intros Hlt. apply Publish_after_check. exists meta. split; [done|].
      rewrite Hlatest. exists old, new.
      by rewrite isIncremental_versionLt.
  - intros Hnone. apply Publish_after_check. exists meta. split; [done|].
    by rewrite Hnone.
  - intros v. unfold versionLt. lia.
Qed.

End service_claims.

(** ** Hierarchy queries, connection IDs and node lookup *)

Section hierarchy_facts.
Import schema schema_more.

(** Property X1: being in the same workflow is an equivalence relation on
    node keys, for every hierarchy and for the nil map. *)
Theorem IsInSameWorkflow_equivalence (n : option (gmap string string)) :
  (∀ a, IsInSameWorkflow n a a = true) ∧
  (∀ a b, IsInSameWorkflow n a b = IsInSameWorkflow n b a) ∧
  (∀ a b c, IsInSameWorkflow n a b = true → IsInSameWorkflow n b c = true →
            IsInSameWorkflow n a c = true).
Proof.
  destruct n as [n|]; [|done]. unfold IsInSameWorkflow. split; [|split].
  - intros a. destruct (n !! a); [by apply bool_decide_eq_true_2|done].
  - intros a b. destruct (n !! a), (n !! b); try done.
    apply bool_decide_ext. naive_solver.
  - intros a b c. destruct (n !! a), (n !! b), (n !! c); try done.
    rewrite !bool_decide_eq_true. congruence.
Qed.

(** Property X2: the children of one parent are in the same workflow; a
    child of a parent that has no parent itself is one level below it, the
    parent is not one level below the child, and the two are not in the same
    workflow. *)
Theorem hierarchy_levels (n : option (gmap string string)) (p c : string) :
  IsParentOf n p c = true →
  (∀ c', IsParentOf n p c' = true → IsInSameWorkflow n c c' = true) ∧
  ((∀ q, IsParentOf n q p = false) →
   IsBelowOneLevel n c p = true ∧
   IsBelowOneLevel n p c = false ∧
   IsInSameWorkflow n c p = false).
Proof.
  destruct n as [n|]; [|done].
  unfold IsParentOf, IsBelowOneLevel, IsInSameWorkflow.
  destruct (n !! c) as [pc|] eqn:Hc; [|done].
  intros ->%bool_decide_eq_true. split.
  - intros c'. destruct (n !! c') as [pc'|]; [|done].
    intros ->%bool_decide_eq_true. by apply bool_decide_eq_true_2.
  - intros Htop. destruct (n !! p) as [pp|] eqn:Hp.
    { specialize (Htop pp). by rewrite bool_decide_eq_true_2 in Htop. }
    rewrite bool_decide_eq_true_2 by done.
    rewrite (bool_decide_eq_false_2 (is_Some None)) by (by intros [? ?]).
    done.
Qed.

Lemma append_String (ch : ascii) (a b : string) :
  String ch a ++ b = String ch (a ++ b).
Proof. reflexivity. Qed.

(** A string that holds a colon is not colon-free. *)
Lemma colonFree_app_colon (a r : string) :
  SpecMore.colonFree (a ++ String ":" r) = false.
Proof.
  induction a as [|ch a IH]; [done|].
  rewrite append_String. cbn [SpecMore.colonFree]. rewrite IH.
  apply andb_false_r.
Qed.

(** Two strings that start with colon-free parts followed by a colon split
    in one way only. *)
Lemma colon_split (a a' r r' : string) :
  SpecMore.colonFree a = true → SpecMore.colonFree a' = true →
  a ++ String ":" r = a' ++ String ":" r' → a = a' ∧ r = r'.
Proof.
  revert a'. induction a as [|ch a IH]; intros [|ch' a'];
    rewrite ?append_String; cbn [SpecMore.colonFree];
    change ("" ++ String ":" r) with (String ":" r);
    change ("" ++ String ":" r') with (String ":" r').
  - by intros _ _ [= ->].
  - intros _ [Hch _]%andb_true_iff [= <- _]. done.
  - intros [Hch _]%andb_true_iff _ [= -> _]. done.
  - intros [_ Ha]%andb_true_iff [_ Ha']%andb_true_iff [= -> Heq].
    destruct (IH a' Ha Ha' Heq) as [-> ->]. done.
Qed.

(** Property X3: on connections whose node keys hold no colon, the ID
    determines the connection: equal IDs mean equal end points and equal
    ports, and a connection with a port never has the ID of one without. *)
Theorem Connection_ID_injective (c1 c2 : Connection) :
  SpecMore.colonFree (FromNode c1) = true →
  SpecMore.colonFree (ToNode c1) = true →
  SpecMore.colonFree (FromNode c2) = true →
  SpecMore.colonFree (ToNode c2) = true →
  ID c1 = ID c2 → c1 = c2.
Proof.
  destruct c1 as [f1 t1 p1], c2 as [f2 t2 p2]. unfold ID.
  cbn [FromNode ToNode FromPort]. intros Hf1 Ht1 Hf2 Ht2 Heq.
  destruct p1 as [p1|], p2 as [p2|];
    repeat match type of Heq with
    | context [":" ++ ?x] => change (":" ++ x) with (String ":" x) in Heq
    end.
  - apply colon_split in Heq as [-> Heq]; [|done..].
    apply colon_split in Heq as [-> ->]; done.
  - apply colon_split in Heq as [-> Heq]; [|done..].
    rewrite <- Heq, colonFree_app_colon in Ht2. done.
  - apply colon_split in Heq as [-> Heq]; [|done..].
    rewrite Heq, colonFree_app_colon in Ht1. done.
  - apply colon_split in Heq as [-> ->]; done.
Qed.

End hierarchy_facts.

Section lookup_facts.
Import schema schema_ops schema_more.
Context `{Env}.

(** Property X4: before [Init] has run, [GetNode] finds no node at all;
    on the schema that [Init] returns it finds, for a key, the last node of
    [Nodes] with that key, and nothing exactly when no node has the key. *)
Theorem GetNode_lookup (w w' : WorkflowSchema) :
  once (runtime w) = false →
  Init w = Ok w' →
  (∀ key, GetNode w key = None) ∧
  (∀ key, GetNode w' key = last (filter (fun n => Key n = key) (Nodes w'))) ∧
  (∀ key, GetNode w' key = None ↔ key ∉ map Key (Nodes w')) ∧
  (∀ key node, GetNode w' key = Some node → node ∈ Nodes w' ∧ Key node = key).
Proof.
  intros Honce HInit.
  destruct (Init_requireStreaming w w' Honce HInit) as [Honce' _].
  unfold GetNode. rewrite Honce, Honce'. split; [done|].
  assert (Hlast : ∀ key, nodeMapOf (Nodes w') !! key =
                         last (filter (fun n => Key n = key) (Nodes w')))
    by (intros key; apply nodeMapOf_lookup).
  split; [done|]. split.
  - intros key. rewrite Hlast, last_None. split.
    + intros Hnil (node & -> & Hin)%list_elem_of_fmap.
      assert (node ∈ filter (fun n => Key n = Key node) (Nodes w')) as Hf
        by (by apply list_elem_of_filter).
      rewrite Hnil in Hf. by apply elem_of_nil in Hf.
    + intros Hno. destruct (filter _ _) as [|node l] eqn:Hf; [done|].
      assert (node ∈ filter (fun n => Key n = key) (Nodes w')) as Hin
        by (rewrite Hf; by left).
      apply list_elem_of_filter in Hin as [<- Hin]. destruct Hno.
      apply list_elem_of_fmap. by exists node.
  - intros key node. rewrite Hlast. intros Hl.
    assert (node ∈ filter (fun n => Key n = key) (Nodes w')) as Hin.
    { apply last_Some in Hl as [l ->]. apply elem_of_app. right. by left. }
    apply list_elem_of_filter in Hin as [? ?]. done.
Qed.

End lookup_facts.

(** ** What [Init] derives *)

Section Init_more.
Import schema schema_ops schema_more SpecMore Spec.
Context `{Env}.

(** [Init] runs [initNodes] over the nodes, once. *)
Lemma Init_unfold (w : WorkflowSchema) :
  Init w =
  if once (runtime w) then Ok w
  else
    '(nodes', hr, brk) ← initNodes (Nodes w) 0;
    Ok {| Nodes := nodes';
          Connections := Connections w;
          Hierarchy := Hierarchy w;
          Branches := Branches w;
          GeneratedNodes := GeneratedNodes w;
          runtime := {| once := true;
                        requireCheckPoint :=
                          requireCheckPoint (runtime w) || brk;
                        requireStreaming := doRequireStreamingOf nodes';
                        historyRounds := hr |} |}.
Proof.
  destruct w as [nodes conns hier branches generated rt].
  cbn [Init Nodes Connections Hierarchy Branches GeneratedNodes runtime].
  destruct (once rt); [reflexivity|].
  match goal with
  | |- mbind _ (?loop nodes 0) = _ =>
      assert (Hloop : ∀ ns rounds, loop ns rounds = initNodes ns rounds)
  end.
  { induction ns as [|node ns IH]; intros rounds; [reflexivity|].
    destruct node as [key ty name cfg it isrc ot osrc ec sc sb sub].
    cbn [initNodes initSub NodeConfigs].
    destruct (decide (ty = NodeTypeSubWorkflow)) as [Hty|Hty].
    - destruct sub as [s|]; [|reflexivity].
      destruct (Init s) as [s'| |]; [|reflexivity..]. cbn.
      destruct (requireCheckPoint (runtime s')); [reflexivity|].
      destruct (asChatHistoryAware cfg) as [[[] r]|];
        destruct (asRequireCheckpoint cfg) as [[]|]; try reflexivity;
        by rewrite IH.
    - cbn. destruct (asChatHistoryAware cfg) as [[[] r]|];
        destruct (asRequireCheckpoint cfg) as [[]|]; try reflexivity;
        by rewrite IH. }
  by rewrite Hloop.
Qed.

(** A schema that [Init] returns has been initialised. *)
Lemma Init_done (w w' : WorkflowSchema) :
  Init w = Ok w' → once (runtime w') = true.
Proof.
  rewrite Init_unfold. destruct (once (runtime w)) eqn:Honce.
  - by intros [= <-].
  - intros ([[nodes' hr] brk] & _ & [= <-])%bind_Ok. reflexivity.
Qed.

(** The first statement of the loop body. *)
Lemma initSub_spec (node node' : NodeSchema) (rounds hr : Z) (brk : bool) :
  initSub node rounds = Ok (node', hr, brk) →
  comparedFields node' = comparedFields node ∧
  Type_ node' = Type_ node ∧
  StreamConfigs node' = StreamConfigs node ∧
  (Type_ node ≠ NodeTypeSubWorkflow →
   node' = node ∧ hr = rounds ∧ brk = false) ∧
  (Type_ node = NodeTypeSubWorkflow →
   ∃ s', SubWorkflowSchema node' = Some s' ∧
         once (runtime s') = true ∧
         hr = Z.max rounds (historyRounds (runtime s')) ∧
         brk = requireCheckPoint (runtime s')).
Proof.
  destruct node as [key ty name cfg it isrc ot osrc ec sc sb sub].
  cbn [initSub Type_]. destruct (decide (ty = NodeTypeSubWorkflow)) as [Hty|Hty].
  - destruct sub as [s|]; [|done].
    intros (s' & Hs' & [= <- <- <-])%bind_Ok.
    do 3 (split; [reflexivity|]). split; [done|]. intros _.
    exists s'. split; [reflexivity|]. split; [by eapply Init_done|done].
  - intros [= <- <- <-]. do 3 (split; [reflexivity|]). split; [done|].
    done.
Qed.

(** What the loop of [Init] returns. *)
Lemma initNodes_spec (nodes nodes' : list NodeSchema) (rounds hr : Z)
    (brk : bool) :
  initNodes nodes rounds = Ok (nodes', hr, brk) →
  map comparedFields nodes' = map comparedFields nodes ∧
  map (fun n => (Type_ n, StreamConfigs n)) nodes' =
    map (fun n => (Type_ n, StreamConfigs n)) nodes ∧
  rounds ≤ hr ∧
  (brk = true ↔ ∃ node, node ∈ nodes' ∧ requiresCheckpoint node) ∧
  (hr = rounds ∨ ∃ node, node ∈ nodes' ∧ roundsOf node hr) ∧
  (brk = false →
   (∀ node r, node ∈ nodes' → roundsOf node r → r ≤ hr) ∧
   (∀ node, node ∈ nodes' → Type_ node = NodeTypeSubWorkflow →
            ∃ s, SubWorkflowSchema node = Some s ∧
                 once (runtime s) = true)).
Proof.
  revert nodes' rounds hr brk.
  induction nodes as [|node nodes IH]; intros nodes' rounds hr brk.
  { intros [= <- <- <-]. do 2 (split; [done|]). split; [lia|].
    split; [|split; [by left|]].
    - split; [done|]. by intros (? & ?%elem_of_nil & _).
    - intros _. split; [intros node r Hin|intros node Hin];
        by apply elem_of_nil in Hin. }
  cbn [initNodes].
  intros ([[node1 hr1] brk1] & Hsub & Hrest)%bind_Ok.
  apply initSub_spec in Hsub as (Hcmp & Hty & Hsc & Hplain & Hsubwf).
  assert (Hcfg : NodeConfigs node1 = NodeConfigs node).
  { unfold comparedFields in Hcmp. by injection Hcmp. }
  assert (Hhr1 : rounds ≤ hr1 ∧
                 (hr1 = rounds ∨ roundsOf node1 hr1) ∧
                 (brk1 = true → requiresCheckpoint node1) ∧
                 (brk1 = false →
                  ¬ (Type_ node1 = NodeTypeSubWorkflow ∧
                     ∃ s, SubWorkflowSchema node1 = Some s ∧
                          requireCheckPoint (runtime s) = true)) ∧
                 (∀ r, (Type_ node1 = NodeTypeSubWorkflow ∧
                        ∃ s, SubWorkflowSchema node1 = Some s ∧
                             historyRounds (runtime s) = r) → r ≤ hr1) ∧
                 (Type_ node1 = NodeTypeSubWorkflow →
                  ∃ s, SubWorkflowSchema node1 = Some s ∧
                       once (runtime s) = true)).
  { destruct (decide (Type_ node = NodeTypeSubWorkflow)) as [Hsw|Hsw].
    - destruct (Hsubwf Hsw) as (s' & Hs' & Honce & -> & ->).
      split; [lia|]. split; [|split; [|split; [|split]]].
      + destruct (Z.max_spec rounds (historyRounds (runtime s')))
          as [[_ Hm]|[_ Hm]]; rewrite Hm; [right|by left].
        left. split; [congruence|]. by exists s'.
      + intros Hb. left. split; [congruence|]. by exists s'.
      + intros Hb (_ & s & Hs & Hreq). congruence.
      + intros r (_ & s & Hs & <-). assert (s = s') as -> by congruence. lia.
      + intros _. by exists s'.
    - destruct (Hplain Hsw) as (-> & -> & ->).
      split; [lia|]. split; [by left|]. split; [done|].
      split; [by intros _ [? _]|]. split; [by intros r [? _]|done]. }
  destruct Hhr1 as (Hle1 & Hatt1 & Hbrk1 & Hnobrk1 & Hsubmax & Hinit1).
  destruct brk1.
  { injection Hrest as <- <- <-. cbn [map]. rewrite Hcmp, Hty, Hsc.
    do 2 (split; [done|]). split; [done|]. split; [|split; [|done]].
    - split; [|done]. intros _. exists node1. split; [by left|auto].
    - destruct Hatt1 as [?|?]; [by left|]. right. exists node1.
      split; [by left|done]. }
  set (hr2 := match asChatHistoryAware (NodeConfigs node) with
              | Some (true, r) => Z.max hr1 r
              | _ => hr1
              end) in Hrest.
  assert (Hhr2 : hr1 ≤ hr2 ∧
                 (hr2 = hr1 ∨ asChatHistoryAware (NodeConfigs node1) =
                              Some (true, hr2)) ∧
                 (∀ r, asChatHistoryAware (NodeConfigs node1) = Some (true, r) →
                       r ≤ hr2)).
  { subst hr2. rewrite Hcfg.
    destruct (asChatHistoryAware (NodeConfigs node)) as [[[] r]|];
      [|by split; [lia|split; [by left|done]]..].
    split; [lia|]. split.
    - destruct (Z.max_spec hr1 r) as [[_ ->]|[_ ->]]; [by right|by left].
    - intros r' [= <-]. lia. }
  destruct Hhr2 as (Hle2 & Hatt2 & Hmax2). clearbody hr2.
  assert (Hatt : hr2 = rounds ∨ roundsOf node1 hr2).
  { destruct Hatt2 as [->|Hc]; [done|]. right. by right. }
  destruct (asRequireCheckpoint (NodeConfigs node)) as [[]|] eqn:Hrc.
  { injection Hrest as <- <- <-. cbn [map]. rewrite Hcmp, Hty, Hsc.
    do 2 (split; [done|]). split; [lia|]. split; [|split; [|done]].
    - split; [|done]. intros _. exists node1. split; [by left|].
      right. by rewrite Hcfg.
    - destruct Hatt as [?|?]; [by left|]. right. exists node1.
      split; [by left|done]. }
  all: apply bind_Ok in Hrest as ([[rest' hr'] brk'] & Hrec & [= <- <- <-]);
    apply IH in Hrec as (IHcmp & IHty & IHle & IHbrk & IHatt & IHmax);
    cbn [map]; rewrite Hcmp, Hty, Hsc, IHcmp, IHty;
    (do 2 (split; [done|])); (split; [lia|]); split; [|split].
  all: try (destruct IHatt as [->|(n & Hn & Hr)];
            [destruct Hatt as [?|?]; [by left|];
             right; exists node1; split; [by left|done]
            |right; exists n; split; [by right|done]]).
  all: try (rewrite IHbrk; split;
            [intros (n & Hn & Hr); exists n; split; [by right|done]
            |intros (n & [->|Hn]%elem_of_cons & Hr); [|by exists n];
             destruct Hr as [Hr|Hr]; [by destruct Hnobrk1|];
             rewrite Hcfg in Hr; congruence]).
  all: intros Hb; destruct (IHmax Hb) as [IHm IHs]; split.
  all: try (intros n r [->|Hn]%elem_of_cons Hr;
            [destruct Hr as [Hr|Hr];
             [apply Hsubmax in Hr|apply Hmax2 in Hr]; lia
            |by apply (IHm n r)]).
  all: intros n [->|Hn]%elem_of_cons Hsw; [by apply Hinit1|by apply IHs].
Qed.

(** What [Init] yields on a schema that has not been initialised. *)
Lemma Init_fresh (w w' : WorkflowSchema) :
  once (runtime w) = false → Init w = Ok w' →
  ∃ hr brk,
    initNodes (Nodes w) 0 = Ok (Nodes w', hr, brk) ∧
    RequireCheckpoint w' = requireCheckPoint (runtime w) || brk ∧
    HistoryRounds w' = hr.
Proof.
  intros Honce. rewrite Init_unfold, Honce.
  intros ([[nodes' hr] brk] & Hloop & [= <-])%bind_Ok. by exists hr, brk.
Qed.

(** Property X5: after [Init], the schema requires a checkpoint exactly
    when it did before or one of its nodes does: a sub-workflow node whose
    embedded schema requires one, or a node whose configuration says so. *)
Theorem RequireCheckpoint_spec (w w' : WorkflowSchema) :
  once (runtime w) = false →
  Init w = Ok w' →
  RequireCheckpoint w' = true ↔
  requireCheckPoint (runtime w) = true ∨
  ∃ node, node ∈ Nodes w' ∧ requiresCheckpoint node.
Proof.
  intros Honce HInit.
  destruct (Init_fresh w w' Honce HInit) as (hr & brk & Hloop & -> & _).
  apply initNodes_spec in Hloop as (_ & _ & _ & Hbrk & _).
  rewrite orb_true_iff, Hbrk. done.
Qed.

(** Property X6: after [Init], the history rounds are not negative; they
    are zero or the rounds that one of the nodes asks for; and when no node
    requires a checkpoint they are at least the rounds of every node: of its
    embedded sub-workflow schema or of its chat-history configuration. *)
Theorem HistoryRounds_spec (w w' : WorkflowSchema) :
  once (runtime w) = false →
  Init w = Ok w' →
  0 ≤ HistoryRounds w' ∧
  (HistoryRounds w' = 0 ∨
   ∃ node, node ∈ Nodes w' ∧ roundsOf node (HistoryRounds w')) ∧
  ((∀ node, node ∈ Nodes w' → ¬ requiresCheckpoint node) →
   ∀ node r, node ∈ Nodes w' → roundsOf node r → r ≤ HistoryRounds w').
Proof.
  intros Honce HInit.
  destruct (Init_fresh w w' Honce HInit) as (hr & brk & Hloop & _ & ->).
  apply initNodes_spec in Hloop as (_ & _ & Hle & Hbrk & Hatt & Hmax).
  split; [done|]. split; [done|]. intros Hnone.
  destruct brk.
  - destruct Hbrk as [Hbrk _]. destruct Hbrk as (node & Hin & Hreq); [done|].
    by apply Hnone in Hreq.
  - by destruct Hmax.
Qed.

(** Property X7: [Init] is idempotent, and it changes nothing but the
    derived flags and the embedded sub-workflow schemas: the connections,
    the hierarchy, the branches and the generated nodes stay, and so do the
    keys, names, configurations, types, sources, exception configs, stream
    configs and sub-workflow basics of the nodes. *)
Theorem Init_idempotent (w w' : WorkflowSchema) :
  Init w = Ok w' →
  Init w' = Ok w' ∧
  Connections w' = Connections w ∧
  Hierarchy w' = Hierarchy w ∧
  Branches w' = Branches w ∧
  GeneratedNodes w' = GeneratedNodes w ∧
  map comparedFields (Nodes w') = map comparedFields (Nodes w) ∧
  map (fun n => (Type_ n, StreamConfigs n)) (Nodes w') =
    map (fun n => (Type_ n, StreamConfigs n)) (Nodes w).
Proof.
  intros HInit. split; [by apply Init_once, (Init_done w)|].
  rewrite Init_unfold in HInit. destruct (once (runtime w)).
  - by injection HInit as <-.
  - apply bind_Ok in HInit as ([[nodes' hr] brk] & Hloop & [= <-]).
    apply initNodes_spec in Hloop as (Hcmp & Hty & _). done.
Qed.

(** Property X8: initialising two schemas does not change whether they are
    execution-equivalent. *)
Theorem IsEqual_Init (w w' other other' : WorkflowSchema) :
  Init w = Ok w' → Init other = Ok other' →
  IsEqual w' other' = IsEqual w other.
Proof.
  intros Hw Ho.
  assert (Hsame : ∀ x x', Init x = Ok x' → sameCompared x x').
  { intros x x' Hx.
    assert (Connections x' = Connections x ∧
            map comparedFields (Nodes x') = map comparedFields (Nodes x))
      as [Hc Hn].
    { rewrite Init_unfold in Hx. destruct (once (runtime x)).
      - by injection Hx as <-.
      - apply bind_Ok in Hx as ([[nodes' hr] brk] & Hloop & [= <-]).
        apply initNodes_spec in Hloop as (Hcmp & _). done. }
    split; [by rewrite Hc|done]. }
  apply IsEqual_other_fields; by apply Hsame.
Qed.

(** Property X9: when [Init] ends without requiring a checkpoint, every
    sub-workflow node holds an embedded schema, and that schema has been
    initialised too. *)
Theorem Init_sub_workflows (w w' : WorkflowSchema) :
  once (runtime w) = false →
  Init w = Ok w' →
  RequireCheckpoint w' = false →
  ∀ node, node ∈ Nodes w' → Type_ node = NodeTypeSubWorkflow →
          ∃ s, SubWorkflowSchema node = Some s ∧ once (runtime s) = true.
Proof.
  intros Honce HInit Hrc.
  destruct (Init_fresh w w' Honce HInit) as (hr & brk & Hloop & Hreq & _).
  rewrite Hreq in Hrc. apply orb_false_iff in Hrc as [_ ->].
  apply initNodes_spec in Hloop as (_ & _ & _ & _ & _ & Hmax).
  by destruct Hmax.
Qed.

End Init_more.

(** ** Isolation pruning of a level of plain nodes *)

Section prune_more.
Import vo adaptor Spec SpecMore.
Context `{Env}.

Lemma hits_nonneg (edges : list Edge) (k : string) : 0 ≤ hits edges k.
Proof. unfold hits. lia. Qed.

Lemma hits_cons (e : Edge) (edges : list Edge) (k : string) :
  hits (e :: edges) k =
  (if bool_decide (TargetNodeID e = k) then 1 else 0) + hits edges k.
Proof.
  unfold hits. rewrite filter_cons. case_bool_decide as Hk.
  - rewrite decide_True by done. cbn [length]. lia.
  - rewrite decide_False by done. lia.
Qed.

Lemma hits_pos (edges : list Edge) (k : string) :
  0 < hits edges k ↔ targeted edges k.
Proof.
  unfold hits, targeted. split.
  - intros Hpos. destruct (filter _ edges) as [|e l] eqn:Hf; [cbn in Hpos; lia|].
    assert (e ∈ filter (fun e => TargetNodeID e = k) edges) as Hin
      by (rewrite Hf; by left).
    apply list_elem_of_filter in Hin as [? ?]. by exists e.
  - intros (e & Hin & Hk).
    assert (e ∈ filter (fun e => TargetNodeID e = k) edges) as Hf
      by (by apply list_elem_of_filter).
    destruct (filter _ edges); [by apply elem_of_nil in Hf|cbn; lia].
Qed.

Lemma pruneInit_flat_step (n : Node) acc count :
  flat n →
  pruneInit pruneBlocks None (acc, count) n =
  Ok ((acc ++ [n])%list, <[ID n := 0]> count).
Proof.
  intros Hn. unfold pruneInit. rewrite (pruneBlocks_flat n Hn). cbn.
  by destruct (isBreakOrContinue n).
Qed.

(** The first loop on plain nodes at the top level: every node gets the
    counter zero. *)
Lemma pruneInit_flat_count (nodes : list Node) :
  Forall flat nodes →
  ∀ acc count,
    foldM (pruneInit pruneBlocks None) nodes (acc, count) =
    Ok ((acc ++ nodes)%list, foldl (fun c n => <[ID n := 0]> c) count nodes).
Proof.
  induction 1 as [|n nodes Hn _ IH]; intros acc count.
  - by rewrite app_nil_r.
  - rewrite foldM_cons, (pruneInit_flat_step n acc count Hn). cbn.
    rewrite IH, <- app_assoc. reflexivity.
Qed.

Lemma zero_counters_lookup (nodes : list Node) (count : gmap string Z) k :
  foldl (fun c n => <[ID n := 0]> c) count nodes !! k =
  if bool_decide (k ∈ map ID nodes) then Some 0 else count !! k.
Proof.
  revert count. induction nodes as [|n nodes IH]; intros count.
  - cbn. by rewrite bool_decide_eq_false_2 by apply not_elem_of_nil.
  - cbn [foldl map]. rewrite IH. case_bool_decide as Hk.
    + by rewrite bool_decide_eq_true_2 by (by right).
    + destruct (decide (k = ID n)) as [->|Hne].
      * rewrite bool_decide_eq_true_2 by (by left). by rewrite lookup_insert_eq.
      * rewrite lookup_insert_ne by done.
        rewrite bool_decide_eq_false_2; [done|].
        by intros [?|?]%elem_of_cons.
Qed.

(** The second loop: when every target has a counter, each counter grows
    by the number of edges that point to its key. *)
Lemma pruneCount_fold_count (edges : list Edge) (count : gmap string Z) :
  (∀ e, e ∈ edges → TargetNodeID e ∈ dom count) →
  ∃ count', foldM pruneCount edges count = Ok count' ∧
            ∀ k, count' !! k = (fun v => v + hits edges k) <$> count !! k.
Proof.
  revert count. induction edges as [|e edges IH]; intros count Hknown.
  - exists count. split; [done|]. intros k. unfold hits. cbn.
    destruct (count !! k); cbn; [f_equal; lia|done].
  - rewrite foldM_cons.
    destruct (count !! TargetNodeID e) as [c|] eqn:Hc.
    2:{ apply not_elem_of_dom in Hc. destruct Hc. apply Hknown. by left. }
    rewrite (pruneCount_Some _ _ _ Hc). cbn.
    destruct (IH (increment (TargetNodeID e) count)) as (count' & -> & Hcount).
    { intros e' He'. rewrite dom_increment. apply elem_of_union. right.
      apply Hknown. by right. }
    exists count'. split; [done|]. intros k. rewrite Hcount, hits_cons.
    unfold increment. case_bool_decide as Hk.
    + subst k. rewrite lookup_insert_eq, Hc. cbn. f_equal. lia.
    + rewrite lookup_insert_ne by done. destruct (count !! k); cbn; [|done].
      f_equal; lia.
Qed.

(** Pruning a level of plain nodes whose edges have known targets. *)
Lemma prune_flat_Ok (nodes : list Node) (edges : list Edge) :
  Forall flat nodes →
  targetsKnown nodes edges →
  ∃ nodes' edges',
    PruneIsolatedNodes nodes edges None = Ok (nodes', edges') ∧
    nodes' `sublist_of` nodes ∧
    edges' `sublist_of` edges ∧
    (∀ n, n ∈ nodes' ↔ n ∈ nodes ∧ connected edges (ID n)) ∧
    (∀ e, e ∈ edges' ↔ e ∈ edges ∧ liveSource nodes edges e).
Proof.
  intros Hflat Hknown. unfold PruneIsolatedNodes, pruneLevel.
  rewrite (pruneInit_flat_count nodes Hflat). cbn.
  set (count1 := foldl (fun c n => <[ID n := 0]> c) ∅ nodes).
  set (count2 := <[entity.ExitNodeKey:=1]> (<[entity.EntryNodeKey:=1]> count1)).
  assert (Hc2 : ∀ k, count2 !! k =
                     if bool_decide (k = entity.ExitNodeKey) then Some 1
                     else if bool_decide (k = entity.EntryNodeKey) then Some 1
                     else if bool_decide (k ∈ map ID nodes) then Some 0
                     else None).
  { intros k. unfold count2. case_bool_decide as Hexit.
    { subst k. by rewrite lookup_insert_eq. }
    rewrite lookup_insert_ne by done. case_bool_decide as Hentry.
    { subst k. by rewrite lookup_insert_eq. }
    rewrite lookup_insert_ne by done. unfold count1.
    by rewrite zero_counters_lookup, lookup_empty. }
  destruct (pruneCount_fold_count edges count2) as (count3 & -> & Hc3).
  { intros e He. apply elem_of_dom. rewrite Hc2.
    destruct (Hknown e He) as [Hin|[->| ->]];
      repeat case_bool_decide; first [done | by eexists]. }
  cbn. clearbody count2. clear count1.
  set (isolated := dom (filter (fun kv : string * Z => kv.2 = 0) count3)).
  assert (Hiso : ∀ k, k ∈ isolated ↔
                      k ∈ map ID nodes ∧ ¬ connected edges k).
  { intros k. unfold isolated.
    rewrite elem_of_dom. unfold is_Some.
    setoid_rewrite map_lookup_filter_Some. cbn [snd].
    rewrite Hc3, Hc2. pose proof (hits_nonneg edges k) as Hnn.
    pose proof (hits_pos edges k) as Hpos. unfold connected.
    repeat case_bool_decide; cbn; split.
    all: try (intros (v & [= <-] & Hv); lia).
    all: try (intros [Hin Hnot]; exfalso; apply Hnot; auto; fail).
    all: try (by intros (v & [=] & _)).
    all: try (by intros [? _]).
    - intros (v & [= <-] & Hv). split; [done|].
      intros [?|[?|Ht]]; [done|done|]. apply Hpos in Ht. lia.
    - intros [_ Hnot]. exists 0. split; [|done]. f_equal.
      destruct (decide (0 < hits edges k)) as [Hlt|Hle]; [|lia].
      destruct Hnot. right; right. by apply Hpos. }
  do 2 eexists. split; [reflexivity|].
  split; [apply sublist_filter|]. split; [apply sublist_filter|]. split.
  - intros n. rewrite list_elem_of_filter, Hiso. split.
    + intros [Hnot Hin]. split; [done|].
      assert (Hid : ID n ∈ map ID nodes)
        by (apply list_elem_of_fmap; by exists n).
      pose proof (hits_pos edges (ID n)) as Hpos.
      pose proof (hits_nonneg edges (ID n)) as Hnn. unfold connected.
      destruct (decide (ID n = entity.EntryNodeKey)); [by left|].
      destruct (decide (ID n = entity.ExitNodeKey)); [by right; left|].
      destruct (decide (0 < hits edges (ID n))) as [Hlt|Hle].
      { right; right. by apply Hpos. }
      destruct Hnot. split; [done|]. intros [?|[?|Ht]]; [done|done|].
      apply Hpos in Ht. lia.
    + intros [Hin Hconn]. split; [|done]. by intros [_ Hnot].
  - intros e. rewrite list_elem_of_filter, Hiso. unfold liveSource. split.
    + intros [Hnot Hin]. split; [done|]. intros Hsrc.
      pose proof (hits_pos edges (SourceNodeID e)) as Hpos.
      unfold connected.
      destruct (decide (SourceNodeID e = entity.EntryNodeKey)); [by left|].
      destruct (decide (SourceNodeID e = entity.ExitNodeKey));
        [by right; left|].
      destruct (decide (0 < hits edges (SourceNodeID e))) as [Hlt|Hle].
      { right; right. by apply Hpos. }
      destruct Hnot. split; [done|]. intros [?|[?|Ht]]; [done|done|].
      apply Hpos in Ht. lia.
    + intros [Hin Hlive]. split; [|done]. intros [Hsrc Hnot]. auto.
Qed.

(** The second loop ends with the counters or with a panic. *)
Lemma pruneCount_no_Err (edges : list Edge) (count : gmap string Z) err :
  foldM pruneCount edges count ≠ Err err.
Proof.
  revert count. induction edges as [|e edges IH]; intros count; [done|].
  rewrite foldM_cons. destruct (count !! TargetNodeID e) as [c|] eqn:Hc.
  - rewrite (pruneCount_Some _ _ _ Hc). apply IH.
  - by rewrite (pruneCount_None _ _ Hc).
Qed.

(** Property X10: on a level of plain nodes whose edges all point to a node
    or to the entry or exit key, isolation pruning keeps, in order, exactly
    the nodes whose ID is the entry key, the exit key or the target of some
    edge, and exactly the edges whose source is not a dropped node.  Nodes
    with the entry or exit key are always kept, and pruning is a single
    pass: the target of a dropped edge is kept. *)
Theorem PruneIsolatedNodes_keeps (nodes : list Node) (edges : list Edge) :
  Forall flat nodes →
  targetsKnown nodes edges →
  ∃ nodes' edges',
    PruneIsolatedNodes nodes edges None = Ok (nodes', edges') ∧
    nodes' `sublist_of` nodes ∧
    edges' `sublist_of` edges ∧
    (∀ n, n ∈ nodes' ↔ n ∈ nodes ∧ connected edges (ID n)) ∧
    (∀ e, e ∈ edges' ↔ e ∈ edges ∧ liveSource nodes edges e) ∧
    (∀ n, n ∈ nodes →
          ID n = entity.EntryNodeKey ∨ ID n = entity.ExitNodeKey →
          n ∈ nodes') ∧
    (∀ e n, e ∈ edges → n ∈ nodes → ID n = TargetNodeID e → n ∈ nodes').
Proof.
  intros Hflat Hknown.
  destruct (prune_flat_Ok nodes edges Hflat Hknown)
    as (nodes' & edges' & Hp & Hsn & Hse & Hn & He).
  exists nodes', edges'. do 5 (split; [done|]). split.
  - intros n Hin Hkey. apply Hn. split; [done|]. unfold connected.
    destruct Hkey; auto.
  - intros e n Hine Hinn Hid. apply Hn. split; [done|].
    right; right. by exists e.
Qed.

(** Property X11: on a level of plain nodes, isolation pruning returns
    exactly when every edge points to a node of the level or to the entry
    or exit key; otherwise it panics, and it never returns an error. *)
Theorem PruneIsolatedNodes_total (nodes : list Node) (edges : list Edge) :
  Forall flat nodes →
  ((∃ r, PruneIsolatedNodes nodes edges None = Ok r) ↔
   targetsKnown nodes edges) ∧
  (∀ err, PruneIsolatedNodes nodes edges None ≠ Err err) ∧
  (¬ targetsKnown nodes edges →
   ∃ p, PruneIsolatedNodes nodes edges None = Panic p).
Proof.
  intros Hflat.
  assert (Hok : (∃ r, PruneIsolatedNodes nodes edges None = Ok r) ↔
                targetsKnown nodes edges).
  { split.
    - intros [[nodes' edges'] Hp] e He.
      apply pruneLevel_Ok in Hp as [_ Ht].
      destruct (Ht e He) as [?|[?|[?|?]]]; [auto..|done].
    - intros Hknown.
      destruct (prune_flat_Ok nodes edges Hflat Hknown)
        as (nodes' & edges' & Hp & _). by eexists. }
  assert (Herr : ∀ err, PruneIsolatedNodes nodes edges None ≠ Err err).
  { intros err. unfold PruneIsolatedNodes, pruneLevel.
    rewrite (pruneInit_flat_count nodes Hflat). cbn.
    match goal with
    | |- mbind _ ?m ≠ _ => destruct m as [c|e|p] eqn:Hm
    end; [done| |done].
    by apply pruneCount_no_Err in Hm. }
  split; [done|]. split; [done|]. intros Hnot.
  destruct (PruneIsolatedNodes nodes edges None) as [r|e|p] eqn:Hp.
  - destruct Hnot. apply Hok. by exists r.
  - by destruct (Herr e).
  - by exists p.
Qed.

End prune_more.

(** ** Node schemas, exception configs and the compiled schema *)

Section node_more.
Import vo adaptor adaptor_more Spec SpecMore.
Context `{Env}.

(** [NodeToNodeSchema] runs [childSchemas] over the blocks. *)
Lemma NodeToNodeSchema_unfold (n : Node) (c : Canvas) :
  NodeToNodeSchema n c =
  let et := IDStrToNodeType (Type_ n) in
  if decide (et = NodeTypeSubWorkflow) then
    ns ← toSubWorkflowNodeSchema n;
    ec ← toExceptionConfig n (schema.Type_ ns);
    Ok ([setExceptionConfigs ns ec], ∅)
  else
    match GetNodeAdaptor et with
    | Some na =>
        ns ← na n c;
        ec ← toExceptionConfig n (schema.Type_ ns);
        if (0 <? length (Blocks n))%nat then
          '(allNS, hierarchy) ← childSchemas c (ID n) (Blocks n) ([], ∅);
          Ok ((allNS ++ [setExceptionConfigs ns ec])%list, hierarchy)
        else Ok ([setExceptionConfigs ns ec], ∅)
    | None =>
        if decide (et = NodeTypeComment) then Ok ([], ∅)
        else Err (errorf ("unsupported block type: " ++ Type_ n))
    end.
Proof.
  destruct n as [id ty data blocks edges].
  cbn [NodeToNodeSchema Type_ Blocks ID].
  destruct (decide (IDStrToNodeType ty = NodeTypeSubWorkflow)); [reflexivity|].
  destruct (GetNodeAdaptor (IDStrToNodeType ty)) as [na|]; [|reflexivity].
  destruct (na _ c) as [ns| |]; [|reflexivity..]. cbn.
  destruct (toExceptionConfig _ (schema.Type_ ns)) as [ec| |];
    [|reflexivity..]. cbn.
  assert (Hloop : ∀ l acc,
    (fix children (l : list Node)
         (acc : list schema.NodeSchema * gmap string string) {struct l}
       : outcome (list schema.NodeSchema * gmap string string) :=
       match l with
       | [] => Ok acc
       | childN :: l' =>
           '(childNS, _) ← NodeToNodeSchema childN c;
           children l' ((acc.1 ++ childNS)%list, <[ID childN := id]> acc.2)
       end) l acc = childSchemas c id l acc).
  { induction l as [|b l IH]; intros acc; [reflexivity|].
    cbn [childSchemas].
    destruct (NodeToNodeSchema b c) as [[childNS h]| |]; [|reflexivity..].
    cbn. apply IH. }
  destruct blocks as [|b0 bs]; [reflexivity|].
  cbn [length Nat.ltb Nat.leb childSchemas].
  destruct (NodeToNodeSchema b0 c) as [[childNS h]| |]; [|reflexivity..].
  cbn. by rewrite Hloop.
Qed.

(** The loop over the blocks maps the ID of every block to the ID of the
    composite node. *)
Lemma childSchemas_hierarchy (c : Canvas) (id : string) (l : list Node)
    acc allNS hierarchy :
  childSchemas c id l acc = Ok (allNS, hierarchy) →
  (∀ k p, hierarchy !! k = Some p ↔
          (k ∈ map ID l ∧ p = id) ∨
          ((k ∉ map ID l) ∧ acc.2 !! k = Some p)) ∧
  ∃ childNS, allNS = (acc.1 ++ childNS)%list.
Proof.
  revert acc. induction l as [|b l IH]; intros acc.
  - intros [= ->]. split.
    + intros k p. split; [|by intros [[?%elem_of_nil _]|[_ ?]]].
      intros Hk. right. split; [apply not_elem_of_nil|done].
    + exists []. by rewrite app_nil_r.
  - cbn [childSchemas].
    intros ([childNS h] & Hb & Hrest)%bind_Ok.
    apply IH in Hrest as [Hh [rest ->]]. cbn [fst snd] in *. split.
    + intros k p. rewrite Hh. cbn [map]. rewrite elem_of_cons. split.
      * intros [[Hin ->]|[Hnot Hk]]; [left; auto|].
        destruct (decide (k = ID b)) as [->|Hne].
        -- rewrite lookup_insert_eq in Hk. injection Hk as <-. left. auto.
        -- rewrite lookup_insert_ne in Hk by done. right. split; [|done].
           by intros [?|?].
      * intros [[[->|Hin] ->]|[Hnot Hk]].
        -- destruct (decide (ID b ∈ map ID l)); [left; auto|].
           right. split; [done|]. by rewrite lookup_insert_eq.
        -- left; auto.
        -- right. split; [by intros ?; apply Hnot; right|].
           rewrite lookup_insert_ne; [done|]. intros <-. apply Hnot. by left.
    + exists (childNS ++ rest)%list. by rewrite app_assoc.
Qed.

(** Property X12: for a node with a registered adaptor that is no
    sub-workflow node, the hierarchy that [NodeToNodeSchema] returns maps
    exactly the IDs of the blocks of the node, each to the ID of the node
    (it is empty for a node without blocks), and the schema of the node
    itself, as the adaptor built it, is the last of the schemas returned. *)
Theorem NodeToNodeSchema_hierarchy (n : Node) (c : Canvas) na nsList hierarchy :
  IDStrToNodeType (Type_ n) ≠ NodeTypeSubWorkflow →
  GetNodeAdaptor (IDStrToNodeType (Type_ n)) = Some na →
  NodeToNodeSchema n c = Ok (nsList, hierarchy) →
  (∀ k p, hierarchy !! k = Some p ↔ k ∈ map ID (Blocks n) ∧ p = ID n) ∧
  ∃ ns ec childNS,
    na n c = Ok ns ∧
    toExceptionConfig n (schema.Type_ ns) = Ok ec ∧
    nsList = (childNS ++ [setExceptionConfigs ns ec])%list ∧
    (Blocks n = [] → childNS = []).
Proof.
  intros Hsw Hna. rewrite NodeToNodeSchema_unfold. cbn zeta.
  rewrite decide_False by done. rewrite Hna.
  intros (ns & Hns & (ec & Hec & Hrest)%bind_Ok)%bind_Ok.
  destruct (Blocks n) as [|b blocks] eqn:Hblocks; cbn [length Nat.ltb Nat.leb] in Hrest.
  - injection Hrest as <- <-. split.
    + intros k p. rewrite lookup_empty. split; [done|].
      by intros [?%elem_of_nil _].
    + exists ns, ec, []. done.
  - apply bind_Ok in Hrest as ([allNS h] & Hchildren & [= <- <-]).
    apply childSchemas_hierarchy in Hchildren as [Hh [childNS ->]].
    split.
    + intros k p. rewrite Hh. cbn [snd]. rewrite lookup_empty. naive_solver.
    + exists ns, ec, childNS. done.
Qed.

(** Property X13: an exception config that [toExceptionConfig] returns
    never asks for default data without holding any; it is none exactly for
    a node without error settings whose type has no default timeout; and
    error settings win over the default timeout of the node type. *)
Theorem toExceptionConfig_result (n : Node) (nType : NodeType)
    (ec : option schema.ExceptionConfig) :
  toExceptionConfig n nType = Ok ec →
  (∀ conf, ec = Some conf →
           schema.Exception_ProcessType conf =
             Some ErrorProcessTypeReturnDefaultData →
           schema.Exception_DataOnErr conf ≠ "") ∧
  (ec = None ↔
   NodeMetaByNodeType nType = Some 0 ∧
   ∀ data inputs, Node_Data n = Some data → Data_Inputs data = Some inputs →
                  Inputs_SettingOnError inputs = None) ∧
  (∀ data inputs setting conf,
     Node_Data n = Some data → Data_Inputs data = Some inputs →
     Inputs_SettingOnError inputs = Some setting → ec = Some conf →
     schema.TimeoutMS conf = TimeoutMs setting ∧
     schema.MaxRetry conf = RetryTimes setting ∧
     schema.Exception_DataOnErr conf = DataOnErr setting).
Proof.
  unfold toExceptionConfig.
  intros (data & Hdata & (timeout & Hmeta & Hrest)%bind_Ok)%bind_Ok.
  destruct (Node_Data n) as [data'|]; [|done]. injection Hdata as ->.
  destruct (NodeMetaByNodeType nType) as [t|]; [|done]. injection Hmeta as ->.
  destruct (Data_Inputs data) as [inputs|] eqn:Hinputs.
  2:{ destruct (Z.eqb_spec timeout 0) as [->|Hne]; injection Hrest as <-.
      - split; [done|]. split; [|intros; simplify_eq].
        split; [|done]. intros _. split; [done|]. intros; simplify_eq.
      - split; [by intros conf [= <-]|]. split; [|intros; simplify_eq].
        split; [done|]. intros [? _]. simplify_eq. }
  destruct (Inputs_SettingOnError inputs) as [setting|] eqn:Hsetting.
  2:{ destruct (Z.eqb_spec timeout 0) as [->|Hne]; injection Hrest as <-.
      - split; [done|]. split; [|intros; simplify_eq].
        split; [|done]. intros _. split; [done|]. intros; by simplify_eq.
      - split; [by intros conf [= <-]|]. split; [|intros; simplify_eq].
        split; [done|]. intros [? _]. simplify_eq. }
  destruct (bool_decide (ProcessType setting =
                         Some ErrorProcessTypeReturnDefaultData) &&
            (String.length (DataOnErr setting) =? 0)%nat) eqn:Hbad; [done|].
  injection Hrest as <-. split; [|split].
  - intros conf [= <-]. cbn. intros Hpt Hempty. rewrite Hempty in *.
    cbn in *. rewrite andb_true_r in Hbad.
    destruct (ProcessType setting) as [t'|]; [|done].
    rewrite bool_decide_eq_true_2 in Hbad; done.
  - split; [done|]. intros [_ Hno].
    specialize (Hno data inputs eq_refl Hinputs). congruence.
  - intros d i s conf ? ? ? ?. by simplify_eq.
Qed.

End node_more.

(** ** More on the compiled schema *)

Section compile_more.
Import vo adaptor schema_more Spec SpecMore.
Context `{Env}.

(** A property that the steps on the elements of the list keep. *)
Lemma foldM_invariant_in {A S} (body : S → A → outcome S) (P : S → Prop)
    (l : list A) (s s' : S) :
  (∀ s a s', a ∈ l → body s a = Ok s' → P s → P s') →
  P s → foldM body l s = Ok s' → P s'.
Proof.
  revert s. induction l as [|a l IH]; intros s Hstep Hs.
  - by intros [= <-].
  - rewrite foldM_cons. intros (s1 & Hs1 & Hrest)%bind_Ok.
    apply (IH s1); [|by eapply Hstep; [left|..]|done].
    intros s2 b s3 Hb. apply Hstep. by right.
Qed.

(** A block with blocks or edges of its own stops the loop over the
    blocks. *)
Lemma compileBlock_nested (node subNode : Node) st st' :
  Blocks subNode ≠ [] ∨ Node_Edges subNode ≠ [] →
  compileBlock node st subNode ≠ Ok st'.
Proof.
  unfold compileBlock. intros Hnested.
  destruct (Blocks subNode) as [|b bs]; cbn; [|done].
  destruct (Node_Edges subNode) as [|e es]; cbn; [|done].
  by destruct Hnested.
Qed.

(** Property X14: inner workflows do not nest: when a top-level node that
    pruning keeps has a block with blocks or edges of its own, the canvas
    does not compile; [CanvasToWorkflowSchema] returns an error. *)
Theorem nested_blocks_rejected (s : Canvas) (nodes : list Node)
    (edges : list Edge) (node subNode : Node) :
  PruneIsolatedNodes (Nodes s) (Edges s) None = Ok (nodes, edges) →
  node ∈ nodes →
  subNode ∈ Blocks node →
  Blocks subNode ≠ [] ∨ Node_Edges subNode ≠ [] →
  ∃ err, CanvasToWorkflowSchema s = Err err.
Proof.
  intros Hprune Hnode Hsub Hnested. eapply compile_not_Ok; [done|].
  intros st. eapply foldM_not_Ok; [done|].
  intros st1 st2 Hc. unfold compileNode in Hc.
  apply bind_Ok in Hc as ([sc0 nodeMap] & Hfold & _).
  eapply foldM_not_Ok in Hfold; [done|done|].
  intros x x'. by apply compileBlock_nested.
Qed.

(** The loop over the blocks appends the connection of every break and
    continue block. *)
Lemma compileBlock_fold_break (node subNode : Node) blocks st st' :
  foldM (compileBlock node) blocks st = Ok st' →
  subNode ∈ blocks →
  Type_ subNode = IDStr NodeTypeBreak ∨
  Type_ subNode = IDStr NodeTypeContinue →
  plainConnection (ID subNode) (ID node) ∈ schema.Connections st'.1.
Proof.
  intros Hfold Hin Hty.
  apply list_elem_of_split in Hin as (l1 & l2 & ->).
  apply foldM_Ok_app in Hfold as (st1 & _ & Hfold).
  rewrite foldM_cons in Hfold. apply bind_Ok in Hfold as (st2 & Hstep & Hrest).
  apply compileBlock_fold in Hrest as (_ & _ & cs & ->).
  apply elem_of_app. left. unfold compileBlock in Hstep.
  destruct (0 <? length (Blocks subNode))%nat; [done|].
  destruct (0 <? length (Node_Edges subNode))%nat; [done|].
  assert (bool_decide (Type_ subNode = IDStr NodeTypeBreak) ||
          bool_decide (Type_ subNode = IDStr NodeTypeContinue) = true) as Hb.
  { apply orb_true_iff. destruct Hty; [left|right];
      by apply bool_decide_eq_true_2. }
  rewrite Hb in Hstep. injection Hstep as <-. cbn.
  apply elem_of_app. right. by left.
Qed.

(** One step of the loop over the nodes: the loop over the blocks, then
    more connections. *)
Lemma compileNode_blocks (s : Canvas) st node st' :
  compileNode s st node = Ok st' →
  ∃ sc0 nodeMap cs,
    foldM (compileBlock node) (Blocks node) (st.1, <[ID node := node]> st.2) =
      Ok (sc0, nodeMap) ∧
    schema.Connections st'.1 = (schema.Connections sc0 ++ cs)%list.
Proof.
  unfold compileNode. intros ([sc0 nodeMap] & Hfold & Hrest)%bind_Ok.
  exists sc0, nodeMap.
  apply bind_Ok in Hrest as ([newNode enableBatch] & _ & Hrest).
  apply bind_Ok in Hrest as ([node1 sc1] & Hsc1 & Hrest).
  apply bind_Ok in Hrest as ([nsList hierarchy] & _ & [= <-]). cbn.
  destruct enableBatch.
  - apply bind_Ok in Hsc1 as (node2 & _ & Hsc1).
    destruct (Blocks node2) as [|inner ?]; [done|].
    injection Hsc1 as <- <-. cbn. by eexists.
  - injection Hsc1 as <- <-. by eexists.
Qed.

(** Property X15: in a compiled schema, every break or continue block of a
    top-level node that pruning keeps is joined to that node by a connection
    without port. *)
Theorem break_connection (s : Canvas) (sc : schema.WorkflowSchema)
    (nodes : list Node) (edges : list Edge) (node subNode : Node) :
  CanvasToWorkflowSchema s = Ok sc →
  PruneIsolatedNodes (Nodes s) (Edges s) None = Ok (nodes, edges) →
  node ∈ nodes →
  subNode ∈ Blocks node →
  Type_ subNode = IDStr NodeTypeBreak ∨
  Type_ subNode = IDStr NodeTypeContinue →
  plainConnection (ID subNode) (ID node) ∈ schema.Connections sc.
Proof.
  intros Hc Hprune Hnode Hsub Hty.
  apply compile_Ok in Hc
    as (nodes' & edges' & sc0 & nodeMap & Hprune' & Hfold & Hnorm & _).
  rewrite Hprune in Hprune'. injection Hprune' as <- <-.
  apply list_elem_of_split in Hnode as (l1 & l2 & Hsplit).
  rewrite Hsplit in Hfold at 2.
  apply foldM_Ok_app in Hfold as (st1 & _ & Hfold).
  rewrite foldM_cons in Hfold. apply bind_Ok in Hfold as (st2 & Hstep & Hrest).
  apply compileNode_blocks in Hstep as (sc1 & nodeMap1 & cs1 & Hblocks & Hcs1).
  pose proof (compileBlock_fold_break _ _ _ _ _ Hblocks Hsub Hty) as Hin.
  cbn [fst] in Hin.
  apply compileNode_fold_appends in Hrest as [_ [cs2 Hcs2]].
  cbn [fst] in Hcs2.
  assert (plainConnection (ID subNode) (ID node) ∈
          (schema.Connections sc0 ++ map EdgeToConnection edges)%list) as Hall.
  { rewrite Hcs2, Hcs1. set_solver. }
  apply list_elem_of_split in Hall as (c1 & c2 & Hall). rewrite Hall in Hnorm.
  apply mapM_Ok_app in Hnorm as (o1 & o2 & -> & _ & Ho2).
  rewrite mapM_cons in Ho2. apply bind_Ok in Ho2 as (b & Hb & Ho2).
  apply bind_Ok in Ho2 as (bs & _ & [= <-]).
  injection Hb as <-. set_solver.
Qed.

(** Property X16: a schema that the compiler returns has been initialised:
    [Init] leaves it as it is, [GetNode] finds the last node with a key, the
    streaming flag tells whether a consumer is reachable from a producer,
    and the branches are those built from the connections of the schema. *)
Theorem compiled_schema_initialised (s : Canvas) (sc : schema.WorkflowSchema) :
  CanvasToWorkflowSchema s = Ok sc →
  schema.once (schema.runtime sc) = true ∧
  schema_ops.Init sc = Ok sc ∧
  (∀ key, GetNode sc key =
          last (filter (fun n => schema.Key n = key) (schema.Nodes sc))) ∧
  (schema_ops.RequireStreaming sc = true ↔ streamPath sc) ∧
  BuildBranches (schema.Connections sc) = Ok (schema.Branches sc).
Proof.
  intros Hc.
  destruct (CanvasToWorkflowSchema_Init s sc Hc) as (w & Honce & HInit).
  pose proof (Init_done w sc HInit) as Hdone.
  split; [done|]. split; [by apply Init_once|]. split.
  { intros key. unfold GetNode. rewrite Hdone. apply nodeMapOf_lookup. }
  split; [by eapply compiled_RequireStreaming|].
  apply recover_Ok in Hc. unfold compile in Hc.
  apply bind_Ok in Hc as ([nodes edges] & _ & Hc).
  apply bind_Ok in Hc as ([sc0 nodeMap] & _ & Hc).
  apply bind_Ok in Hc as (newConnections & _ & Hc).
  apply bind_Ok in Hc as (branches & Hbranches & Hc).
  apply Init_fields in Hc as (-> & _ & _ & ->). done.
Qed.

(** Property X17: the generated nodes of a compiled schema are exactly the
    inner keys of the top-level nodes, kept by pruning, for which
    [parseBatchMode] builds a batch parent; [IsGeneratedNodeForBatchMode]
    recognises each of them as generated from its node. *)
Theorem generated_nodes_spec (s : Canvas) (sc : schema.WorkflowSchema)
    (nodes : list Node) (edges : list Edge) (key : string) :
  CanvasToWorkflowSchema s = Ok sc →
  PruneIsolatedNodes (Nodes s) (Edges s) None = Ok (nodes, edges) →
  key ∈ schema.GeneratedNodes sc ↔
  ∃ n parentN, n ∈ nodes ∧
               parseBatchMode n = Ok (Some parentN, true) ∧
               key = GenerateNodeIDForBatchMode (ID n) ∧
               IsGeneratedNodeForBatchMode key (ID n) = true.
Proof.
  intros Hc Hprune.
  apply compile_Ok in Hc
    as (nodes' & edges' & sc0 & nodeMap & Hprune' & Hfold & _ & ->).
  rewrite Hprune in Hprune'. injection Hprune' as <- <-. split.
  - revert key.
    set (P := fun st : schema.WorkflowSchema * gmap string Node =>
                ∀ key, key ∈ schema.GeneratedNodes st.1 →
                  ∃ n parentN, n ∈ nodes ∧
                    parseBatchMode n = Ok (Some parentN, true) ∧
                    key = GenerateNodeIDForBatchMode (ID n) ∧
                    IsGeneratedNodeForBatchMode key (ID n) = true).
    change (P (sc0, nodeMap)).
    apply (foldM_invariant_in
             (compileNode {| Nodes := nodes; Edges := edges |}) P nodes
             (schema.emptySchema, ∅) (sc0, nodeMap));
      [|by intros key ?%elem_of_nil|exact Hfold].
    unfold P. intros st n st' Hn Hstep IH key Hkey.
    unfold compileNode in Hstep.
    apply bind_Ok in Hstep as ([sc1 nodeMap1] & Hblocks & Hstep).
    apply compileBlock_fold in Hblocks as (Hg & _). cbn [fst] in Hg.
    apply bind_Ok in Hstep as ([newNode enableBatch] & Hparse & Hstep).
    apply bind_Ok in Hstep as ([node1 sc2] & Hsc2 & Hstep).
    apply bind_Ok in Hstep as ([nsList hierarchy] & _ & [= <-]).
    cbn [fst appendConnections appendNodes schema.GeneratedNodes] in Hkey.
    destruct enableBatch.
    + apply bind_Ok in Hsc2 as (node2 & Hnode2 & Hsc2).
      destruct newNode as [parentN|]; [|done]. injection Hnode2 as <-.
      destruct (parseBatchMode_result _ _ _ Hparse)
        as [[[=] _]|(parentN' & inner & [= <-] & _ & Hbl & _ & Hid & _)].
      rewrite Hbl in Hsc2. injection Hsc2 as <- <-.
      cbn [appendGeneratedNode schema.GeneratedNodes] in Hkey.
      rewrite Hg in Hkey. apply elem_of_app in Hkey as [Hkey|Hkey].
      * by apply IH.
      * apply list_elem_of_singleton in Hkey as ->.
        exists n, parentN. split; [done|]. split; [done|].
        split; [done|]. rewrite Hid. unfold IsGeneratedNodeForBatchMode.
        by apply bool_decide_eq_true_2.
    + injection Hsc2 as <- <-. rewrite Hg in Hkey. by apply IH.
  - intros (n & parentN & Hn & Hparse & -> & _).
    destruct (parseBatchMode_result _ _ _ Hparse)
      as [[[=] _]|(parentN' & inner & [= <-] & _ & Hbl & _ & Hid & _)].
    apply list_elem_of_split in Hn as (l1 & l2 & Hsplit).
    rewrite Hsplit in Hfold at 2.
    apply foldM_Ok_app in Hfold as (st1 & _ & Hfold).
    rewrite foldM_cons in Hfold.
    apply bind_Ok in Hfold as (st2 & Hstep & Hrest).
    eapply compileNode_batch in Hstep
      as (sc1 & nsList & hier & _ & _ & Hg2 & _); [|done|done].
    apply compileNode_fold_appends in Hrest as [[gs Hgs] _].
    cbn [fst] in Hgs. rewrite Hgs, Hg2, Hid.
    unfold GenerateNodeIDForBatchMode. set_solver.
Qed.

End compile_more.

(** ** More on ports and on the service *)

Section ports_more.
Import vo adaptor Spec SpecMore.
Context `{Env}.

(** Property X18: a port of a selector node that is neither [true] nor
    [false] and does not start with [true_] is no error: the connection
    keeps its end points and gets the empty port name, which is not the
    missing port. *)
Theorem selector_unknown_port (nodeMap : gmap string Node)
    (conn : schema.Connection) (node : Node) (port : string) :
  nodeMap !! schema.FromNode conn = Some node →
  Type_ node = IDStr NodeTypeSelector →
  schema.FromPort conn = Some port →
  port ≠ "" →
  port ∉ inlineOutputPorts →
  port ≠ "true" → port ≠ "false" →
  Strings.HasPrefix port "true_" = false →
  normalizePort nodeMap conn =
    Ok {| schema.FromNode := schema.FromNode conn;
          schema.ToNode := schema.ToNode conn;
          schema.FromPort := Some "" |} ∧
  ∀ normalized, normalizePorts [conn] nodeMap = Ok normalized →
                map schema.ID normalized =
                [schema.FromNode conn ++ ":" ++ schema.ToNode conn ++ ":"].
Proof.
  intros Hnode Hty Hport Hne Hinline Ht Hf Hprefix.
  assert (Hn : normalizePort nodeMap conn =
               Ok {| schema.FromNode := schema.FromNode conn;
                     schema.ToNode := schema.ToNode conn;
                     schema.FromPort := Some "" |}).
  { unfold normalizePort. rewrite Hport.
    assert ((String.length port =? 0)%nat = false) as ->.
    { destruct port; [done|reflexivity]. }
    assert (bool_decide (port = "loop-function-inline-output") ||
            bool_decide (port = "loop-output") ||
            bool_decide (port = "batch-function-inline-output") ||
            bool_decide (port = "batch-output") = false) as ->.
    { unfold inlineOutputPorts in Hinline.
      rewrite !not_elem_of_cons in Hinline.
      destruct Hinline as (? & ? & ? & ? & _).
      by rewrite !bool_decide_eq_false_2 by done. }
    rewrite Hnode, bool_decide_eq_true_2 by done.
    unfold selectorPort.
    rewrite !bool_decide_eq_false_2 by done.
    unfold Strings.HasPrefix in Hprefix.
    destruct (Strings.CutPrefix "true_" port); [done|]. reflexivity. }
  split; [exact Hn|]. intros normalized. unfold normalizePorts.
  rewrite mapM_cons, Hn. cbn. by intros [= <-].
Qed.

End ports_more.

Section chatflow_more.
Import vo service Spec SpecMore.
Context `{Env}.

(** The adapter passes over the nodes before the first entry node. *)
Lemma adaptStartNode_app (before l : list Node) :
  Forall (fun n => isEntry n = false) before →
  adaptStartNode (before ++ l) =
  (r ← adaptStartNode l; Ok (before ++ r)%list).
Proof.
  induction 1 as [|n before Hn _ IH]; cbn [app adaptStartNode].
  - by destruct (adaptStartNode l).
  - rewrite Hn, IH. by destruct (adaptStartNode l).
Qed.

(** Without an entry node the adapter fails. *)
Lemma adaptStartNode_no_entry (nodes : list Node) :
  Forall (fun n => isEntry n = false) nodes →
  adaptStartNode nodes = Err (errorf "can not find start node").
Proof.
  intros Hnone. rewrite <- (app_nil_r nodes).
  by rewrite (adaptStartNode_app nodes [] Hnone).
Qed.

(** Property X19: on a draft canvas without an entry node the chat-flow
    adapter returns the error that it cannot find the start node; nothing
    is saved. *)
Theorem adaptToChatFlow_no_entry (i : impl) (wID : Z) (wfEntity : Workflow)
    (info : CanvasInfo) (canvas : Canvas) :
  GetEntity (repo i)
    {| Policy_ID := wID; QType := FromDraft; Policy_Version := "" |} =
    Ok wfEntity →
  Workflow_CanvasInfo wfEntity = Some info →
  UnmarshalCanvas (Canvas_ info) = (canvas, None) →
  Forall (fun n => isEntry n = false) (Nodes canvas) →
  adaptToChatFlow i wID = Err (errorf "can not find start node").
Proof.
  intros Hentity Hinfo Hcanvas Hnone. unfold adaptToChatFlow.
  rewrite Hentity. cbn. rewrite Hinfo. cbn. rewrite Hcanvas.
  by rewrite (adaptStartNode_no_entry _ Hnone).
Qed.

(** The names of a list of outputs followed by more outputs. *)
Lemma outputNames_declared (outputs : list Any) (vMap : gset string)
    (name : string) :
  outputNames outputs = Ok vMap →
  declares outputs name → name ∈ vMap.
Proof. intros Hnames Hd. by apply (outputNames_spec _ _ Hnames). Qed.

(** Property X20: when the first entry node of the canvas already declares
    both chat-flow fields, a successful run of the adapter leaves every node
    of the canvas as it is. *)
Theorem adaptStartNode_unchanged (before rest : list Node) (start : Node)
    (data : Data) (nodes' : list Node) :
  Forall (fun n => isEntry n = false) before →
  isEntry start = true →
  Node_Data start = Some data →
  declares (Outputs data) UserInputKey →
  declares (Outputs data) ConversationNameKey →
  adaptStartNode (before ++ start :: rest) = Ok nodes' →
  nodes' = (before ++ start :: rest)%list.
Proof.
  intros Hbefore Hentry Hdata Hu Hc.
  rewrite (adaptStartNode_app _ _ Hbefore). cbn [adaptStartNode].
  rewrite Hentry, Hdata. cbn.
  intros (r & (vMap & Hnames & [= <-])%bind_Ok & [= <-])%bind_Ok.
  rewrite chatFlowOutputs_spec.
  rewrite !bool_decide_eq_true_2 by (by eapply outputNames_declared).
  rewrite !app_nil_r. f_equal. f_equal.
  destruct start as [id ty d blocks edges]. cbn in Hdata. subst d.
  by destruct data.
Qed.

(** The names of the outputs once more outputs are appended. *)
Lemma outputNames_app (outputs more : list Any) (vMap : gset string) :
  outputNames outputs = Ok vMap →
  (∀ o, o ∈ more → ∃ v, ParseVariable o = Ok v) →
  ∃ vMap', outputNames (outputs ++ more) = Ok vMap' ∧
           ∀ name, name ∈ vMap' ↔ name ∈ vMap ∨ declares more name.
Proof.
  unfold outputNames. intros Hnames Hmore.
  assert (Hfold : ∀ acc, ∃ vMap',
            foldM (fun (vMap : gset string) o =>
                     v ← ParseVariable o; Ok ({[Var_Name v]} ∪ vMap))
                  more acc = Ok vMap').
  { induction more as [|o more IH]; intros acc; [by eexists|].
    rewrite foldM_cons. destruct (Hmore o) as [v ->]; [by left|]. cbn.
    apply IH. intros o' Ho'. apply Hmore. by right. }
  destruct (Hfold vMap) as [vMap' Hmap'].
  exists vMap'. split.
  - apply foldM_Ok_app. by exists vMap.
  - intros name. apply (outputNames_fold _ _ _ Hmap').
Qed.

(** Property X21: the chat-flow adapter is idempotent on the nodes of a
    canvas, whenever a variable stored as an output parses back under its
    name: a second run changes nothing. *)
Theorem adaptStartNode_idempotent (nodes nodes' : list Node) :
  (∀ v, ∃ v', ParseVariable (anyOfVar v) = Ok v' ∧ Var_Name v' = Var_Name v) →
  adaptStartNode nodes = Ok nodes' →
  adaptStartNode nodes' = Ok nodes'.
Proof.
  intros Hround Hfirst.
  apply adaptStartNode_spec in Hfirst
    as (before & start & rest & data & vMap & -> & Hbefore & Hentry & Hdata
        & Hnames & ->).
  rewrite (adaptStartNode_app _ _ Hbefore). cbn [adaptStartNode].
  assert (isEntry (setOutputs start data
                     (chatFlowOutputs vMap (Outputs data))) = true) as ->
    by exact Hentry.
  cbn [setOutputs Node_Data deref Outputs]. cbn.
  rewrite chatFlowOutputs_spec.
  set (added := ((if bool_decide (UserInputKey ∈ vMap) then []
                  else [anyOfVar userInputVar]) ++
                 (if bool_decide (ConversationNameKey ∈ vMap) then []
                  else [anyOfVar conversationNameVar]))%list).
  destruct (outputNames_app (Outputs data) added vMap Hnames)
    as (vMap' & Hnames' & Hin).
  { intros o Ho. unfold added in Ho.
    apply elem_of_app in Ho as [Ho|Ho]; case_bool_decide;
      first [by apply elem_of_nil in Ho
            |apply list_elem_of_singleton in Ho as ->;
             match goal with
             | |- ∃ _, ParseVariable (anyOfVar ?v) = _ =>
                 destruct (Hround v) as (v' & -> & _)
             end; by eexists]. }
  pose proof Hnames' as Hfold. unfold outputNames in Hfold.
  rewrite Hfold. cbn. clear Hfold.
  assert (Hdecl : ∀ v, anyOfVar v ∈ added → declares added (Var_Name v)).
  { intros v Hv. destruct (Hround v) as (v' & Hv' & Hname).
    by exists (anyOfVar v), v'. }
  assert (UserInputKey ∈ vMap' ∧ ConversationNameKey ∈ vMap') as [Hu Hc].
  { rewrite !Hin. unfold added in *. split.
    - destruct (decide (UserInputKey ∈ vMap)); [by left|right].
      apply (Hdecl userInputVar).
      rewrite bool_decide_eq_false_2 by done. set_solver.
    - destruct (decide (ConversationNameKey ∈ vMap)); [by left|right].
      apply (Hdecl conversationNameVar).
      rewrite (bool_decide_eq_false_2 (ConversationNameKey ∈ vMap)) by done.
      set_solver. }
  rewrite chatFlowOutputs_spec, !bool_decide_eq_true_2 by done.
  by rewrite !app_nil_r.
Qed.

End chatflow_more.

Section store_more.
Import vo service Spec SpecMore.
Context `{Env}.

(** Property X22: [Save] stores a canvas that does not compile: the draft
    carries the canvas string as given, the test-run flag false and the
    decimal form of the fresh commit ID, and the previous draft is not read
    at all. *)
Theorem Save_uncompilable (i : impl) (id commitID : Z) (canvas : string)
    (c : Canvas) (err : error) inputs outputs inputParams outputParams :
  UnmarshalCanvas canvas = (c, None) →
  extractInputsAndOutputsNamedInfoList c = (inputs, outputs) →
  MarshalNamedTypeInfos inputs = Ok inputParams →
  MarshalNamedTypeInfos outputs = Ok outputParams →
  GenID (repo i) = Ok commitID →
  adaptor.CanvasToWorkflowSchema c = Err err →
  ∀ i', GenID (repo i') = Ok commitID →
        Save i' id canvas = Save i id canvas ∧
        Save i id canvas =
        Ok (CreateOrUpdateDraft id
              {| Draft_Canvas := canvas;
                 TestRunSuccess := false;
                 Modified := true;
                 InputParamsStr := inputParams;
                 OutputParamsStr := outputParams;
                 Draft_CommitID := strconv.Itoa commitID |}).
Proof.
  intros Hc Hex Hin Hout Hgen Herr i' Hgen'.
  assert (Hsave : ∀ j, GenID (repo j) = Ok commitID →
            Save j id canvas =
            Ok (CreateOrUpdateDraft id
                  {| Draft_Canvas := canvas;
                     TestRunSuccess := false;
                     Modified := true;
                     InputParamsStr := inputParams;
                     OutputParamsStr := outputParams;
                     Draft_CommitID := strconv.Itoa commitID |})).
  { intros j Hj. unfold Save, calculateTestRunSuccess.
    rewrite Hc, Hex, Hin, Hout, Herr. cbn. by rewrite Hj. }
  split; [|by apply Hsave]. by rewrite !Hsave.
Qed.

(** Property X23: when the new canvas compiles and reading the previous
    draft fails with an error other than record-not-found, [Save] returns
    that error as it is and stores nothing. *)
Theorem Save_repository_failure (i : impl) (id : Z) (canvas : string)
    (c : Canvas) (sc : schema.WorkflowSchema) (err : error)
    inputs outputs inputParams outputParams :
  UnmarshalCanvas canvas = (c, None) →
  extractInputsAndOutputsNamedInfoList c = (inputs, outputs) →
  MarshalNamedTypeInfos inputs = Ok inputParams →
  MarshalNamedTypeInfos outputs = Ok outputParams →
  adaptor.CanvasToWorkflowSchema c = Ok sc →
  DraftV2 (repo i) id "" = Err err →
  errorsIs err ErrRecordNotFound = false →
  Save i id canvas = Err err.
Proof.
  intros Hc Hex Hin Hout Hsc Hdraft Hnot.
  unfold Save, calculateTestRunSuccess.
  by rewrite Hc, Hex, Hin, Hout, Hsc, Hdraft, Hnot.
Qed.

(** Property X24: whenever [Publish] creates a version, the draft with the
    commit ID of the policy exists and has passed its test run, unless the
    publication is forced; the version carries the canvas, the parameters
    and the commit ID of that draft, the version string, description and
    creator of the policy, and the references computed from the canvas of
    the draft. *)
Theorem Publish_version_info (i : impl) (policy : PublishPolicy) (id : Z)
    (info : VersionInfo) (refs : WorkflowReferences) :
  Publish i policy = Ok (CreateVersion id info refs) →
  id = Publish_ID policy ∧
  ∃ draft,
    DraftV2 (repo i) (Publish_ID policy) (Publish_CommitID policy) = Ok draft ∧
    (Force policy = true ∨ TestRunSuccess draft = true) ∧
    canvasToRefs (Publish_ID policy) (Draft_Canvas draft) = Ok refs ∧
    info = {| Version := Publish_Version policy;
              VersionDescription := Publish_VersionDescription policy;
              VersionCreatorID := Publish_CreatorID policy;
              Version_Canvas := Draft_Canvas draft;
              Version_InputParamsStr := InputParamsStr draft;
              Version_OutputParamsStr := OutputParamsStr draft;
              Version_CommitID := Draft_CommitID draft |}.
Proof.
  unfold Publish.
  intros (meta & _ & (u & _ & (draft & Hdraft & Hrest)%bind_Ok)%bind_Ok)%bind_Ok.
  destruct (Force policy) eqn:Hforce, (TestRunSuccess draft) eqn:Htest;
    cbn in Hrest; try discriminate Hrest.
  all: apply bind_Ok in Hrest as (wfRefs & Hrefs & [= <- <- <-]).
  all: split; [done|]; exists draft; rewrite ?Htest; auto.
Qed.

(** Property X25: a draft saved by [Save] is never test-run successful
    unless a previous draft was: the flag of the stored draft implies the
    flag of the previous draft, which then exists. *)
Theorem Save_never_raises_flag (i : impl) (id id' : Z) (canvas : string)
    (draft : DraftInfo) :
  Save i id canvas = Ok (CreateOrUpdateDraft id' draft) →
  TestRunSuccess draft = true →
  ∃ prev, DraftV2 (repo i) id "" = Ok prev ∧ TestRunSuccess prev = true.
Proof.
  intros (_ & _ & _ & Hflag)%Save_draft Htrue.
  unfold calculateTestRunSuccess in Hflag. rewrite Htrue in Hflag.
  repeat match type of Hflag with
  | match ?x with _ => _ end = _ => destruct x eqn:?; try discriminate Hflag
  | (if ?b then _ else _) = _ => destruct b eqn:?; try discriminate Hflag
  end.
  injection Hflag as Hprev. by eexists.
Qed.

End store_more.

Section identities_more.
Import vo service_more Spec SpecMore.
Context `{Env}.

(** [mapM] over two lists in a row. *)
Lemma mapM_app_outcome {A B} (f : A → outcome B) (l1 l2 : list A) :
  mapM f (l1 ++ l2)%list =
  (o1 ← mapM f l1; o2 ← mapM f l2; Ok (o1 ++ o2)%list).
Proof.
  induction l1 as [|a l1 IH]; cbn [app].
  - cbn. by destruct (mapM f l2).
  - rewrite !mapM_cons, IH. destruct (f a); [|done..]. cbn.
    destruct (mapM f l1); [|done..]. cbn. by destruct (mapM f l2).
Qed.

(** The identity that the loop body reads from a sub-workflow node. *)
Lemma deref_identityOf (n : Node) :
  deref (identityOf n) =
  (data ← deref (Node_Data n);
   inputs ← deref (Data_Inputs data);
   sub ← deref (Inputs_SubWorkflow inputs);
   Ok {| Identity_ID := WorkflowID sub;
         Identity_Version := WorkflowVersion sub |}).
Proof.
  unfold identityOf. destruct (Node_Data n) as [data|]; [|done]. cbn.
  destruct (Data_Inputs data) as [inputs|]; [|done]. cbn.
  by destruct (Inputs_SubWorkflow inputs).
Qed.

(** What the loop body appends for a node and its blocks. *)
Lemma collectNode_spec :
  ∀ (n : Node) (acc : list workflowIdentity),
    collectNode n acc =
    (ids ← mapM (fun m => deref (identityOf m))
                (filter (fun m => isSubWorkflowNode m = true) (preorder n));
     Ok (acc ++ ids)%list).
Proof.
  fix IH 1. intros [id ty data blocks edges] acc.
  cbn [collectNode preorder]. rewrite filter_cons.
  assert (Hblocks : ∀ acc',
    (if (0 <? length blocks)%nat
     then foldM (fun a b => collectNode b a) blocks acc'
     else Ok acc') =
    (ids ← mapM (fun m => deref (identityOf m))
                (filter (fun m => isSubWorkflowNode m = true)
                        (flat_map preorder blocks));
     Ok (acc' ++ ids)%list)).
  { intros acc'.
    assert (Hfold : ∀ acc'',
      foldM (fun a b => collectNode b a) blocks acc'' =
      (ids ← mapM (fun m => deref (identityOf m))
                  (filter (fun m => isSubWorkflowNode m = true)
                          (flat_map preorder blocks));
       Ok (acc'' ++ ids)%list)).
    { clear acc'. induction blocks as [|b blocks IHb]; intros acc''.
      - cbn. by rewrite app_nil_r.
      - rewrite foldM_cons, (IH b). cbn [flat_map].
        rewrite filter_app, mapM_app_outcome.
        destruct (mapM _ (filter _ (preorder b))) as [ids1| |]; [|done..].
        cbn. rewrite IHb.
        destruct (mapM _ (filter _ (flat_map preorder blocks)))
          as [ids2| |]; [|done..].
        cbn. by rewrite app_assoc. }
    destruct blocks as [|b blocks]; [|apply Hfold].
    cbn. by rewrite app_nil_r. }
  match goal with
  | |- context [decide ?P] => destruct (decide P) as [Hty|Hty]
  end; unfold isSubWorkflowNode in Hty; cbn [Type_] in Hty.
  - rewrite Hty, mapM_cons, deref_identityOf.
    cbn [Node_Data].
    destruct data as [d|]; [|done]. cbn.
    destruct (Data_Inputs d) as [inputs|]; [|done]. cbn.
    destruct (Inputs_SubWorkflow inputs) as [sub|]; [|done]. cbn.
    rewrite Hblocks.
    destruct (mapM _ (filter _ (flat_map preorder blocks)))
      as [ids| |]; [|done..].
    cbn. by rewrite <- app_assoc.
  - apply not_true_is_false in Hty. rewrite Hty. cbn. apply Hblocks.
Qed.

(** Property X26: [getAllSubWorkflowIdentities] returns the workflow ID and
    version of every sub-workflow node of the canvas, at any depth, each
    node before its blocks; it panics on the first such node that has no
    data, no inputs or no sub-workflow inputs, and it never returns an
    error.  A canvas without sub-workflow nodes gives the empty list. *)
Theorem getAllSubWorkflowIdentities_spec (c : Canvas) :
  getAllSubWorkflowIdentities c =
    mapM (fun m => deref (identityOf m)) (subWorkflowNodes (Nodes c)) ∧
  (∀ err, getAllSubWorkflowIdentities c ≠ Err err) ∧
  (subWorkflowNodes (Nodes c) = [] → getAllSubWorkflowIdentities c = Ok []) ∧
  (∀ ids, getAllSubWorkflowIdentities c = Ok ids →
          Forall2 (fun m id => identityOf m = Some id)
                  (subWorkflowNodes (Nodes c)) ids).
Proof.
  assert (Heq : ∀ nodes acc,
    collectSubWorkFlowEntities nodes acc =
    (ids ← mapM (fun m => deref (identityOf m)) (subWorkflowNodes nodes);
     Ok (acc ++ ids)%list)).
  { unfold collectSubWorkFlowEntities, subWorkflowNodes.
    induction nodes as [|n nodes IH]; intros acc.
    - cbn. by rewrite app_nil_r.
    - rewrite foldM_cons, collectNode_spec. cbn [flat_map].
      rewrite filter_app, mapM_app_outcome.
      destruct (mapM _ (filter _ (preorder n))) as [ids1| |]; [|done..].
      cbn. rewrite IH.
      destruct (mapM _ (filter _ (flat_map preorder nodes)))
        as [ids2| |]; [|done..].
      cbn. by rewrite app_assoc. }
  assert (Hget : getAllSubWorkflowIdentities c =
                 mapM (fun m => deref (identityOf m))
                      (subWorkflowNodes (Nodes c))).
  { unfold getAllSubWorkflowIdentities. rewrite Heq.
    by destruct (mapM _ _). }
  split; [exact Hget|]. rewrite Hget. split; [|split].
  - intros err Herr.
    induction (subWorkflowNodes (Nodes c)) as [|m l IH] in err, Herr |- *;
      [done|].
    rewrite mapM_cons in Herr.
    destruct (identityOf m); cbn in Herr; [|done].
    destruct (mapM _ l) as [ids|e|p] eqn:Hl; [done| |done].
    by eapply IH.
  - by intros ->.
  - intros ids Hids%mapM_Ok_Forall2.
    eapply Forall2_impl; [done|]. intros m id Hm.
    cbn beta in Hm. destruct (identityOf m) as [id'|]; unfold deref in Hm;
      [by injection Hm as ->|discriminate Hm].
Qed.

End identities_more.

(** ** The node schemas of a compiled schema *)

Section compiled_nodes.
Import vo adaptor adaptor_more schema_more Spec SpecMore.
Context `{Env}.

(** What [Init] does to the nodes. *)
Lemma initSub_initialisedFrom (node node' : schema.NodeSchema) (rounds hr : Z)
    (brk : bool) :
  initSub node rounds = Ok (node', hr, brk) → initialisedFrom node node'.
Proof.
  destruct node as [key ty name cfg it isrc ot osrc ec sc sb sub].
  cbn [initSub]. destruct (decide (ty = NodeTypeSubWorkflow)) as [Hty|Hty].
  - destruct sub as [s|]; [|done].
    intros (s' & Hs' & [= <- _ _])%bind_Ok. right. split; [done|].
    by exists s, s'.
  - intros [= <- _ _]. by left.
Qed.

Lemma initNodes_initialisedFrom (nodes nodes' : list schema.NodeSchema)
    (rounds hr : Z) (brk : bool) :
  initNodes nodes rounds = Ok (nodes', hr, brk) →
  Forall2 initialisedFrom nodes nodes'.
Proof.
  assert (Hrefl : ∀ l : list schema.NodeSchema, Forall2 initialisedFrom l l).
  { intros l. apply Forall_Forall2_diag, Forall_forall. intros x _. by left. }
  revert nodes' rounds hr brk.
  induction nodes as [|node nodes IH]; intros nodes' rounds hr brk.
  { intros [= <- _ _]. constructor. }
  cbn [initNodes].
  intros ([[node1 hr1] brk1] & Hsub & Hrest)%bind_Ok.
  apply initSub_initialisedFrom in Hsub.
  destruct brk1.
  { injection Hrest as <- _ _. by constructor. }
  destruct (asRequireCheckpoint (schema.NodeConfigs node)) as [[|]|].
  - injection Hrest as <- _ _. by constructor.
  - apply bind_Ok in Hrest as ([[rest' hr'] brk'] & Hloop & [= <- _ _]).
    constructor; [done|]. by eapply IH.
  - apply bind_Ok in Hrest as ([[rest' hr'] brk'] & Hloop & [= <- _ _]).
    constructor; [done|]. by eapply IH.
Qed.

Lemma Init_initialisedFrom (w w' : schema.WorkflowSchema) :
  schema_ops.Init w = Ok w' →
  Forall2 initialisedFrom (schema.Nodes w) (schema.Nodes w').
Proof.
  rewrite Init_unfold. destruct (schema.once (schema.runtime w)).
  - intros [= <-]. apply Forall_Forall2_diag, Forall_forall.
    intros x _. by left.
  - intros ([[nodes' hr] brk] & Hloop & [= <-])%bind_Ok.
    by eapply initNodes_initialisedFrom.
Qed.

(** One step of the loop over the nodes appends the node schemas of the
    node, or of its batch parent. *)
Lemma compileNode_nodes (s : Canvas) st node st' :
  compileNode s st node = Ok st' →
  ∃ newNode enableBatch node1 nsList hierarchy,
    parseBatchMode node = Ok (newNode, enableBatch) ∧
    (if enableBatch : bool then newNode = Some node1 else node1 = node) ∧
    NodeToNodeSchema node1 s = Ok (nsList, hierarchy) ∧
    schema.Nodes st'.1 = (schema.Nodes st.1 ++ nsList)%list.
Proof.
  unfold compileNode. intros ([sc0 nodeMap] & Hfold & Hrest)%bind_Ok.
  apply compileBlock_fold in Hfold as (_ & Hn & _). cbn [fst] in Hn.
  apply bind_Ok in Hrest as ([newNode enableBatch] & Hparse & Hrest).
  apply bind_Ok in Hrest as ([node1 sc1] & Hsc1 & Hrest).
  apply bind_Ok in Hrest as ([nsList hierarchy] & Hns & [= <-]).
  exists newNode, enableBatch, node1, nsList, hierarchy.
  split; [done|]. cbn [fst appendConnections appendNodes schema.Nodes].
  destruct enableBatch.
  - apply bind_Ok in Hsc1 as (node2 & Hnode2 & Hsc1).
    destruct newNode as [parentN|]; [|done]. injection Hnode2 as <-.
    destruct (Blocks parentN) as [|inner ?]; [done|].
    injection Hsc1 as <- <-. cbn [appendGeneratedNode schema.Nodes].
    by rewrite Hn.
  - injection Hsc1 as <- <-. by rewrite Hn.
Qed.

Lemma compileNode_fold_nodes (s : Canvas) nodes st st' :
  foldM (compileNode s) nodes st = Ok st' →
  ∃ ns, schema.Nodes st'.1 = (schema.Nodes st.1 ++ ns)%list.
Proof.
  revert st. induction nodes as [|n nodes IH]; intros st.
  - intros [= <-]. exists []. by rewrite app_nil_r.
  - rewrite foldM_cons. intros (st1 & Hstep & Hrest)%bind_Ok.
    apply compileNode_nodes in Hstep as (? & ? & ? & ns1 & ? & _ & _ & _ & Hn1).
    apply IH in Hrest as [ns2 Hn2]. rewrite Hn2, Hn1, <- app_assoc.
    by eexists.
Qed.

(** The node schemas of every top-level node that pruning keeps, or of its
    batch parent, are among the nodes of the compiled schema, as [Init]
    leaves them. *)
Lemma compile_nodes (s : Canvas) (sc : schema.WorkflowSchema) nodes edges
    node :
  CanvasToWorkflowSchema s = Ok sc →
  PruneIsolatedNodes (Nodes s) (Edges s) None = Ok (nodes, edges) →
  node ∈ nodes →
  ∃ newNode enableBatch node1 nsList hierarchy before compiled after,
    parseBatchMode node = Ok (newNode, enableBatch) ∧
    (if enableBatch : bool then newNode = Some node1 else node1 = node) ∧
    NodeToNodeSchema node1 {| Nodes := nodes; Edges := edges |} =
      Ok (nsList, hierarchy) ∧
    schema.Nodes sc = (before ++ compiled ++ after)%list ∧
    Forall2 initialisedFrom nsList compiled.
Proof.
  intros Hc%recover_Ok Hprune Hin. unfold compile in Hc.
  rewrite Hprune in Hc. cbn [mbind outcome_bind] in Hc.
  apply bind_Ok in Hc as ([sc0 nodeMap] & Hfold & Hc).
  apply bind_Ok in Hc as (newConnections & _ & Hc).
  apply bind_Ok in Hc as (branches & _ & HInit).
  apply Init_initialisedFrom in HInit.
  cbn [setBranches setConnections appendConnections schema.Nodes] in HInit.
  cbn [Nodes] in Hfold.
  apply list_elem_of_split in Hin as (l1 & l2 & Hsplit).
  rewrite Hsplit in Hfold at 2.
  apply foldM_Ok_app in Hfold as (st1 & _ & Hfold).
  rewrite foldM_cons in Hfold. apply bind_Ok in Hfold as (st2 & Hstep & Hrest).
  apply compileNode_nodes in Hstep
    as (newNode & enableBatch & node1 & nsList & hierarchy & Hparse & Hnode1 &
        Hns & Hn2).
  apply compileNode_fold_nodes in Hrest as [rest Hn3]. cbn [fst] in Hn3.
  rewrite Hn3, Hn2, <- app_assoc in HInit.
  apply Forall2_app_inv_l in HInit as (before & tail & _ & Htail & ->).
  apply Forall2_app_inv_l in Htail as (compiled & after & Hcompiled & _ & ->).
  by exists newNode, enableBatch, node1, nsList, hierarchy, before, compiled,
            after.
Qed.

(** The loop over the blocks of a composite node compiles every block by
    [NodeToNodeSchema]. *)
Lemma childSchemas_segment (c : Canvas) (id : string) (l : list Node)
    acc allNS hierarchy (sub : Node) :
  childSchemas c id l acc = Ok (allNS, hierarchy) →
  sub ∈ l →
  ∃ childNS h l1 l2,
    NodeToNodeSchema sub c = Ok (childNS, h) ∧
    allNS = (l1 ++ childNS ++ l2)%list.
Proof.
  revert acc. induction l as [|b l IH]; intros acc Hrun Hin.
  { by apply elem_of_nil in Hin. }
  cbn [childSchemas] in Hrun.
  apply bind_Ok in Hrun as ([childNS h] & Hb & Hrest).
  apply elem_of_cons in Hin as [->|Hin].
  - apply childSchemas_hierarchy in Hrest as [_ [rest ->]]. cbn [fst].
    exists childNS, h, acc.1, rest. split; [done|]. by rewrite <- app_assoc.
  - by eapply IH.
Qed.

Lemma NodeToNodeSchema_block (n sub : Node) (c : Canvas) na nsList hierarchy :
  IDStrToNodeType (Type_ n) ≠ NodeTypeSubWorkflow →
  GetNodeAdaptor (IDStrToNodeType (Type_ n)) = Some na →
  NodeToNodeSchema n c = Ok (nsList, hierarchy) →
  sub ∈ Blocks n →
  ∃ childNS h l1 l2,
    NodeToNodeSchema sub c = Ok (childNS, h) ∧
    nsList = (l1 ++ childNS ++ l2)%list.
Proof.
  intros Hty Hna Hrun Hin. rewrite NodeToNodeSchema_unfold in Hrun.
  cbn zeta in Hrun. rewrite decide_False, Hna in Hrun by done.
  apply bind_Ok in Hrun as (ns & _ & Hrun).
  apply bind_Ok in Hrun as (ec & _ & Hrun).
  destruct (Blocks n) as [|b bs] eqn:Hblocks; [by apply elem_of_nil in Hin|].
  cbn [length Nat.ltb Nat.leb] in Hrun.
  apply bind_Ok in Hrun as ([allNS h0] & Hloop & [= <- _]).
  eapply childSchemas_segment in Hloop as (childNS & h & l1 & l2 & Hsub & ->);
    [|done].
  exists childNS, h, l1, (l2 ++ [setExceptionConfigs ns ec])%list.
  split; [done|]. by rewrite <- !app_assoc.
Qed.

(** Every generated node is the inner node of a top-level node that
    pruning keeps and [parseBatchMode] expands. *)
Lemma generated_nodes_top_level (s : Canvas) (sc : schema.WorkflowSchema)
    nodes edges key :
  CanvasToWorkflowSchema s = Ok sc →
  PruneIsolatedNodes (Nodes s) (Edges s) None = Ok (nodes, edges) →
  key ∈ schema.GeneratedNodes sc →
  ∃ top parentN, top ∈ nodes ∧
                 parseBatchMode top = Ok (Some parentN, true) ∧
                 key = ID top ++ "_inner".
Proof.
  intros Hc Hprune.
  apply compile_Ok in Hc
    as (nodes' & edges' & sc0 & nodeMap & Hprune' & Hfold & _ & ->).
  rewrite Hprune in Hprune'. injection Hprune' as <- <-. revert key.
  set (P := fun st : schema.WorkflowSchema * gmap string Node =>
              ∀ key, key ∈ schema.GeneratedNodes st.1 →
                ∃ top parentN, top ∈ nodes ∧
                  parseBatchMode top = Ok (Some parentN, true) ∧
                  key = ID top ++ "_inner").
  change (P (sc0, nodeMap)).
  apply (foldM_invariant_in
           (compileNode {| Nodes := nodes; Edges := edges |}) P nodes
           (schema.emptySchema, ∅) (sc0, nodeMap));
    [|by intros key ?%elem_of_nil|exact Hfold].
  unfold P. intros st n st' Hn Hstep IH key Hkey.
  unfold compileNode in Hstep.
  apply bind_Ok in Hstep as ([sc1 nodeMap1] & Hblocks & Hstep).
  apply compileBlock_fold in Hblocks as (Hg & _). cbn [fst] in Hg.
  apply bind_Ok in Hstep as ([newNode enableBatch] & Hparse & Hstep).
  apply bind_Ok in Hstep as ([node1 sc2] & Hsc2 & Hstep).
  apply bind_Ok in Hstep as ([nsList hierarchy] & _ & [= <-]).
  cbn [fst appendConnections appendNodes schema.GeneratedNodes] in Hkey.
  destruct enableBatch.
  - apply bind_Ok in Hsc2 as (node2 & Hnode2 & Hsc2).
    destruct newNode as [parentN|]; [|done]. injection Hnode2 as <-.
    destruct (parseBatchMode_result _ _ _ Hparse)
      as [[[=] _]|(parentN' & inner & [= <-] & _ & Hbl & _ & Hid & _)].
    rewrite Hbl in Hsc2. injection Hsc2 as <- <-.
    cbn [appendGeneratedNode schema.GeneratedNodes] in Hkey.
    rewrite Hg in Hkey. apply elem_of_app in Hkey as [Hkey|Hkey].
    + by apply IH.
    + apply list_elem_of_singleton in Hkey as ->. by exists n, parentN.
  - injection Hsc2 as <- <-. rewrite Hg in Hkey. by apply IH.
Qed.

End compiled_nodes.

(** ** The claims about the canvas compiler *)

Section compiler_claims.
Import vo adaptor Spec.
Context `{Env}.


(** Claim C6: when [normalizePorts] succeeds, each connection keeps its end
    points and its port follows the rules: no port and the empty port give
    no port, the four inline output ports of loops and batches give no
    port, on a selector [true] gives [branch_0], [false] gives [default] and
    [true_N] gives [branch_N], and on another node the port is kept.  A
    selector port [true_] followed by something that is no decimal number
    makes [normalizePorts] return an error. *)
Theorem normalizePorts_rules (connections : list schema.Connection)
    (nodeMap : gmap string Node) :
  (∀ normalized,
     normalizePorts connections nodeMap = Ok normalized →
     Forall2 (portRule nodeMap) connections normalized) ∧
  (∀ conn node suffix,
     conn ∈ connections →
     nodeMap !! schema.FromNode conn = Some node →
     Type_ node = IDStr NodeTypeSelector →
     schema.FromPort conn = Some ("true_" ++ suffix) →
     isDecimal suffix = false →
     ∃ err, normalizePorts connections nodeMap = Err err).
Proof.
  split.
  - intros normalized Hn%mapM_Ok_Forall2.
    eapply Forall2_impl; [done|]. intros c c'. apply normalizePort_rule.
  - intros conn node suffix Hin Hnode Hty Hport Hsuffix.
    pose proof (normalizePort_invalid _ _ _ _ Hnode Hty Hport Hsuffix) as Hc.
    unfold normalizePorts.
    destruct (mapM (normalizePort nodeMap) connections) as [out|e|p] eqn:Hm.
    + eapply mapM_not_Ok in Hm; [done|done|]. intros b. by rewrite Hc.
    + by exists e.
    + by eapply mapM_no_panic in Hm; [|apply normalizePort_no_panic].
Qed.

(** Claim C7, as amended: an edge into an inline input port of a loop or a
    batch gives a connection to [END] when it has a source port, and a
    connection to its own target when it has none; port normalisation keeps
    the target.  The edge from the inner node to the parent that batch-mode
    expansion generates has no source port, so its connection points to the
    parent. *)
Theorem inline_input_edges (e : Edge) :
  TargetPortID e ∈ inlineInputPorts →
  (SourcePortID e ≠ "" → schema.ToNode (EdgeToConnection e) = schema.END) ∧
  (SourcePortID e = "" →
   schema.ToNode (EdgeToConnection e) = TargetNodeID e) ∧
  (∀ nodeMap conn,
     normalizePort nodeMap (EdgeToConnection e) = Ok conn →
     schema.ToNode conn = schema.ToNode (EdgeToConnection e)) ∧
  (∀ n parentN,
     parseBatchMode n = Ok (Some parentN, true) →
     ∃ out back,
       Node_Edges parentN = [out; back] ∧
       TargetPortID back = "batch-function-inline-input" ∧
       SourcePortID back = "" ∧
       SourceNodeID back = ID n ++ "_inner" ∧
       schema.ToNode (EdgeToConnection back) = ID n ∧
       ∀ nodeMap,
         normalizePort nodeMap (EdgeToConnection back) =
         Ok (plainConnection (ID n ++ "_inner") (ID n))).
Proof.
  intros Ht. split; [by intros; apply EdgeToConnection_END|].
  split; [by intros; apply EdgeToConnection_keep; left|].
  split.
  { intros nodeMap conn Hc. by apply normalizePort_rule in Hc as (_ & ? & _). }
  intros n parentN Hp.
  apply parseBatchMode_result in Hp
    as [[[=] _]|(parentN' & inner & [= <-] & _ & _ & _ & _ & Hedges)].
  rewrite Hedges. unfold batchEdges. do 2 eexists. split; [reflexivity|].
  do 4 (split; [reflexivity|]).
  intros nodeMap. unfold normalizePort, EdgeToConnection, plainConnection.
  cbn. by destruct (ID n).
Qed.

(** Claim C8, as amended: when a canvas compiles, the connections built
    from the canvas-level edges that isolation pruning keeps end the
    connection list of the schema, one for each kept edge and in the order
    of these edges; each has the source of its edge as [from_node],
    whatever it is, and as [to_node] the [END] sentinel, the entry key, the
    exit key or the ID of a top-level node of the canvas. *)
Theorem connection_endpoints (s : Canvas) (sc : schema.WorkflowSchema)
    (nodes : list Node) (edges : list Edge) :
  CanvasToWorkflowSchema s = Ok sc →
  PruneIsolatedNodes (Nodes s) (Edges s) None = Ok (nodes, edges) →
  edges `sublist_of` Edges s ∧
  ∃ inner outer,
    schema.Connections sc = (inner ++ outer)%list ∧
    Forall2 connectionOf edges outer ∧
    Forall (knownTarget s) outer.
Proof.
  intros (nodes' & edges' & sc0 & nodeMap & Hprune & _ & Hnorm & _)%compile_Ok
         Hprune'.
  rewrite Hprune' in Hprune. injection Hprune as <- <-.
  apply mapM_Ok_app in Hnorm as (inner & outer & Hsc & _ & Houter).
  apply pruneLevel_Ok in Hprune' as [Hsub Htargets].
  split; [done|]. exists inner, outer. split; [done|].
  apply mapM_Ok_Forall2 in Houter. clear Hsc.
  assert (∀ e, e ∈ edges → e ∈ Edges s) as Hin.
  { intros e He. by eapply elem_of_sublist. }
  clear Hsub. revert outer Houter.
  induction edges as [|e edges IH]; intros outer Houter.
  - apply Forall2_nil_inv_l in Houter as ->. split; constructor.
  - cbn [map] in Houter.
    apply Forall2_cons_inv_l in Houter as (c & outer' & Hc & Houter & ->).
    destruct IH with (outer := outer') as [IH1 IH2]; [|done|].
    { intros e' He'. apply Hin. by right. }
    apply normalizePort_rule in Hc as (Hfrom & Hto & _).
    assert (schema.ToNode c = schema.END ∨
            schema.ToNode c = TargetNodeID e) as Hcases.
    { rewrite Hto. unfold EdgeToConnection. cbn [schema.ToNode].
      destruct (_ && _); auto. }
    split; constructor; try done.
    unfold knownTarget. destruct Hcases as [->| ->]; [by left|].
    destruct (Htargets e) as [?|[?|[?|?]]]; [apply Hin; by left|auto..|done].
Qed.


End compiler_claims.

Section chatflow_claims.
Import vo service Spec.
Context `{Env}.

(** Claim C10, as amended: the adapter rewrites the outputs of the first
    entry node of the draft canvas.  The outputs that are there stay as they
    are and in place; when none of them is named [USER_INPUT], a string
    field of that name is appended, and when none of them is named
    [CONVERSATION_NAME], an optional string field of that name with the
    default value ["Default"] is appended.  The adapter then saves the
    rewritten canvas with [Save]. *)
Theorem adaptToChatFlow_fields (i : impl) (wID : Z) (wfEntity : Workflow)
    (info : CanvasInfo) (canvas : Canvas) (nodes : list Node) :
  GetEntity (repo i)
    {| Policy_ID := wID; QType := FromDraft; Policy_Version := "" |} =
    Ok wfEntity →
  Workflow_CanvasInfo wfEntity = Some info →
  UnmarshalCanvas (Canvas_ info) = (canvas, None) →
  adaptStartNode (Nodes canvas) = Ok nodes →
  (∃ before start rest data userInput conversationName added1 added2,
     Nodes canvas = (before ++ start :: rest)%list ∧
     Forall (fun n => isEntry n = false) before ∧
     isEntry start = true ∧
     Node_Data start = Some data ∧
     nodes = (before ++
              setOutputs start data (Outputs data ++ added1 ++ added2)
              :: rest)%list ∧
     Var_Name userInput = UserInputKey ∧
     Var_Type userInput = VariableTypeString ∧
     Var_Name conversationName = ConversationNameKey ∧
     Var_Type conversationName = VariableTypeString ∧
     Var_Required conversationName = false ∧
     Var_DefaultValue conversationName = anyOfString "Default" ∧
     (declares (Outputs data) UserInputKey → added1 = []) ∧
     (¬ declares (Outputs data) UserInputKey →
      added1 = [anyOfVar userInput]) ∧
     (declares (Outputs data) ConversationNameKey → added2 = []) ∧
     (¬ declares (Outputs data) ConversationNameKey →
      added2 = [anyOfVar conversationName])) ∧
  (∀ canvasStr,
     MarshalCanvas {| Nodes := nodes; Edges := Edges canvas |} = Ok canvasStr →
     adaptToChatFlow i wID = Save i wID canvasStr).
Proof.
  intros Hentity Hinfo Hcanvas Hnodes. split.
  - apply adaptStartNode_spec in Hnodes
      as (before & start & rest & data & vMap & Hsplit & Hb & Hs & Hd & Hv & ->).
    pose proof (outputNames_spec _ _ Hv) as Hnames.
    exists before, start, rest, data, userInputVar, conversationNameVar.
    rewrite chatFlowOutputs_spec. do 2 eexists.
    do 4 (split; [done|]). split; [reflexivity|].
    do 6 (split; [reflexivity|]).
    rewrite <- !Hnames.
    repeat split; intros Hx; case_bool_decide; done.
  - intros canvasStr Hstr. by eapply adaptToChatFlow_Save.
Qed.

End chatflow_claims.

(** ** The claims on the sample instance *)

Section samples.
Import vo adaptor service Spec Sample.

(** The streaming sample is execution-equivalent to itself. *)
Lemma IsEqual_execution_equivalence_witness :
  executionEquivalent streamingSchema streamingSchema.
Proof.
  apply (IsEqual_execution_equivalence streamingSchema streamingSchema).
  vm_compute. reflexivity.
Defined.

(** Saving the canvas of the tested draft again keeps the flag. *)
Lemma Save_test_run_success_witness :
  let i := implOf "minimal" true None in
  let draft := {| Draft_Canvas := "minimal"; TestRunSuccess := true;
                  Modified := true; InputParamsStr := "[]";
                  OutputParamsStr := "[]"; Draft_CommitID := "42" |} in
  Save i 7 "minimal" = Ok (CreateOrUpdateDraft 7 draft) ∧
  inherits i 7 "minimal" (draftOf "minimal" true) ∧
  ∀ prev, inherits i 7 "minimal" prev →
          TestRunSuccess draft = TestRunSuccess prev.
Proof.
  intros i draft.
  assert (Hsave : Save i 7 "minimal" = Ok (CreateOrUpdateDraft 7 draft))
    by (vm_compute; reflexivity).
  split; [exact Hsave|]. split.
  - assert (Heq : match CanvasToWorkflowSchema minimalCanvas with
                  | Ok sc => schema_ops.IsEqual sc sc
                  | _ => false
                  end = true) by (vm_compute; reflexivity).
    unfold inherits, previousCompiles, previousDraft.
    change (decoded "minimal") with minimalCanvas.
    change (decoded (Draft_Canvas (draftOf "minimal" true)))
      with minimalCanvas.
    destruct (CanvasToWorkflowSchema minimalCanvas) as [sc| |];
      [|discriminate Heq..].
    exists sc, sc. split; [reflexivity|]. split; [by split|].
    by apply IsEqual_iff.
  - apply (Save_test_run_success i 7 7 "minimal" draft Hsave).
Defined.

(** v1.1.0 after v1.2.0 is rejected by the version check. *)
Lemma Publish_version_check_witness :
  let i := implOf "minimal" true (Some "v1.2.0") in
  let policy := publishOf "v1.1.0" false in
  GetMeta (repo i) (Publish_ID policy) =
    Ok {| LatestPublishedVersion := Some "v1.2.0" |} ∧
  Publish i policy = Err (notIncrementalErr "v1.2.0" "v1.1.0").
Proof.
  intros i policy.
  assert (Hmeta : GetMeta (repo i) (Publish_ID policy) =
                  Ok {| LatestPublishedVersion := Some "v1.2.0" |})
    by reflexivity.
  split; [exact Hmeta|].
  apply (Publish_version_check i policy _ Hmeta) with
    (old := {| vA := 1; vB := 2; vC := 0 |})
    (new := {| vA := 1; vB := 1; vC := 0 |}).
  - reflexivity.
  - vm_compute. reflexivity.
  - vm_compute. reflexivity.
  - unfold versionLt. cbn. lia.
Defined.

(** The consumer of the streaming sample is reached from its producer. *)
Lemma RequireStreaming_reachability_witness :
  schema.once (schema.runtime streamingSchema) = false ∧
  ∃ w', schema_ops.Init streamingSchema = Ok w' ∧ streamPath w'.
Proof.
  split; [reflexivity|].
  assert (HInit : ∃ w', schema_ops.Init streamingSchema = Ok w' ∧
                        schema_ops.RequireStreaming w' = true)
    by (eexists; split; vm_compute; reflexivity).
  destruct HInit as (w' & HInit & Hrs). exists w'. split; [exact HInit|].
  apply (RequireStreaming_reachability streamingSchema w' eq_refl HInit).
  exact Hrs.
Defined.

(** A strictly greater version is rejected all the same when the draft has
    not passed its test run: the error is not the one of the version
    check. *)
Lemma Publish_error_iff_counterexample :
  let i := implOf "minimal" false (Some "v0.0.1") in
  let policy := publishOf "v0.0.2" false in
  let old := {| vA := 0; vB := 0; vC := 1 |} in
  let new := {| vA := 0; vB := 0; vC := 2 |} in
  GetMeta (repo i) (Publish_ID policy) =
    Ok {| LatestPublishedVersion := Some "v0.0.1" |} ∧
  parseVersion "v0.0.1" = Ok old ∧
  parseVersion (Publish_Version policy) = Ok new ∧
  versionLt old new ∧
  Publish i policy = Err (testRunRequiredErr 7) ∧
  ¬ ((∃ err, Publish i policy = Err err) ↔ ¬ versionLt old new).
Proof.
  intros i policy old new.
  assert (Hlt : versionLt old new) by (unfold versionLt; cbn; lia).
  assert (Hp : Publish i policy = Err (testRunRequiredErr 7))
    by (vm_compute; reflexivity).
  split; [reflexivity|]. split; [vm_compute; reflexivity|].
  split; [vm_compute; reflexivity|]. split; [exact Hlt|].
  split; [exact Hp|].
  intros [Hiff _]. apply Hiff; [|exact Hlt]. by eexists.
Qed.

(** Isolation pruning keeps every node and edge of the two samples. *)
Lemma batchCanvas_kept :
  PruneIsolatedNodes (Nodes (batchCanvas [listOfObjects]))
    (Edges (batchCanvas [listOfObjects])) None =
  Ok (Nodes (batchCanvas [listOfObjects]),
      Edges (batchCanvas [listOfObjects])).
Proof. vm_compute. reflexivity. Qed.

Lemma nestedCanvas_kept :
  PruneIsolatedNodes (Nodes (nestedCanvas [listOfObjects]))
    (Edges (nestedCanvas [listOfObjects])) None =
  Ok (Nodes (nestedCanvas [listOfObjects]),
      Edges (nestedCanvas [listOfObjects])).
Proof. vm_compute. reflexivity. Qed.



(** The three branches of the sample selector. *)
Lemma normalizePorts_rules_witness :
  let connections := map EdgeToConnection (Edges (selectorCanvas "true_1")) in
  let nodeMap : gmap string Node := {["if" := selectorNode]} in
  let normalized :=
    [plainConnection "100001" "if";
     {| schema.FromNode := "if"; schema.ToNode := "900001";
        schema.FromPort := Some "branch_0" |};
     {| schema.FromNode := "if"; schema.ToNode := "900001";
        schema.FromPort := Some "branch_1" |};
     {| schema.FromNode := "if"; schema.ToNode := "900001";
        schema.FromPort := Some "default" |}] in
  normalizePorts connections nodeMap = Ok normalized ∧
  Forall2 (portRule nodeMap) connections normalized ∧
  ∃ err, normalizePorts
           (map EdgeToConnection (Edges (selectorCanvas "true_x")))
           nodeMap = Err err.
Proof.
  intros connections nodeMap normalized.
  assert (Hn : normalizePorts connections nodeMap = Ok normalized)
    by (vm_compute; reflexivity).
  split; [exact Hn|]. split.
  - apply (normalizePorts_rules connections nodeMap). exact Hn.
  - apply (normalizePorts_rules
             (map EdgeToConnection (Edges (selectorCanvas "true_x"))) nodeMap)
      with (conn := EdgeToConnection (portEdge "if" "true_x" "900001"))
           (node := selectorNode) (suffix := "x").
    + right; right; left.
    + reflexivity.
    + reflexivity.
    + reflexivity.
    + reflexivity.
Defined.

(** The edge that leaves the body of the sample loop goes to [END]. *)
Lemma inline_input_edges_witness :
  let e := {| SourceNodeID := "llm"; TargetNodeID := "loop";
              SourcePortID := "output";
              TargetPortID := "loop-function-inline-input" |} in
  TargetPortID e ∈ inlineInputPorts ∧
  schema.ToNode (EdgeToConnection e) = schema.END.
Proof.
  intros e.
  assert (Ht : TargetPortID e ∈ inlineInputPorts) by (by left).
  split; [exact Ht|].
  apply (inline_input_edges e Ht). discriminate.
Defined.

(** The edge that batch-mode expansion generates from the inner node to the
    parent has the batch inline input as its target port, and the
    connection that the compiler builds from it points to the parent. *)
Lemma inline_input_edges_counterexample :
  ∃ parentN out back sc,
    parseBatchMode (batchNode [listOfObjects]) = Ok (Some parentN, true) ∧
    Node_Edges parentN = [out; back] ∧
    SourceNodeID back = "llm_inner" ∧
    TargetPortID back = "batch-function-inline-input" ∧
    schema.ToNode (EdgeToConnection back) = "llm" ∧
    "llm" ≠ schema.END ∧
    CanvasToWorkflowSchema (batchCanvas [listOfObjects]) = Ok sc ∧
    filter (fun c => schema.FromNode c = "llm_inner") (schema.Connections sc)
      = [plainConnection "llm_inner" "llm"].
Proof.
  assert (Hs : (fun r => filter (fun c => schema.FromNode c = "llm_inner") r.1.2)
                 <$> summary (CanvasToWorkflowSchema
                                (batchCanvas [listOfObjects])) =
               Some [plainConnection "llm_inner" "llm"])
    by (vm_compute; reflexivity).
  destruct (CanvasToWorkflowSchema (batchCanvas [listOfObjects]))
    as [sc| |]; [|discriminate Hs..].
  injection Hs as Hs. do 3 eexists. exists sc.
  split; [vm_compute; reflexivity|].
  split; [reflexivity|]. split; [reflexivity|]. split; [reflexivity|].
  split; [reflexivity|]. split; [discriminate|]. split; [reflexivity|].
  exact Hs.
Qed.

(** The two edges of the sample batch canvas give the last two
    connections of its schema. *)
Lemma connection_endpoints_witness :
  ∃ sc, CanvasToWorkflowSchema (batchCanvas [listOfObjects]) = Ok sc ∧
        ∃ inner outer,
          schema.Connections sc = (inner ++ outer)%list ∧
          Forall2 connectionOf (Edges (batchCanvas [listOfObjects])) outer ∧
          Forall (knownTarget (batchCanvas [listOfObjects])) outer.
Proof.
  assert (Hs : is_Some (summary (CanvasToWorkflowSchema
                                   (batchCanvas [listOfObjects]))))
    by (vm_compute; eexists; reflexivity).
  destruct (CanvasToWorkflowSchema (batchCanvas [listOfObjects]))
    as [sc| |] eqn:Hc; [|by destruct Hs..].
  exists sc. split; [reflexivity|].
  destruct (connection_endpoints (batchCanvas [listOfObjects]) sc _ _ Hc
              batchCanvas_kept) as [_ Hends].
  exact Hends.
Defined.

(** An edge whose source is no node at all is compiled into a connection
    whose [from_node] is no key of the schema. *)
Lemma connection_endpoints_counterexample :
  ∃ sc, CanvasToWorkflowSchema ghostCanvas = Ok sc ∧
        map schema.Key (schema.Nodes sc) = ["100001"; "900001"] ∧
        plainConnection "ghost" "900001" ∈ schema.Connections sc ∧
        ¬ (∀ c, c ∈ schema.Connections sc →
                schema.FromNode c ∈ map schema.Key (schema.Nodes sc) ∧
                (schema.ToNode c = schema.END ∨
                 schema.ToNode c ∈ map schema.Key (schema.Nodes sc))).
Proof.
  assert (Hs : (fun r => (r.1.1.*1, r.1.2)) <$>
                 summary (CanvasToWorkflowSchema ghostCanvas) =
               Some (["100001"; "900001"],
                     [plainConnection "100001" "900001";
                      plainConnection "ghost" "900001"]))
    by (vm_compute; reflexivity).
  destruct (CanvasToWorkflowSchema ghostCanvas) as [sc| |];
    [|discriminate Hs..].
  injection Hs as Hkeys Hconns. rewrite <- list_fmap_compose in Hkeys.
  change (map schema.Key (schema.Nodes sc) = ["100001"; "900001"]) in Hkeys.
  exists sc. split; [reflexivity|]. split; [exact Hkeys|].
  rewrite Hconns, Hkeys. split; [by right; left|].
  intros Hall. destruct (Hall (plainConnection "ghost" "900001")) as [Hfrom _].
  { by right; left. }
  cbn in Hfrom.
  apply elem_of_cons in Hfrom as [Hf|Hf]; [discriminate Hf|].
  apply elem_of_cons in Hf as [Hf|Hf]; [discriminate Hf|].
  by apply elem_of_nil in Hf.
Qed.


(** The adapter on the minimal sample canvas appends both fields and saves
    the chat canvas. *)
Lemma adaptToChatFlow_fields_witness :
  let i := implOf "minimal" true None in
  adaptStartNode (Nodes minimalCanvas) = Ok (Nodes chatCanvas) ∧
  adaptToChatFlow i 7 = Save i 7 "chat".
Proof.
  intros i.
  assert (Hnodes : adaptStartNode (Nodes minimalCanvas) = Ok (Nodes chatCanvas))
    by (vm_compute; reflexivity).
  split; [exact Hnodes|].
  apply (adaptToChatFlow_fields i 7
           {| Workflow_ID := 7; Workflow_CommitID := "41";
              Workflow_Meta := Some {| LatestPublishedVersion := None |};
              Workflow_CanvasInfo :=
                Some {| Canvas_ := "minimal"; Info_InputParamsStr := "[]";
                        Info_OutputParamsStr := "[]" |} |}
           {| Canvas_ := "minimal"; Info_InputParamsStr := "[]";
              Info_OutputParamsStr := "[]" |}
           minimalCanvas (Nodes chatCanvas)).
  - reflexivity.
  - reflexivity.
  - reflexivity.
  - exact Hnodes.
  - reflexivity.
Defined.

(** The [USER_INPUT] field that the adapter appends is not marked required,
    and the default of [CONVERSATION_NAME] is the literal of the adapter. *)
Lemma adaptToChatFlow_fields_counterexample :
  let i := implOf "minimal" true None in
  ∃ start userInput conversationName u c,
    adaptToChatFlow i 7 = Save i 7 "chat" ∧
    unmarshalCanvas "chat" = (chatCanvas, None) ∧
    adaptStartNode (Nodes minimalCanvas) = Ok (Nodes chatCanvas) ∧
    Nodes chatCanvas = [start; exitNode] ∧
    isEntry start = true ∧
    (Outputs <$> Node_Data start) =
      Some [stringVar "input"; userInput; conversationName] ∧
    parseVariable userInput = Ok u ∧
    Var_Name u = UserInputKey ∧ Var_Type u = "string" ∧
    Var_Required u = false ∧
    parseVariable conversationName = Ok c ∧
    Var_Name c = ConversationNameKey ∧
    Var_DefaultValue c = DString "Default".
Proof.
  intros i. do 5 eexists.
  split; [vm_compute; reflexivity|].
  repeat split; reflexivity.
Qed.

End samples.

(** ** The further properties on the sample instance *)

Section samples_more.
Import vo adaptor service schema_more service_more Spec SpecMore.
Import Sample SampleMore.

(** The inner node of the batch sample under its parent. *)
Lemma hierarchy_levels_witness :
  let n : option (gmap string string) := Some {["llm_inner" := "llm"]} in
  IsParentOf n "llm" "llm_inner" = true ∧
  IsBelowOneLevel n "llm_inner" "llm" = true ∧
  IsInSameWorkflow n "llm_inner" "llm" = false.
Proof.
  intros n.
  assert (Hp : IsParentOf n "llm" "llm_inner" = true)
    by (vm_compute; reflexivity).
  split; [exact Hp|].
  destruct (hierarchy_levels n "llm" "llm_inner" Hp) as [_ Htop].
  destruct Htop as (Hb & _ & Hs).
  - intros q. vm_compute. reflexivity.
  - split; [exact Hb|exact Hs].
Defined.

(** Two connections of the selector sample with the same ID. *)
Lemma Connection_ID_injective_witness :
  let c := {| schema.FromNode := "if"; schema.ToNode := "900001";
              schema.FromPort := Some "branch_0" |} in
  schema.ID c = "if:900001:branch_0" ∧ (schema.ID c = schema.ID c → c = c).
Proof.
  intros c. split; [reflexivity|].
  apply (Connection_ID_injective c c); reflexivity.
Defined.

(** Lookup in the streaming sample. *)
Lemma GetNode_lookup_witness :
  schema.once (schema.runtime streamingSchema) = false ∧
  ∃ w', schema_ops.Init streamingSchema = Ok w' ∧
        (∀ key, GetNode streamingSchema key = None) ∧
        (GetNode w' "ghost" = None ↔
         "ghost" ∉ map schema.Key (schema.Nodes w')).
Proof.
  split; [reflexivity|].
  destruct (schema_ops.Init streamingSchema) as [w'| |] eqn:HInit;
    [|vm_compute in HInit; discriminate HInit..].
  exists w'. split; [reflexivity|].
  destruct (GetNode_lookup streamingSchema w' eq_refl HInit)
    as (Hnone & _ & Hmissing & _).
  split; [exact Hnone|apply Hmissing].
Defined.

(** The caller of a schema that requires a checkpoint requires one too. *)
Lemma RequireCheckpoint_spec_witness :
  schema.once (schema.runtime (callerSchema true)) = false ∧
  ∃ w', schema_ops.Init (callerSchema true) = Ok w' ∧
        ∃ node, node ∈ schema.Nodes w' ∧ requiresCheckpoint node.
Proof.
  split; [reflexivity|].
  assert (HInit : ∃ w', schema_ops.Init (callerSchema true) = Ok w' ∧
                        schema_ops.RequireCheckpoint w' = true)
    by (eexists; split; vm_compute; reflexivity).
  destruct HInit as (w' & HInit & Hrc). exists w'. split; [exact HInit|].
  destruct (RequireCheckpoint_spec (callerSchema true) w' eq_refl HInit)
    as [Hto _].
  destruct (Hto Hrc) as [Hold|Hnode]; [discriminate Hold|exact Hnode].
Defined.

(** The caller takes over the three rounds of the embedded schema. *)
Lemma HistoryRounds_spec_witness :
  schema.once (schema.runtime (callerSchema false)) = false ∧
  ∃ w', schema_ops.Init (callerSchema false) = Ok w' ∧
        schema_ops.HistoryRounds w' = 3 ∧
        0 ≤ schema_ops.HistoryRounds w'.
Proof.
  split; [reflexivity|].
  assert (HInit : ∃ w', schema_ops.Init (callerSchema false) = Ok w' ∧
                        schema_ops.HistoryRounds w' = 3)
    by (eexists; split; vm_compute; reflexivity).
  destruct HInit as (w' & HInit & Hhr). exists w'.
  split; [exact HInit|]. split; [exact Hhr|].
  apply (HistoryRounds_spec (callerSchema false) w' eq_refl HInit).
Defined.

Lemma Init_idempotent_witness :
  ∃ w', schema_ops.Init (callerSchema false) = Ok w' ∧
        schema_ops.Init w' = Ok w'.
Proof.
  destruct (schema_ops.Init (callerSchema false)) as [w'| |] eqn:HInit;
    [|vm_compute in HInit; discriminate HInit..].
  exists w'. split; [reflexivity|].
  apply (Init_idempotent (callerSchema false) w' HInit).
Defined.

Lemma IsEqual_Init_witness :
  ∃ w' other',
    schema_ops.Init (callerSchema false) = Ok w' ∧
    schema_ops.Init (callerSchema true) = Ok other' ∧
    schema_ops.IsEqual w' other' =
    schema_ops.IsEqual (callerSchema false) (callerSchema true).
Proof.
  destruct (schema_ops.Init (callerSchema false)) as [w'| |] eqn:Hw;
    [|vm_compute in Hw; discriminate Hw..].
  destruct (schema_ops.Init (callerSchema true)) as [other'| |] eqn:Ho;
    [|vm_compute in Ho; discriminate Ho..].
  exists w', other'. split; [reflexivity|]. split; [reflexivity|].
  apply (IsEqual_Init _ _ _ _ Hw Ho).
Defined.

Lemma Init_sub_workflows_witness :
  ∃ w', schema_ops.Init (callerSchema false) = Ok w' ∧
        schema_ops.RequireCheckpoint w' = false ∧
        ∀ node, node ∈ schema.Nodes w' →
                schema.Type_ node = "SubWorkflow" →
                ∃ s, schema.SubWorkflowSchema node = Some s ∧
                     schema.once (schema.runtime s) = true.
Proof.
  assert (HInit : ∃ w', schema_ops.Init (callerSchema false) = Ok w' ∧
                        schema_ops.RequireCheckpoint w' = false)
    by (eexists; split; vm_compute; reflexivity).
  destruct HInit as (w' & HInit & Hrc). exists w'.
  split; [exact HInit|]. split; [exact Hrc|].
  apply (Init_sub_workflows (callerSchema false) w' eq_refl HInit Hrc).
Defined.

End samples_more.

Section samples_canvas.
Import vo adaptor service schema_more service_more Spec SpecMore.
Import Sample SampleMore.

Lemma isolatedCanvas_flat : Forall flat (Nodes isolatedCanvas).
Proof. repeat constructor. Qed.

Lemma isolatedCanvas_targetsKnown :
  targetsKnown (Nodes isolatedCanvas) (Edges isolatedCanvas).
Proof.
  intros e He.
  apply elem_of_cons in He as [->|He].
  { left. cbn. apply elem_of_cons. right. apply elem_of_cons. right.
    apply elem_of_cons. by left. }
  apply elem_of_cons in He as [->|He]; [by right; right|].
  apply elem_of_cons in He as [->|He]; [by right; right|].
  by apply elem_of_nil in He.
Qed.

(** Node [a] goes, and with it its edge to [b]; node [b] stays. *)
Lemma PruneIsolatedNodes_keeps_witness :
  ∃ nodes' edges',
    PruneIsolatedNodes (Nodes isolatedCanvas) (Edges isolatedCanvas) None =
      Ok (nodes', edges') ∧
    map ID nodes' = ["100001"; "b"; "900001"] ∧
    (∀ n, n ∈ nodes' ↔
          n ∈ Nodes isolatedCanvas ∧ connected (Edges isolatedCanvas) (ID n)).
Proof.
  destruct (PruneIsolatedNodes_keeps (Nodes isolatedCanvas)
              (Edges isolatedCanvas) isolatedCanvas_flat
              isolatedCanvas_targetsKnown)
    as (nodes' & edges' & Hrun & _ & _ & Hnodes & _).
  exists nodes', edges'. split; [exact Hrun|]. split; [|exact Hnodes].
  assert (Hids : match PruneIsolatedNodes (Nodes isolatedCanvas)
                         (Edges isolatedCanvas) None with
                 | Ok (l, _) => map ID l
                 | _ => []
                 end = ["100001"; "b"; "900001"]) by (vm_compute; reflexivity).
  rewrite Hrun in Hids. exact Hids.
Defined.

Lemma PruneIsolatedNodes_total_witness :
  (∃ r, PruneIsolatedNodes (Nodes isolatedCanvas) (Edges isolatedCanvas)
          None = Ok r) ∧
  ∀ err, PruneIsolatedNodes (Nodes isolatedCanvas) (Edges isolatedCanvas)
           None ≠ Err err.
Proof.
  destruct (PruneIsolatedNodes_total (Nodes isolatedCanvas)
              (Edges isolatedCanvas) isolatedCanvas_flat)
    as (Hiff & Hnever & _).
  split; [|exact Hnever]. apply Hiff, isolatedCanvas_targetsKnown.
Defined.

(** The loop of the nested sample has the batch node as its only block. *)
Lemma NodeToNodeSchema_hierarchy_witness :
  ∃ nsList hierarchy,
    NodeToNodeSchema (loopNode [listOfObjects]) (nestedCanvas [listOfObjects])
      = Ok (nsList, hierarchy) ∧
    ∀ k p, hierarchy !! k = Some p ↔ k ∈ ["llm"] ∧ p = "loop".
Proof.
  destruct (NodeToNodeSchema (loopNode [listOfObjects])
              (nestedCanvas [listOfObjects])) as [[nsList hierarchy]| |]
    eqn:Hrun; [|vm_compute in Hrun; discriminate Hrun..].
  exists nsList, hierarchy. split; [reflexivity|].
  assert (Htype : IDStrToNodeType (Type_ (loopNode [listOfObjects])) ≠
                  NodeTypeSubWorkflow) by (vm_compute; discriminate).
  destruct (GetNodeAdaptor (IDStrToNodeType (Type_ (loopNode [listOfObjects]))))
    as [na|] eqn:Hna; [|vm_compute in Hna; discriminate Hna].
  apply (NodeToNodeSchema_hierarchy (loopNode [listOfObjects])
           (nestedCanvas [listOfObjects]) na nsList hierarchy Htype Hna Hrun).
Defined.

(** The error settings of the guarded node win over the defaults. *)
Lemma toExceptionConfig_result_witness :
  ∃ conf, toExceptionConfig guardedNode "LLM" = Ok (Some conf) ∧
          schema.TimeoutMS conf = 500 ∧
          schema.MaxRetry conf = 2 ∧
          schema.Exception_DataOnErr conf = "{}".
Proof.
  destruct (toExceptionConfig guardedNode "LLM") as [[conf|]| |] eqn:Hrun;
    [|vm_compute in Hrun; discriminate Hrun..].
  exists conf. split; [reflexivity|].
  destruct (toExceptionConfig_result guardedNode "LLM" (Some conf) Hrun)
    as (_ & _ & Hwin).
  destruct (Hwin _ _ _ conf eq_refl eq_refl eq_refl eq_refl)
    as (Ht & Hr & Hd).
  done.
Defined.

Lemma sample_elem_second {A} (x y : A) (l : list A) : y ∈ x :: y :: l.
Proof. apply elem_of_cons. right. apply elem_of_cons. by left. Qed.

Lemma sample_elem_first {A} (x : A) (l : list A) : x ∈ x :: l.
Proof. apply elem_of_cons. by left. Qed.

(** A loop inside a loop does not compile. *)
Lemma nested_blocks_rejected_witness :
  ∃ err, CanvasToWorkflowSchema nestedLoopCanvas = Err err.
Proof.
  assert (Hprune : ∃ edges,
             PruneIsolatedNodes (Nodes nestedLoopCanvas)
               (Edges nestedLoopCanvas) None =
             Ok (Nodes nestedLoopCanvas, edges))
    by (eexists; vm_compute; reflexivity).
  destruct Hprune as (edges & Hprune).
  apply (nested_blocks_rejected nestedLoopCanvas (Nodes nestedLoopCanvas)
           edges outerLoop breakLoop Hprune).
  - apply sample_elem_second.
  - apply sample_elem_first.
  - left. discriminate.
Defined.

(** The break of the loop sample is joined to its loop. *)
Lemma break_connection_witness :
  ∃ sc, CanvasToWorkflowSchema breakCanvas = Ok sc ∧
        {| schema.FromNode := "stop"; schema.ToNode := "loop";
           schema.FromPort := None |} ∈ schema.Connections sc.
Proof.
  assert (Hprune : ∃ edges,
             PruneIsolatedNodes (Nodes breakCanvas) (Edges breakCanvas) None =
             Ok (Nodes breakCanvas, edges))
    by (eexists; vm_compute; reflexivity).
  destruct Hprune as (edges & Hprune).
  destruct (CanvasToWorkflowSchema breakCanvas) as [sc| |] eqn:Hrun;
    [|vm_compute in Hrun; discriminate Hrun..].
  exists sc. split; [reflexivity|].
  apply (break_connection breakCanvas sc (Nodes breakCanvas) edges breakLoop
           (plainNode "stop" "19") Hrun Hprune).
  - apply sample_elem_second.
  - apply sample_elem_first.
  - by left.
Defined.

Lemma compiled_schema_initialised_witness :
  ∃ sc, CanvasToWorkflowSchema minimalCanvas = Ok sc ∧
        schema.once (schema.runtime sc) = true ∧
        schema_ops.Init sc = Ok sc.
Proof.
  destruct (CanvasToWorkflowSchema minimalCanvas) as [sc| |] eqn:Hrun;
    [|vm_compute in Hrun; discriminate Hrun..].
  exists sc. split; [reflexivity|].
  destruct (compiled_schema_initialised minimalCanvas sc Hrun)
    as (Honce & HInit & _).
  by split.
Defined.

(** The batch sample generates the inner node of its batch-mode node. *)
Lemma generated_nodes_spec_witness :
  ∃ sc, CanvasToWorkflowSchema (batchCanvas [listOfObjects]) = Ok sc ∧
        "llm_inner" ∈ schema.GeneratedNodes sc.
Proof.
  assert (Hprune : ∃ edges,
             PruneIsolatedNodes (Nodes (batchCanvas [listOfObjects]))
               (Edges (batchCanvas [listOfObjects])) None =
             Ok (Nodes (batchCanvas [listOfObjects]), edges))
    by (eexists; vm_compute; reflexivity).
  destruct Hprune as (edges & Hprune).
  destruct (CanvasToWorkflowSchema (batchCanvas [listOfObjects]))
    as [sc| |] eqn:Hrun; [|vm_compute in Hrun; discriminate Hrun..].
  exists sc. split; [reflexivity|].
  apply (generated_nodes_spec (batchCanvas [listOfObjects]) sc
           (Nodes (batchCanvas [listOfObjects])) edges "llm_inner" Hrun Hprune).
  destruct (parseBatchMode (batchNode [listOfObjects]))
    as [[[parentN|] [|]]| |] eqn:Hparse;
    try (vm_compute in Hparse; discriminate Hparse).
  exists (batchNode [listOfObjects]), parentN.
  split; [apply sample_elem_second|]. split; [exact Hparse|].
  split; vm_compute; reflexivity.
Defined.

End samples_canvas.

Section samples_service.
Import vo adaptor service schema_more service_more Spec SpecMore.
Import Sample SampleMore.

(** The port [maybe] of the selector sample becomes the empty port. *)
Lemma selector_unknown_port_witness :
  let conn := {| schema.FromNode := "if"; schema.ToNode := "900001";
                 schema.FromPort := Some "maybe" |} in
  normalizePort {["if" := selectorNode]} conn =
    Ok {| schema.FromNode := "if"; schema.ToNode := "900001";
          schema.FromPort := Some "" |}.
Proof.
  intros conn.
  assert (Hports : "maybe" ∉ inlineOutputPorts).
  { intros Hin. unfold inlineOutputPorts in Hin.
    repeat (apply elem_of_cons in Hin as [Hin|Hin]; [discriminate Hin|]).
    by apply elem_of_nil in Hin. }
  assert (Hnode : ({["if" := selectorNode]} : gmap string Node) !!
                    schema.FromNode conn = Some selectorNode)
    by (vm_compute; reflexivity).
  assert (Htype : Type_ selectorNode = IDStr NodeTypeSelector)
    by (vm_compute; reflexivity).
  assert (Hprefix : Strings.HasPrefix "maybe" "true_" = false)
    by (vm_compute; reflexivity).
  destruct (selector_unknown_port {["if" := selectorNode]} conn selectorNode
              "maybe" Hnode Htype eq_refl ltac:(discriminate) Hports
              ltac:(discriminate) ltac:(discriminate) Hprefix) as [Hport _].
  exact Hport.
Defined.

(** The draft of the sample without nodes cannot be adapted. *)
Lemma adaptToChatFlow_no_entry_witness :
  adaptToChatFlow (implOf "dangling" true None) 7 =
    Err (errorf "can not find start node").
Proof.
  assert (Hentity : ∃ wfEntity info,
             GetEntity (repo (implOf "dangling" true None))
               {| Policy_ID := 7; QType := FromDraft; Policy_Version := "" |} =
               Ok wfEntity ∧
             Workflow_CanvasInfo wfEntity = Some info ∧
             UnmarshalCanvas (Canvas_ info) = (danglingCanvas, None))
    by (eexists _, _; split; [reflexivity|]; split; reflexivity).
  destruct Hentity as (wfEntity & info & Hget & Hinfo & Hcanvas).
  apply (adaptToChatFlow_no_entry (implOf "dangling" true None) 7 wfEntity
           info danglingCanvas Hget Hinfo Hcanvas).
  constructor.
Defined.

(** The entry of the chat sample declares both fields already. *)
Lemma adaptStartNode_unchanged_witness :
  adaptStartNode (Nodes chatCanvas) = Ok (Nodes chatCanvas).
Proof.
  destruct (adaptStartNode (Nodes chatCanvas)) as [nodes'| |] eqn:Hrun;
    [|vm_compute in Hrun; discriminate Hrun..].
  f_equal.
  eapply (adaptStartNode_unchanged [] [exitNode]
            (entryNode [stringVar "input";
                        DVar "USER_INPUT" "string" false DNil DNil;
                        DVar "CONVERSATION_NAME" "string" false DNil
                             (DString "Default")]) _ nodes').
  - constructor.
  - reflexivity.
  - reflexivity.
  - eexists _, _. split; [apply sample_elem_second|]. split; reflexivity.
  - eexists _, _. split;
      [apply elem_of_cons; right; apply sample_elem_second|].
    split; reflexivity.
  - exact Hrun.
Defined.

(** Adapting the minimal sample twice gives what adapting it once gives. *)
Lemma adaptStartNode_idempotent_witness :
  ∃ nodes', adaptStartNode (Nodes minimalCanvas) = Ok nodes' ∧
            adaptStartNode nodes' = Ok nodes'.
Proof.
  destruct (adaptStartNode (Nodes minimalCanvas)) as [nodes'| |] eqn:Hrun;
    [|vm_compute in Hrun; discriminate Hrun..].
  exists nodes'. split; [reflexivity|].
  apply (adaptStartNode_idempotent (Nodes minimalCanvas) nodes'); [|exact Hrun].
  intros v. eexists. split; reflexivity.
Defined.

(** The broken sample is saved although it does not compile. *)
Lemma Save_uncompilable_witness :
  Save (implOf "minimal" true None) 7 "broken" =
    Ok (CreateOrUpdateDraft 7
          {| Draft_Canvas := "broken"; TestRunSuccess := false;
             Modified := true; InputParamsStr := "[]";
             OutputParamsStr := "[]"; Draft_CommitID := "42" |}).
Proof.
  destruct (CanvasToWorkflowSchema brokenCanvas) as [sc|err|] eqn:Hrun;
    [vm_compute in Hrun; discriminate Hrun| |vm_compute in Hrun;
                                              discriminate Hrun].
  assert (Hcanvas : UnmarshalCanvas "broken" = (brokenCanvas, None))
    by (vm_compute; reflexivity).
  assert (Hnames : extractInputsAndOutputsNamedInfoList brokenCanvas =
                   ([], [])) by (vm_compute; reflexivity).
  assert (Hparams : MarshalNamedTypeInfos [] = Ok "[]")
    by (vm_compute; reflexivity).
  assert (Hid : GenID (repo (implOf "minimal" true None)) = Ok 42)
    by reflexivity.
  destruct (Save_uncompilable (implOf "minimal" true None) 7 42 "broken"
              brokenCanvas err [] [] "[]" "[]" Hcanvas Hnames Hparams
              Hparams Hid Hrun (implOf "minimal" true None) Hid)
    as [_ Hsave].
  exact Hsave.
Defined.

(** A repository that cannot be read makes [Save] fail. *)
Lemma Save_repository_failure_witness :
  Save {| repo := failingRepo |} 7 "minimal" =
    Err (errorf "connection refused").
Proof.
  destruct (CanvasToWorkflowSchema minimalCanvas) as [sc| |] eqn:Hrun;
    [|vm_compute in Hrun; discriminate Hrun..].
  assert (Hcanvas : UnmarshalCanvas "minimal" = (minimalCanvas, None))
    by (vm_compute; reflexivity).
  assert (Hnames : extractInputsAndOutputsNamedInfoList minimalCanvas =
                   ([], [])) by (vm_compute; reflexivity).
  assert (Hparams : MarshalNamedTypeInfos [] = Ok "[]")
    by (vm_compute; reflexivity).
  assert (Hother : errorsIs (errorf "connection refused") ErrRecordNotFound =
                   false) by (vm_compute; reflexivity).
  apply (Save_repository_failure {| repo := failingRepo |} 7 "minimal"
           minimalCanvas sc (errorf "connection refused") [] [] "[]" "[]"
           Hcanvas Hnames Hparams Hparams Hrun eq_refl Hother).
Defined.

(** Version v0.0.2 of the tested draft of the sample. *)
Lemma Publish_version_info_witness :
  let i := implOf "minimal" true (Some "v0.0.1") in
  ∃ id info refs,
    Publish i (publishOf "v0.0.2" false) = Ok (CreateVersion id info refs) ∧
    id = 7 ∧
    ∃ draft, DraftV2 (repo i) 7 "41" = Ok draft ∧
             Version_Canvas info = Draft_Canvas draft.
Proof.
  intros i.
  destruct (Publish i (publishOf "v0.0.2" false)) as [[id0 draft0|id info refs]| |]
    eqn:Hrun; try (vm_compute in Hrun; discriminate Hrun).
  exists id, info, refs. split; [reflexivity|].
  destruct (Publish_version_info i (publishOf "v0.0.2" false) id info refs
              Hrun) as (Hid & draft & Hdraft & _ & _ & Hinfo).
  split; [exact Hid|]. exists draft. split; [exact Hdraft|].
  rewrite Hinfo. reflexivity.
Defined.

(** The flag kept for the minimal sample comes from its tested draft. *)
Lemma Save_never_raises_flag_witness :
  ∃ prev, DraftV2 (repo (implOf "minimal" true None)) 7 "" = Ok prev ∧
          TestRunSuccess prev = true.
Proof.
  apply (Save_never_raises_flag (implOf "minimal" true None) 7 7 "minimal"
           {| Draft_Canvas := "minimal"; TestRunSuccess := true;
              Modified := true; InputParamsStr := "[]";
              OutputParamsStr := "[]"; Draft_CommitID := "42" |}).
  - vm_compute. reflexivity.
  - reflexivity.
Defined.

(** The call node of a canvas names workflow 12 at version v1. *)
Lemma getAllSubWorkflowIdentities_spec_witness :
  let c := {| Nodes := [entryNode []; callNode; exitNode]; Edges := [] |} in
  getAllSubWorkflowIdentities c =
    Ok [{| Identity_ID := "12"; Identity_Version := "v1" |}] ∧
  ∀ err, getAllSubWorkflowIdentities c ≠ Err err.
Proof.
  intros c.
  destruct (getAllSubWorkflowIdentities_spec c) as (Hrun & Hnever & _).
  split; [|exact Hnever]. rewrite Hrun. vm_compute. reflexivity.
Defined.

(** Two blocks of one parent, and a node outside of it. *)
Lemma IsInSameWorkflow_equivalence_witness :
  let n : option (gmap string string) :=
    Some {["a" := "loop"; "b" := "loop"]} in
  IsInSameWorkflow n "a" "b" = true ∧
  IsInSameWorkflow n "a" "c" = false ∧
  IsInSameWorkflow n "b" "a" = IsInSameWorkflow n "a" "b".
Proof.
  intros n.
  destruct (IsInSameWorkflow_equivalence n) as (_ & Hsym & _).
  split; [vm_compute; reflexivity|]. split; [vm_compute; reflexivity|].
  apply Hsym.
Defined.

End samples_service.
